(** * GL software rasterizer: matrix utilities and renderer core

    A shallow embedding of [KDZ/Matrix.cpp] (namespace [GL::Util]) and of the
    rasterization core of [KDZ/Renderer.cpp] (class [GL::Renderer]).

    The C++ code computes on [float].  The embedding is written once, over a
    scalar interface [Scalar], and used at two instances:

    - [Binary32.scalar]: IEEE-754 binary32 with round-to-nearest-even at
      every operation, built on the standard library's [SpecFloat].  It is
      executable, and carries NaN, infinities and signed zeros.
    - [Exact.scalar]: the real numbers, for the algebraic laws that the
      floating-point code only satisfies up to rounding.

    [int] values are modelled as [Z] in the range of a 32-bit [int], with
    the wrap-around of the [int] arithmetic of the rasterizer loops
    written out ([wrap]).  A result
    [None] of a drawing operation stands for a call that does not return
    normally: the index exception of the z-buffer, or a loop that never
    exits. *)

From Stdlib Require Import ZArith Reals Lra Lia List Bool.
From Stdlib Require Import Floats.SpecFloat.
From stdpp Require Import base option list gmap.

Local Open Scope Z_scope.

(** ** Machine integers

    [int] is 32 bits wide.  Signed overflow is undefined behaviour in C++;
    the code the compiler emits wraps around, and [wrap] is the value an
    [int] result has then. *)

Definition INT_MIN : Z := - 2 ^ 31.
Definition INT_MAX : Z := 2 ^ 31 - 1.

Definition in_int (z : Z) : bool := (INT_MIN <=? z) && (z <=? INT_MAX).

Definition wrap (z : Z) : Z := (z - INT_MIN) mod 2 ^ 32 + INT_MIN.

(** ** Loops

    [iterate cond step n s] runs [while (cond s) s = step s] from the
    state [s] for [2 ^ n] rounds at most and returns the state it reaches:
    the state at the exit, when the loop exits within [2 ^ n] rounds. *)

Section Loops.
Context {State : Type} (cond : State -> bool) (step : State -> State).

Fixpoint iterate (n : nat) (s : State) : State :=
  match n with
  | O => if cond s then step s else s
  | S n' => let s' := iterate n' s in if cond s' then iterate n' s' else s'
  end.
End Loops.
Arguments iterate : simpl never.

(** ** Scalars *)

(** The operations the source applies to [float] values.  [of_int] is the
    implicit [int -> float] conversion, [to_int] the implicit
    [float -> int] conversion (truncation toward zero). *)
Class Scalar (F : Type) : Type := {
  fadd : F -> F -> F;
  fsub : F -> F -> F;
  fmul : F -> F -> F;
  fdiv : F -> F -> F;
  fopp : F -> F;
  fabs : F -> F;
  fsqrt : F -> F;
  feqb : F -> F -> bool;
  fltb : F -> F -> bool;
  fleb : F -> F -> bool;
  of_int : Z -> F;
  to_int : F -> Z
}.

(** [a > b] is [b < a]. *)
Definition fgtb {F} `{Scalar F} (a b : F) : bool := fltb b a.

(** [<cmath>]: [cos], [sin], [tan] and the constant [PI] of [Matrix.h]. *)
Class Trig (F : Type) : Type := {
  fcos : F -> F;
  fsin : F -> F;
  ftan : F -> F;
  fPI : F
}.

(** The [INFINITY] macro of [<cmath>]. *)
Class HasInfinity (F : Type) : Type := {
  INFINITY : F
}.

Declare Scope float_scope.
Delimit Scope float_scope with flt.
Infix "+" := fadd : float_scope.
Infix "-" := fsub : float_scope.
Infix "*" := fmul : float_scope.
Infix "/" := fdiv : float_scope.
Notation "- x" := (fopp x) : float_scope.
Infix "==" := feqb (at level 70, no associativity) : float_scope.
Infix "<?" := fltb : float_scope.
Infix "<=?" := fleb : float_scope.
Infix ">?" := fgtb : float_scope.
Notation "# n" := (of_int n) (at level 1, format "# n") : float_scope.

(** *** IEEE-754 binary32 *)

Module Binary32.

Definition prec : Z := 24.
Definition emax : Z := 128.

Definition float : Type := spec_float.

(** [int -> float]: the nearest binary32 value. *)
Definition of_Z (n : Z) : float := binary_normalize prec emax n 0 false.

(** [float -> int]: truncation toward zero.  A NaN, an infinity or a
    value outside the range of [int] has no defined result in C++; the
    x86 conversion instruction returns [INT_MIN] there, and so does this
    definition. *)
Definition to_Z (f : float) : Z :=
  match f with
  | S754_zero _ => 0
  | S754_finite s m e =>
      let a := match e with
               | Z0 => Zpos m
               | Zpos p => Zpos m * 2 ^ Zpos p
               | Zneg p => Zpos m / 2 ^ Zpos p
               end in
      let v := if s then - a else a in
      if (INT_MIN <=? v) && (v <=? INT_MAX) then v else INT_MIN
  | S754_infinity _ | S754_nan => INT_MIN
  end.

#[global] Instance scalar : Scalar float := {|
    fadd := SFadd prec emax;
    fsub := SFsub prec emax;
    fmul := SFmul prec emax;
    fdiv := SFdiv prec emax;
    fopp := SFopp;
    fabs := SFabs;
    fsqrt := SFsqrt prec emax;
    feqb := SFeqb;
    fltb := SFltb;
    fleb := SFleb;
    of_int := of_Z;
    to_int := to_Z
  |}.

#[global] Instance infinity : HasInfinity float := {|
    INFINITY := S754_infinity false
  |}.

Definition NaN : float := S754_nan.

End Binary32.

(** *** Exact real arithmetic

    The real numbers stand for [float] in the laws that the code satisfies
    up to rounding only.  A division by zero is an unspecified real here,
    where the code gets an infinity or a NaN: a property settled on this
    instance is one of exact arithmetic, and assumes nonzero the
    denominators of the computation it is about. *)

Module Exact.

(** Truncation toward zero. *)
Definition Rtrunc (r : R) : Z :=
  if Rle_dec 0 r then Int_part r else - Int_part (- r).

(** [float -> int]: truncation toward zero, and [INT_MIN] for a value
    outside the range of [int], as on binary32. *)
Definition to_Z (r : R) : Z :=
  if in_int (Rtrunc r) then Rtrunc r else INT_MIN.

#[global] Instance scalar : Scalar R := {|
    fadd := Rplus;
    fsub := Rminus;
    fmul := Rmult;
    fdiv := Rdiv;
    fopp := Ropp;
    fabs := Rabs;
    fsqrt := sqrt;
    feqb := fun a b => if Req_dec_T a b then true else false;
    fltb := fun a b => if Rlt_dec a b then true else false;
    fleb := fun a b => if Rle_dec a b then true else false;
    of_int := IZR;
    to_int := to_Z
  |}.

#[global] Instance trig : Trig R := {|
    fcos := cos;
    fsin := sin;
    ftan := tan;
    fPI := PI
  |}.

End Exact.

(** ** Vectors and matrices

    [Vector3.h], [Vector4.h] and [Matrix4.h] are not part of the sources at
    hand; the three modules below follow the specification's data model. *)

Module Vector3.
Section Ops.
Context {F : Type} `{Scalar F}.
Local Open Scope float_scope.

(** Modelled from the spec: the class [Vector3] of the missing header
    [Vector3.h], an ordered triple of floating-point components. *)
Record t : Type := mk { x : F; y : F; z : F }.

(** Modelled from the spec: [operator+] of the missing [Vector3.h]. *)
Definition add (a b : t) : t := mk (x a + x b) (y a + y b) (z a + z b).

(** Modelled from the spec: [operator-] of the missing [Vector3.h]. *)
Definition sub (a b : t) : t := mk (x a - x b) (y a - y b) (z a - z b).

(** Modelled from the spec: scalar multiply of the missing [Vector3.h]. *)
Definition scale (a : t) (k : F) : t := mk (x a * k) (y a * k) (z a * k).

(** Modelled from the spec: [dot] of the missing [Vector3.h]. *)
Definition dot (a b : t) : F := x a * x b + y a * y b + z a * z b.

(** Modelled from the spec: [cross] of the missing [Vector3.h]. *)
Definition cross (a b : t) : t :=
  mk (y a * z b - z a * y b) (z a * x b - x a * z b) (x a * y b - y a * x b).

(** Modelled from the spec: the magnitude [len] of the missing
    [Vector3.h]. *)
Definition len (a : t) : F := fsqrt (dot a a).

(** Modelled from the spec: [normalized] of the missing [Vector3.h],
    every component divided by the magnitude. *)
Definition normalized (a : t) : t :=
  mk (x a / len a) (y a / len a) (z a / len a).
End Ops.
Arguments t : clear implicits.
End Vector3.

Module Vector4.
Section Ops.
Context {F : Type} `{Scalar F}.
Local Open Scope float_scope.

(** Modelled from the spec: the class [Vector4] of the missing header
    [Vector4.h]. *)
Record t : Type := mk { x : F; y : F; z : F; w : F }.

(** Modelled from the spec: [fromHomogeneous] of the missing
    [Vector4.h], the homogeneous divide of x, y, z by w. *)
Definition fromHomogeneous (v : t) : Vector3.t F :=
  Vector3.mk (x v / w v) (y v / w v) (z v / w v).
End Ops.
Arguments t : clear implicits.
End Vector4.

Module Matrix4.
Section Ops.
Context {F : Type} `{Scalar F}.
Local Open Scope float_scope.

(** Modelled from the spec: the class [Matrix4] of the missing header
    [Matrix4.h], a 4x4 grid stored as its flat row-major sequence of 16
    elements ([mk] is the constructor from [std::vector<float>]). *)
Record t : Type := mk { data : list F }.

(** Modelled from the spec: the default constructor of the missing
    [Matrix4.h] gives the identity matrix. *)
Definition identity : t :=
  mk [ #1; #0; #0; #0;
       #0; #1; #0; #0;
       #0; #0; #1; #0;
       #0; #0; #0; #1 ].

(** Modelled from the spec: indexed element access by (row, column). *)
Definition get (m : t) (r c : nat) : F :=
  default #0 (data m !! (4 * r + c)%nat).

(** Modelled from the spec: [set(row, column, value)]. *)
Definition set (r c : nat) (v : F) (m : t) : t :=
  mk (<[(4 * r + c)%nat := v]> (data m)).

Definition row_col (a b : t) (i j : nat) : F :=
  get a i 0 * get b 0 j + get a i 1 * get b 1 j
  + get a i 2 * get b 2 j + get a i 3 * get b 3 j.

(** Modelled from the spec: matrix times matrix, right operand applied
    first. *)
Definition mul (a b : t) : t :=
  mk (i ← [0; 1; 2; 3]%nat; j ← [0; 1; 2; 3]%nat; [row_col a b i j]).

Definition row_vec (a : t) (v : Vector4.t F) (i : nat) : F :=
  get a i 0 * Vector4.x v + get a i 1 * Vector4.y v
  + get a i 2 * Vector4.z v + get a i 3 * Vector4.w v.

(** Modelled from the spec: matrix times [Vector4]. *)
Definition mulv (a : t) (v : Vector4.t F) : Vector4.t F :=
  Vector4.mk (row_vec a v 0) (row_vec a v 1) (row_vec a v 2) (row_vec a v 3).
End Ops.
Arguments t : clear implicits.
End Matrix4.

(** ** [Matrix.cpp]: namespace [GL::Util] *)

Module Util.
Section Transforms.
Context {F : Type} `{Scalar F} `{Trig F}.
Local Open Scope float_scope.

(** Converts degrees to radians. *)
Definition degToRad (degrees : F) : F := degrees * fPI / #180.

Definition rotateX (mat : Matrix4.t F) (degrees : F) : Matrix4.t F :=
  let angle := degToRad degrees in
  let rotationMatrix := Matrix4.identity in
  let rotationMatrix := Matrix4.set 1 1 (fcos angle) rotationMatrix in
  let rotationMatrix := Matrix4.set 2 1 (- fsin angle) rotationMatrix in
  let rotationMatrix := Matrix4.set 1 2 (fsin angle) rotationMatrix in
  let rotationMatrix := Matrix4.set 2 2 (fcos angle) rotationMatrix in
  Matrix4.mul rotationMatrix mat.

Definition rotateY (mat : Matrix4.t F) (degrees : F) : Matrix4.t F :=
  let angle := degToRad degrees in
  let rotationMatrix := Matrix4.identity in
  let rotationMatrix := Matrix4.set 0 0 (fcos angle) rotationMatrix in
  let rotationMatrix := Matrix4.set 0 2 (fsin angle) rotationMatrix in
  let rotationMatrix := Matrix4.set 2 0 (- fsin angle) rotationMatrix in
  let rotationMatrix := Matrix4.set 2 2 (fcos angle) rotationMatrix in
  Matrix4.mul rotationMatrix mat.

Definition rotateZ (mat : Matrix4.t F) (degrees : F) : Matrix4.t F :=
  let angle := degToRad degrees in
  let rotationMatrix := Matrix4.identity in
  let rotationMatrix := Matrix4.set 0 0 (fcos angle) rotationMatrix in
  let rotationMatrix := Matrix4.set 0 1 (- fsin angle) rotationMatrix in
  let rotationMatrix := Matrix4.set 1 0 (fsin angle) rotationMatrix in
  let rotationMatrix := Matrix4.set 1 1 (fcos angle) rotationMatrix in
  Matrix4.mul rotationMatrix mat.

(** Returns a perspective projection matrix with the specified
    parameters. *)
Definition perspective (fov aspect near far : F) : Matrix4.t F :=
  let top := near * ftan (degToRad fov / #2) in
  let bottom := - top in
  let right := top * aspect in
  let left := - right in
  let proj := Matrix4.identity in
  let proj := Matrix4.set 0 0 (#2 * near / (right - left)) proj in
  let proj := Matrix4.set 0 2 ((right + left) / (right - left)) proj in
  let proj := Matrix4.set 1 1 (#2 * near / (top - bottom)) proj in
  let proj := Matrix4.set 2 2 (- (far + near) / (far - near)) proj in
  let proj := Matrix4.set 3 3 #0 proj in
  let proj := Matrix4.set 2 3 (#(-2) * far * near / (far - near)) proj in
  let proj := Matrix4.set 3 2 #(-1) proj in
  proj.
End Transforms.

Section Geometry.
Context {F : Type} `{Scalar F}.
Local Open Scope float_scope.

(** Moves the object by the given movement vector. *)
Definition translate (mat : Matrix4.t F) (move : Vector3.t F) : Matrix4.t F :=
  let translationMatrix := Matrix4.identity in
  let translationMatrix := Matrix4.set 0 3 (Vector3.x move) translationMatrix in
  let translationMatrix := Matrix4.set 1 3 (Vector3.y move) translationMatrix in
  let translationMatrix := Matrix4.set 2 3 (Vector3.z move) translationMatrix in
  Matrix4.mul translationMatrix mat.

(** Reflects the object across the XY plane. *)
Definition reflectXY (mat : Matrix4.t F) : Matrix4.t F :=
  let reflectionMatrix := Matrix4.identity in
  let reflectionMatrix := Matrix4.set 2 2 #(-1) reflectionMatrix in
  Matrix4.mul reflectionMatrix mat.

(** Reflects the object across the XZ plane. *)
Definition reflectXZ (mat : Matrix4.t F) : Matrix4.t F :=
  let reflectionMatrix := Matrix4.identity in
  let reflectionMatrix := Matrix4.set 1 1 #(-1) reflectionMatrix in
  Matrix4.mul reflectionMatrix mat.

(** Reflects the object across the YZ plane. *)
Definition reflectYZ (mat : Matrix4.t F) : Matrix4.t F :=
  let reflectionMatrix := Matrix4.identity in
  let reflectionMatrix := Matrix4.set 0 0 #(-1) reflectionMatrix in
  Matrix4.mul reflectionMatrix mat.

Definition scale (mat : Matrix4.t F) (magnitude : Vector3.t F) : Matrix4.t F :=
  let scaleMatrix := Matrix4.identity in
  let scaleMatrix := Matrix4.set 0 0 (Vector3.x magnitude) scaleMatrix in
  let scaleMatrix := Matrix4.set 1 1 (Vector3.y magnitude) scaleMatrix in
  let scaleMatrix := Matrix4.set 2 2 (Vector3.z magnitude) scaleMatrix in
  Matrix4.mul scaleMatrix mat.

(** Returns an orthgraphic projection matrix with the specified
    parameters. *)
Definition orthographic (top right near far : F) : Matrix4.t F :=
  let left := - right in
  let bottom := - top in
  let ortho := Matrix4.identity in
  let ortho := Matrix4.set 0 0 (#2 / (right - left)) ortho in
  let ortho := Matrix4.set 1 1 (#2 / (top - bottom)) ortho in
  let ortho := Matrix4.set 2 2 (- #2 / (far - near)) ortho in
  let ortho := Matrix4.set 0 3 (- (right + left) / (right - left)) ortho in
  let ortho := Matrix4.set 1 3 (- (top + bottom) / (top - bottom)) ortho in
  let ortho := Matrix4.set 2 3 (- (far + near) / (far - near)) ortho in
  ortho.

(** Returns a LookAt matrix. *)
Definition lookAt (position target up : Vector3.t F) : Matrix4.t F :=
  let direction := Vector3.normalized (Vector3.sub position target) in
  let cameraRight :=
    Vector3.normalized (Vector3.cross (Vector3.normalized up) direction) in
  let cameraUp := Vector3.cross direction cameraRight in
  let rotational := Matrix4.mk
    [ Vector3.x cameraRight; Vector3.y cameraRight; Vector3.z cameraRight; #0;
      Vector3.x cameraUp; Vector3.y cameraUp; Vector3.z cameraUp; #0;
      Vector3.x direction; Vector3.y direction; Vector3.z direction; #0;
      #0; #0; #0; #1 ] in
  let positional := Matrix4.mk
    [ #1; #0; #0; - Vector3.x position;
      #0; #1; #0; - Vector3.y position;
      #0; #0; #1; - Vector3.z position;
      #0; #0; #0; #1 ] in
  Matrix4.mul rotational positional.

(** Calculate barycentric coordinates (u, v, w) for point p with respect
    to triangle (a, b, c). *)
Definition barycentric (p a b c : Vector3.t F) : Vector3.t F :=
  let v0 := Vector3.sub b a in
  let v1 := Vector3.sub c a in
  let v2 := Vector3.sub p a in
  let d00 := Vector3.dot v0 v0 in
  let d01 := Vector3.dot v0 v1 in
  let d11 := Vector3.dot v1 v1 in
  let d20 := Vector3.dot v2 v0 in
  let d21 := Vector3.dot v2 v1 in
  let denom := d00 * d11 - d01 * d01 in
  let v := (d11 * d20 - d01 * d21) / denom in
  let w := (d00 * d21 - d01 * d20) / denom in
  let u := #1 - v - w in
  Vector3.mk u v w.
End Geometry.
End Util.

(** ** [Renderer.cpp]: class [GL::Renderer] *)

(** The [System::Drawing::Color] values the renderer uses. *)
Inductive Color : Type := White | Black | Yellow | LightBlue | Blue.

#[export] Instance Color_eq_dec : EqDecision Color.
Proof. solve_decision. Defined.

Module Graphics.
(** Modelled from the spec: the pixel sink ([System::Drawing::Graphics]),
    an external collaborator.  The surface is the finite map from the
    pixels painted so far to their colour. *)
Abbreviation t := (gmap (Z * Z) Color).

(** Modelled from the spec: [FillRectangle(brush, x, y, width, height)]
    paints every pixel [(i, j)] with [x <= i < x + width] and
    [y <= j < y + height]. *)
Definition FillRectangle (br : Color) (x y width height : Z) (g : t) : t :=
  foldr (fun p acc => <[p := br]> acc) g
        (i ← seqZ x width; j ← seqZ y height; [(i, j)]).
End Graphics.

Module Polygon.
Section Ops.
Context {F : Type} `{Scalar F}.

(** Modelled from the spec: the class [Polygon] of the missing header
    [Polygon.h], the vertices of a triangle in object space and its
    normals. *)
Record t : Type := mk {
  vertices : list (Vector4.t F);
  normals : list (Vector3.t F)
}.

(** Modelled from the spec: [getTransformed] of the missing [Polygon.h]
    returns a new polygon whose vertices are each left-multiplied by the
    matrix, the normals unchanged. *)
Definition getTransformed (pol : t) (m : Matrix4.t F) : t :=
  mk (Matrix4.mulv m <$> vertices pol) (normals pol).
End Ops.
Arguments t : clear implicits.
End Polygon.

Module Renderer.
Section Core.
Context {F : Type} `{Scalar F}.
Local Open Scope float_scope.

(** The fields of [Renderer] that drawing reads or writes.  [zbuffer]
    is the managed array [array<float, 2>]: a cell that is not in the
    map lies outside the array, and reading or writing it raises
    [IndexOutOfRangeException]. *)
Record t : Type := mk {
    graphics : Graphics.t;
    wfBrush : Color;
    zbuffer : gmap (Z * Z) F;
    viewportX : Z;
    viewportY : Z
  }.

Definition setViewport (width height : Z) (r : t) : t :=
  mk (graphics r) (wfBrush r) (zbuffer r) width height.

(** [gcnew array<float, 2>(width, height)]: zero-initialised cells. *)
Definition new_array (width height : Z) : gmap (Z * Z) F :=
  list_to_map (x ← seqZ 0 width; y ← seqZ 0 height; [((x, y), #0)]).

(** The constructor [Renderer(im, viewportWidth, viewportHeight)]. *)
Definition Renderer (im : Graphics.t) (viewportWidth viewportHeight : Z) : t :=
  setViewport viewportWidth viewportHeight
    (mk im Black (new_array viewportWidth viewportHeight) 0 0).

Definition clearZBuffer `{HasInfinity F} (r : t) : t :=
  mk (graphics r) (wfBrush r) ((fun _ => - INFINITY) <$> zbuffer r)
     (viewportX r) (viewportY r).

(** A call [drawPoint(x, y, z, br)]; [None] is an exception raised by
    the indexing of [zbuffer]. *)
Definition drawPoint (x y : Z) (z : F) (br : Color) (r : t) : option t :=
  if (0 <? x)%Z && (x <? viewportX r)%Z && (0 <? y)%Z && (y <? viewportY r)%Z then
    stored ← zbuffer r !! (x, y);
    if #1 / z >? stored then
      Some (mk (Graphics.FillRectangle br x y 2 2 (graphics r)) (wfBrush r)
               (<[(x, y) := #1 / z]> (zbuffer r)) (viewportX r) (viewportY r))
    else Some r
  else Some r.

(** The arguments [(x, y, z)] of one call of [drawPoint]. *)
Definition call : Type := Z * Z * F.

(** A sequence of [drawPoint] calls with one brush, in order, stopping
    at the first exception. *)
Fixpoint drawPoints (br : Color) (cs : list call) (r : t) : option t :=
  match cs with
  | [] => Some r
  | (x, y, z) :: cs' => r' ← drawPoint x y z br r; drawPoints br cs' r'
  end.

(** Returns a signum of x. *)
Definition sign (x : Z) : Z := (Z.b2z (0 <? x) - Z.b2z (x <? 0))%Z.

(** The inner loop [while (e >= 0)] of [drawLine] on the [int] variables
    [x], [y] and [e].  With [0 < dx] it exits within [2 ^ 31] rounds
    ([turn_exits] below). *)
Definition turn (isSwap : bool) (sx sy dx : Z) (x y e : Z) : Z * Z * Z :=
  iterate (fun s : Z * Z * Z => (0 <=? s.2)%Z)
          (fun s : Z * Z * Z =>
             ((if isSwap then wrap (s.1.1 + sx) else s.1.1),
              (if isSwap then s.1.2 else wrap (s.1.2 + sy)),
              wrap (s.2 - wrap (2 * dx)))%Z)
          32 (x, y, e).

(** The loop [for (int i = 1; i <= dx; i++, e += 2 * dy)] of
    [drawLine], [n] rounds to go; it yields the [drawPoint] calls it
    makes.  Its control flow never reads the renderer. *)
Fixpoint line_loop (from to : Vector3.t F) (isSwap : bool)
    (sx sy dx dy : Z) (n : nat) (x y e : Z) : list call :=
  match n with
  | O => []
  | S n' =>
      let t :=
        Vector3.len (Vector3.sub (Vector3.mk #x #y #0)
                       (Vector3.mk (Vector3.x from) (Vector3.y from) #0))
        / Vector3.len (Vector3.sub (Vector3.mk (Vector3.x to) (Vector3.y to) #0)
                         (Vector3.mk (Vector3.x from) (Vector3.y from) #0)) in
      let z := (#1 - t) * Vector3.z from + t * Vector3.z to in
      let '(x1, y1, e1) := turn isSwap sx sy dx x y e in
      let x2 := (if isSwap then x1 else wrap (x1 + sx))%Z in
      let y2 := (if isSwap then wrap (y1 + sy) else y1)%Z in
      (x, y, z)
        :: line_loop from to isSwap sx sy dx dy n' x2 y2 (wrap (e1 + wrap (2 * dy)))%Z
  end.

(** The number of rounds of the loop of [drawLine]: the larger of the two
    deltas.  [x] and [y] are [int]: the coordinates of [from] truncated.
    [abs] is applied to the [float] difference and its result truncated
    to [int]. *)
Definition drawLine_rounds (from to : Vector3.t F) : Z :=
  let x := to_int (Vector3.x from) in
  let y := to_int (Vector3.y from) in
  let dx := to_int (fabs (Vector3.x to - #x)) in
  let dy := to_int (fabs (Vector3.y to - #y)) in
  let isSwap := (dx <? dy)%Z in
  if isSwap then dy else dx.

(** The [drawPoint] calls of [drawLine(from, to)], in order.  [sign]
    takes an [int], so its argument is truncated first. *)
Definition drawLine_calls (from to : Vector3.t F) : list call :=
  let x := to_int (Vector3.x from) in
  let y := to_int (Vector3.y from) in
  let dx := to_int (fabs (Vector3.x to - #x)) in
  let dy := to_int (fabs (Vector3.y to - #y)) in
  let sx := sign (to_int (Vector3.x to - #x)) in
  let sy := sign (to_int (Vector3.y to - #y)) in
  let isSwap := (dx <? dy)%Z in
  let '(dx, dy) := if isSwap then (dy, dx) else (dx, dy) in
  let e := wrap (wrap (2 * dy) - dx)%Z in
  line_loop from to isSwap sx sy dx dy (Z.to_nat dx) x y e.

(** Whether the loop of [drawLine] exits: with [dx = INT_MAX] the test
    [i <= dx] holds for every [int], [i++] overflows and the loop goes on
    for ever; [drawLine_calls] is then the calls made up to the overflow. *)
Definition drawLine_returns (from to : Vector3.t F) : bool :=
  (drawLine_rounds from to <? INT_MAX)%Z.

(** Draws a line using the Bresenham's algorithm with Z-testing. *)
Definition drawLine (from to : Vector3.t F) (r : t) : option t :=
  if drawLine_returns from to
  then drawPoints (wfBrush r) (drawLine_calls from to) r
  else None.

(** The loop [for (int j = A.x; j <= B.x; j++)] of [fillPolygon] from
    [j = j0]: the value of [j] when the loop stops.  It stops when its
    test fails, or at [INT_MAX + 1], where [j++] overflows. *)
Definition scan_exit (j0 : Z) (Bx : F) : Z :=
  iterate (fun j : Z => (#j <=? Bx) && (j <=? INT_MAX)%Z) Z.succ 32 j0.

(** The calls the loop makes, one for each [j] from [j0] up to where it
    stops. *)
Definition scan (j0 : Z) (Bx : F) (body : Z -> call) : list call :=
  body <$> seqZ j0 (scan_exit j0 Bx - j0).

(** Whether the loop exits: its test fails at an [int].  When the test
    still holds at [INT_MAX] the increment overflows, the test holds
    again from [INT_MIN] on, and the loop goes on for ever. *)
Definition scan_returns (j0 : Z) (Bx : F) : bool :=
  (scan_exit j0 Bx <=? INT_MAX)%Z && negb (#(scan_exit j0 Bx) <=? Bx).

(** The ends of the scanline at row [i] of [fillPolygon]: [A.x] truncated
    to [int], where the loop over [j] starts, and [B.x], its bound.
    [first], [second], [third] are the sorted copies. *)
Definition span (first second third : Vector3.t F) (totalHeight i : Z) : Z * F :=
  let secondHalf :=
    (#i >? Vector3.y second - Vector3.y first)
    || (Vector3.y second == Vector3.y first) in
  let segmentHeight :=
    to_int (if secondHalf then Vector3.y third - Vector3.y second
            else Vector3.y second - Vector3.y first) in
  let alpha := #i / #totalHeight in
  let beta :=
    (#i - (if secondHalf then Vector3.y second - Vector3.y first else #0))
    / #segmentHeight in
  let A := Vector3.add first (Vector3.scale (Vector3.sub third first) alpha) in
  let B :=
    if secondHalf
    then Vector3.add second (Vector3.scale (Vector3.sub third second) beta)
    else Vector3.add first (Vector3.scale (Vector3.sub second first) beta) in
  let '(A, B) := if Vector3.x A >? Vector3.x B then (B, A) else (A, B) in
  (to_int (Vector3.x A), Vector3.x B).

(** The body of the scanline loop of [fillPolygon] at row [i]:
    [first], [second], [third] are the sorted copies and [_first],
    [_second], [_third] the arguments. *)
Definition scanline (_first _second _third first second third zs : Vector3.t F)
    (totalHeight i : Z) : list call :=
  let '(j0, Bx) := span first second third totalHeight i in
  scan j0 Bx
    (fun j =>
       let coordinates :=
         Util.barycentric (Vector3.mk #j (Vector3.y first + #i) #0)
                          _first _second _third in
       let z := Vector3.dot coordinates zs in
       (j, to_int (Vector3.y first + #i), z)).

(** The y-sorted copies [(first, second, third)] of the arguments. *)
Definition sort_vertices (_first _second _third : Vector3.t F)
  : Vector3.t F * Vector3.t F * Vector3.t F :=
  let first := _first in
  let second := _second in
  let third := _third in
  let '(first, second) :=
    if Vector3.y first >? Vector3.y second then (second, first) else (first, second) in
  let '(first, third) :=
    if Vector3.y first >? Vector3.y third then (third, first) else (first, third) in
  let '(second, third) :=
    if Vector3.y second >? Vector3.y third then (third, second) else (second, third) in
  (first, second, third).

(** [int totalHeight = third.y - first.y] on the sorted copies. *)
Definition totalHeight (_first _second _third : Vector3.t F) : Z :=
  let '(first, second, third) := sort_vertices _first _second _third in
  to_int (Vector3.y third - Vector3.y first).

(** The test that makes [fillPolygon] return at once. *)
Definition deformed (_first _second _third : Vector3.t F) : bool :=
  (Vector3.y _first == Vector3.y _second) && (Vector3.y _first == Vector3.y _third).

(** The scanlines [i] that [fillPolygon] visits, in order, each with
    the [drawPoint] calls made on it.  The control flow of [fillPolygon]
    never reads the renderer, so its calls are collected first and run in
    order by [fillPolygon] below. *)
Definition fillPolygon_rows (_first _second _third : Vector3.t F)
  : list (Z * list call) :=
  if deformed _first _second _third then []
  else
    let '(first, second, third) := sort_vertices _first _second _third in
    let zs := Vector3.mk (Vector3.z first) (Vector3.z second) (Vector3.z third) in
    let totalHeight := to_int (Vector3.y third - Vector3.y first) in
    (fun i => (i, scanline _first _second _third first second third zs totalHeight i))
      <$> seqZ 0 totalHeight.

(** The [drawPoint] calls of [fillPolygon], in order, when it gets through
    its loops ([fillPolygon_returns] below); when it does not, the calls
    up to the scanline whose loop never exits are made, and more after
    them on that scanline. *)
Definition fillPolygon_calls (_first _second _third : Vector3.t F) : list call :=
  mjoin (snd <$> fillPolygon_rows _first _second _third).

(** Whether [fillPolygon] gets through its loops: the loop over [j] exits
    on every scanline. *)
Definition fillPolygon_returns (_first _second _third : Vector3.t F) : bool :=
  if deformed _first _second _third then true
  else
    let '(first, second, third) := sort_vertices _first _second _third in
    let totalHeight := to_int (Vector3.y third - Vector3.y first) in
    forallb (fun i => let '(j0, Bx) := span first second third totalHeight i in
                      scan_returns j0 Bx)
            (seqZ 0 totalHeight).

Definition fillPolygon (_first _second _third normal : Vector3.t F)
    (br : Color) (r : t) : option t :=
  if fillPolygon_returns _first _second _third
  then drawPoints br (fillPolygon_calls _first _second _third) r
  else None.

Definition getViewportAspect (r : t) : F :=
  #(viewportX r) / #(viewportY r).

(** Remaps the coordinates from [-1, 1] to the [0, viewport] space. *)
Definition NDCtoViewport (r : t) (vertex : Vector3.t F) : Vector3.t F :=
  Vector3.mk ((#1 + Vector3.x vertex) * #(viewportX r) / #2)
             ((#1 - Vector3.y vertex) * #(viewportY r) / #2)
             (Vector3.z vertex).

Definition getZ (x y : F) (p normal : Vector3.t F) : F :=
  Vector3.z p
  - (Vector3.x normal * (x - Vector3.x p) + Vector3.y normal * (y - Vector3.y p))
    / Vector3.z normal.

Definition max (a b : F) : F := if a >? b then a else b.

Definition min (a b : F) : F := if a <? b then a else b.

(** The [drawPoint] calls of [drawPolygon], in order. *)
Definition drawPolygon_calls (first second third : Vector3.t F) : list call :=
  drawLine_calls first second ++ drawLine_calls second third
  ++ drawLine_calls third first.

Definition drawPolygon (first second third : Vector3.t F) (r : t) : option t :=
  r ← drawLine first second r;
  r ← drawLine second third r;
  drawLine third first r.

Definition drawAxes (transformMatrix : Matrix4.t F) (grid : bool) (r : t)
  : option t :=
  let origin := NDCtoViewport r (Vector4.fromHomogeneous
    (Matrix4.mulv transformMatrix (Vector4.mk #0 #0 #0 #1))) in
  let x := NDCtoViewport r (Vector4.fromHomogeneous
    (Matrix4.mulv transformMatrix (Vector4.mk #50 #0 #0 #1))) in
  let y := NDCtoViewport r (Vector4.fromHomogeneous
    (Matrix4.mulv transformMatrix (Vector4.mk #0 #50 #0 #1))) in
  let z := NDCtoViewport r (Vector4.fromHomogeneous
    (Matrix4.mulv transformMatrix (Vector4.mk #0 #0 #50 #1))) in
  r ← drawLine origin x r;
  r ← drawLine origin y r;
  drawLine origin z r.

(** [ztofile] reads the middle third of the depth buffer and writes it to
    the file [log.txt].  The result is what it writes, row by row: [None]
    for a cell printed blank (the cell equals [INFINITY]), the cell's value
    otherwise; the outer [None] is an exception raised by the indexing of
    [zbuffer].  The renderer is left as it is.  The products
    [2 * viewportX] and [2 * viewportY] are those of a viewport with sides
    below [2 ^ 30], for which they do not overflow. *)
Definition ztofile `{HasInfinity F} (r : t) : option (list (list (option F))) :=
  mapM (fun x =>
          mapM (fun y =>
                  v ← zbuffer r !! (x, y);
                  Some (if v == INFINITY then None else Some v))
               (seqZ (Z.quot (viewportY r) 3)
                     (Z.quot (2 * viewportY r) 3 - Z.quot (viewportY r) 3)))
       (seqZ (Z.quot (viewportX r) 3)
             (Z.quot (2 * viewportX r) 3 - Z.quot (viewportX r) 3)).

(** One round of the loop of [renderObject] on the polygon [pol];
    [surfaceBrush] is the colour of the renderer's surface brush and [i]
    the loop's counter.  [None] is an index outside [vertices] or
    [normals], or a drawing operation that does not return. *)
Definition renderPolygon (transformMatrix : Matrix4.t F) (wireframe solid : bool)
    (pol : Polygon.t F) (st : t * Color * Z) : option (t * Color * Z) :=
  let '(r, surfaceBrush, i) := st in
  let transformed := Polygon.getTransformed pol transformMatrix in
  v0 ← Polygon.vertices transformed !! 0%nat;
  v1 ← Polygon.vertices transformed !! 1%nat;
  v2 ← Polygon.vertices transformed !! 2%nat;
  let first := NDCtoViewport r (Vector4.fromHomogeneous v0) in
  let second := NDCtoViewport r (Vector4.fromHomogeneous v1) in
  let third := NDCtoViewport r (Vector4.fromHomogeneous v2) in
  r ← (if wireframe then drawPolygon first second third r else Some r);
  if solid then
    let surfaceBrush := if negb (Z.rem i 2 =? 0)%Z then Yellow else Blue in
    let i := (i + 1)%Z in
    normal ← Polygon.normals pol !! 0%nat;
    r ← fillPolygon first second third normal surfaceBrush r;
    Some (r, surfaceBrush, i)
  else Some (r, surfaceBrush, i).

(** The polygons of a [SceneObject], rendered in order from the counter
    [i = 0]. *)
Fixpoint renderPolygons (transformMatrix : Matrix4.t F) (wireframe solid : bool)
    (polygons : list (Polygon.t F)) (st : t * Color * Z) : option (t * Color * Z) :=
  match polygons with
  | [] => Some st
  | pol :: rest =>
      st ← renderPolygon transformMatrix wireframe solid pol st;
      renderPolygons transformMatrix wireframe solid rest st
  end.

(** [renderObject]: the renderer and the colour of its surface brush
    after the call, with what [ztofile] wrote. *)
Definition renderObject `{HasInfinity F} (polygons : list (Polygon.t F))
    (transformMatrix : Matrix4.t F) (wireframe solid : bool)
    (st : t * Color) : option (t * Color * list (list (option F))) :=
  let '(r, surfaceBrush) := st in
  '(r, surfaceBrush, _) ←
    renderPolygons transformMatrix wireframe solid polygons (r, surfaceBrush, 0%Z);
  dump ← ztofile r;
  Some (r, surfaceBrush, dump).
End Core.
Arguments t : clear implicits.
Arguments call : clear implicits.
End Renderer.

(** ** Vocabulary of the statements *)

(** The comparison [>] on scalars is a strict order: both instances
    satisfy this, NaN being greater than nothing and nothing greater than
    it. *)
Class StrictOrderScalar (F : Type) `{Scalar F} : Prop := {
  greater_asym : forall a b : F, fgtb a b = true -> fgtb b a = false;
  greater_trans : forall a b c : F,
    fgtb a b = true -> fgtb b c = true -> fgtb a c = true
}.

Section Vocabulary.
Context {F : Type} `{Scalar F}.
Local Open Scope float_scope.

(** The homogeneous point [(v, 1)]. *)
Definition point (v : Vector3.t F) : Vector4.t F :=
  Vector4.mk (Vector3.x v) (Vector3.y v) (Vector3.z v) #1.

(** The rotation block as the specification words it: the identity with,
    for the axis pair [(a, b)], the entries [(a,a) = c], [(b,a) = -s],
    [(a,b) = s], [(b,b) = c]. *)
Definition rotation_block (a b : nat) (c s : F) : Matrix4.t F :=
  Matrix4.mk
    (i ← [0; 1; 2; 3]%nat; j ← [0; 1; 2; 3]%nat;
     [ if (i =? a)%nat && (j =? a)%nat then c
       else if (i =? b)%nat && (j =? a)%nat then - s
       else if (i =? a)%nat && (j =? b)%nat then s
       else if (i =? b)%nat && (j =? b)%nat then c
       else if (i =? j)%nat then #1 else #0 ]).

(** The same blocks written out as row-major matrices. *)
Definition block_X (c s : F) : Matrix4.t F :=
  Matrix4.mk [ #1; #0; #0; #0;
               #0; c; s; #0;
               #0; - s; c; #0;
               #0; #0; #0; #1 ].

Definition block_Y (c s : F) : Matrix4.t F :=
  Matrix4.mk [ c; #0; s; #0;
               #0; #1; #0; #0;
               - s; #0; c; #0;
               #0; #0; #0; #1 ].

Definition block_Z_as_worded (c s : F) : Matrix4.t F :=
  Matrix4.mk [ c; s; #0; #0;
               - s; c; #0; #0;
               #0; #0; #1; #0;
               #0; #0; #0; #1 ].

(** The block [rotateZ] builds: [(0,1) = -s] and [(1,0) = s]. *)
Definition block_Z (c s : F) : Matrix4.t F :=
  Matrix4.mk [ c; - s; #0; #0;
               s; c; #0; #0;
               #0; #0; #1; #0;
               #0; #0; #0; #1 ].

(** The denominator [d00 * d11 - d01 * d01] of [barycentric]. *)
Definition denom (a b c : Vector3.t F) : F :=
  let v0 := Vector3.sub b a in
  let v1 := Vector3.sub c a in
  Vector3.dot v0 v0 * Vector3.dot v1 v1 - Vector3.dot v0 v1 * Vector3.dot v0 v1.

(** [u*a + v*b + w*c] for the weights [k = (u, v, w)]. *)
Definition combine (k a b c : Vector3.t F) : Vector3.t F :=
  Vector3.add (Vector3.add (Vector3.scale a (Vector3.x k))
                           (Vector3.scale b (Vector3.y k)))
              (Vector3.scale c (Vector3.z k)).

Definition centroid (a b c : Vector3.t F) : Vector3.t F :=
  Vector3.mk ((Vector3.x a + Vector3.x b + Vector3.x c) / #3)
             ((Vector3.y a + Vector3.y b + Vector3.y c) / #3)
             ((Vector3.z a + Vector3.z b + Vector3.z c) / #3).

(** The vertex with its depth dropped. *)
Definition flat (v : Vector3.t F) : Vector3.t F :=
  Vector3.mk (Vector3.x v) (Vector3.y v) #0.

(** Barycentric weights over the x and y components only. *)
Definition barycentric2D (p a b c : Vector3.t F) : Vector3.t F :=
  Util.barycentric (flat p) (flat a) (flat b) (flat c).

(** The z-buffer covers every cell that passes the bounds test of
    [drawPoint], as it does after the constructor. *)
Definition covers (r : Renderer.t F) : Prop :=
  forall x y : Z,
    (0 < x < Renderer.viewportX r)%Z -> (0 < y < Renderer.viewportY r)%Z ->
    is_Some (Renderer.zbuffer r !! (x, y)).

(** The depth test on the cell [p] with the candidate [k]. *)
Definition depth_update (p : Z * Z) (k : F) (zb : gmap (Z * Z) F)
  : option (gmap (Z * Z) F) :=
  stored ← zb !! p;
  Some (if k >? stored then <[p := k]> zb else zb).

(** What one [drawPoint] call does to the z-buffer of a renderer whose
    viewport is [width] x [height]. *)
Definition depth_step (width height : Z) (c : Renderer.call F)
    (zb : gmap (Z * Z) F) : option (gmap (Z * Z) F) :=
  let '(x, y, z) := c in
  if (0 <? x)%Z && (x <? width)%Z && (0 <? y)%Z && (y <? height)%Z
  then depth_update (x, y) (#1 / z) zb
  else Some zb.

(** Two calls never meet on one pixel with reciprocal depths that are not
    strictly ordered one way or the other. *)
Definition apart (ca cb : Renderer.call F) : bool :=
  let '(xa, ya, za) := ca in
  let '(xb, yb, zb) := cb in
  if (xa =? xb)%Z && (ya =? yb)%Z
  then (#1 / za >? #1 / zb) || (#1 / zb >? #1 / za)
  else true.

(** The depths of two call sequences are distinct at every pixel they
    share. *)
Definition distinct_depths (csa csb : list (Renderer.call F)) : bool :=
  forallb (fun ca => forallb (apart ca) csb) csa.

(** The reciprocal depths that the calls [cs] submit to the cell [p] of a
    [width] x [height] viewport, in order: the candidates of those calls
    at [p] that pass the bounds test of [drawPoint]. *)
Definition candidates (width height : Z) (p : Z * Z)
    (cs : list (Renderer.call F)) : list F :=
  omap (fun c : Renderer.call F =>
          let '(x, y, z) := c in
          if bool_decide ((x, y) = p)
             && ((0 <? x)%Z && (x <? width)%Z && (0 <? y)%Z && (y <? height)%Z)
          then Some (#1 / z) else None) cs.

(** The z-buffer holds every cell of the viewport, the first row and
    column included, as it does after the constructor. *)
Definition allocated (r : Renderer.t F) : Prop :=
  forall x y : Z,
    (0 <= x < Renderer.viewportX r)%Z -> (0 <= y < Renderer.viewportY r)%Z ->
    is_Some (Renderer.zbuffer r !! (x, y)).

(** A matrix with its 16 entries. *)
Definition well_formed (m : Matrix4.t F) : Prop :=
  length (Matrix4.data m) = 16%nat.

(** The pixel of a call. *)
Definition pixel (c : Renderer.call F) : Z * Z := c.1.

(** A polygon [renderObject] can index: three vertices at least and, when
    it is filled, one normal at least. *)
Definition indexable (solid : bool) (pol : Polygon.t F) : Prop :=
  (3 <= length (Polygon.vertices pol))%nat
  /\ (solid = true -> (1 <= length (Polygon.normals pol))%nat).

(** The loops of the three lines of [drawPolygon] exit. *)
Definition drawPolygon_returns (first second third : Vector3.t F) : bool :=
  Renderer.drawLine_returns first second
  && Renderer.drawLine_returns second third
  && Renderer.drawLine_returns third first.

(** The point [(x, y, z, 1)] as [drawAxes] places it in the viewport. *)
Definition axis_point (r : Renderer.t F) (m : Matrix4.t F) (x y z : Z)
  : Vector3.t F :=
  Renderer.NDCtoViewport r
    (Vector4.fromHomogeneous (Matrix4.mulv m (Vector4.mk #x #y #z #1))).

(** The loops of the three lines of [drawAxes] exit. *)
Definition drawAxes_returns (r : Renderer.t F) (m : Matrix4.t F) : bool :=
  Renderer.drawLine_returns (axis_point r m 0 0 0) (axis_point r m 50 0 0)
  && Renderer.drawLine_returns (axis_point r m 0 0 0) (axis_point r m 0 50 0)
  && Renderer.drawLine_returns (axis_point r m 0 0 0) (axis_point r m 0 0 50).

(** The vertex [k] of the polygon [pol] as [renderObject] places it in the
    viewport. *)
Definition corner (r : Renderer.t F) (m : Matrix4.t F) (pol : Polygon.t F)
    (k : nat) : Vector3.t F :=
  Renderer.NDCtoViewport r
    (Vector4.fromHomogeneous
       (default (Vector4.mk #0 #0 #0 #0)
                (Polygon.vertices (Polygon.getTransformed pol m) !! k))).

(** The loops that [renderObject] runs on the polygon [pol] exit: those of
    its outline when [wireframe] is set and those of its fill when [solid]
    is set. *)
Definition loops_exit (r : Renderer.t F) (m : Matrix4.t F)
    (wireframe solid : bool) (pol : Polygon.t F) : bool :=
  (negb wireframe
   || drawPolygon_returns (corner r m pol 0) (corner r m pol 1) (corner r m pol 2))
  && (negb solid
      || Renderer.fillPolygon_returns (corner r m pol 0) (corner r m pol 1)
           (corner r m pol 2)).

(** A pixel whose coordinates have absolute value below [2 ^ 29]: between
    two of them the line rasterizer never overflows an [int]. *)
Definition near_origin (p : Z * Z) : Prop :=
  (- 2 ^ 29 < p.1 < 2 ^ 29)%Z /\ (- 2 ^ 29 < p.2 < 2 ^ 29)%Z.

(** The normal [renderObject] passes to [fillPolygon]. *)
Definition normal_of (pol : Polygon.t F) : Vector3.t F :=
  default (Vector3.mk #0 #0 #0) (Polygon.normals pol !! 0%nat).

(** The colour [renderObject] fills the polygon at place [i] with. *)
Definition fill_colour (i : Z) : Color := if Z.even i then Blue else Yellow.

(** One step of the line rasterizer from the pixel [p] to the pixel [p']:
    one unit [sx] (or [sy], when the deltas are swapped) along the
    dominant axis, and no step or one unit along the other axis. *)
Definition bresenham_step (isSwap : bool) (sx sy : Z) (p p' : Z * Z) : Prop :=
  if isSwap
  then p'.2 = (p.2 + sy)%Z /\ (p'.1 = p.1 \/ p'.1 = (p.1 + sx)%Z)
  else p'.1 = (p.1 + sx)%Z /\ (p'.2 = p.2 \/ p'.2 = (p.2 + sy)%Z).

Fixpoint depth_steps (width height : Z) (cs : list (Renderer.call F))
    (zb : gmap (Z * Z) F) : option (gmap (Z * Z) F) :=
  match cs with
  | [] => Some zb
  | c :: cs' => zb' ← depth_step width height c zb; depth_steps width height cs' zb'
  end.
End Vocabulary.

(** [p] lies in the plane through [a], [b], [c] (exact arithmetic). *)
Definition coplanar (p a b c : Vector3.t R) : Prop :=
  Vector3.dot (Vector3.sub p a)
              (Vector3.cross (Vector3.sub b a) (Vector3.sub c a)) = 0%R.

(** The squared length of the x, y, z part of a homogeneous vector. *)
Definition norm2 (v : Vector4.t R) : R :=
  (Vector4.x v * Vector4.x v + Vector4.y v * Vector4.y v
   + Vector4.z v * Vector4.z v)%R.

(** Concrete binary32 data used by the examples. *)
Module Samples.
Import Binary32.

Definition v3 (a b c : Z) : Vector3.t float :=
  Vector3.mk (of_Z a) (of_Z b) (of_Z c).

(** A 6x6 renderer on an empty surface, depth buffer cleared. *)
Definition fresh : Renderer.t float :=
  Renderer.clearZBuffer (Renderer.Renderer ∅ 6 6).

(** A near triangle (depth 1) and a far triangle (depth 2) that overlap. *)
Definition nearA : Vector3.t float * Vector3.t float * Vector3.t float :=
  (v3 1 1 1, v3 3 1 1, v3 1 3 1).

Definition farB : Vector3.t float * Vector3.t float * Vector3.t float :=
  (v3 1 1 2, v3 5 1 2, v3 1 5 2).

(** [fillPolygon] on a triple of vertices, with the normal (0, 0, 1). *)
Definition fill (tri : Vector3.t float * Vector3.t float * Vector3.t float)
    (br : Color) (r : Renderer.t float) : option (Renderer.t float) :=
  let '(a, b, c) := tri in Renderer.fillPolygon a b c (v3 0 0 1) br r.

Definition calls_of (tri : Vector3.t float * Vector3.t float * Vector3.t float)
  : list (Renderer.call float) :=
  let '(a, b, c) := tri in Renderer.fillPolygon_calls a b c.

(** A triangle in clip space, with one normal. *)
Definition sample_polygon : Polygon.t float :=
  Polygon.mk [Vector4.mk (of_Z 0) (of_Z 0) (of_Z 1) (of_Z 1);
              Vector4.mk (of_Z 1) (of_Z 0) (of_Z 1) (of_Z 2);
              Vector4.mk (of_Z 0) (of_Z 1) (of_Z 1) (of_Z 2)]
             [v3 0 0 1].
End Samples.

(** Unfolds the embedding at the exact instance down to real arithmetic. *)
Ltac to_reals :=
  cbv [Util.barycentric Util.lookAt denom combine centroid coplanar flat
       barycentric2D point
       Matrix4.mulv Matrix4.row_vec Matrix4.get Matrix4.mul Matrix4.row_col
       Matrix4.data Vector4.x Vector4.y Vector4.z Vector4.w
       Vector3.add Vector3.sub Vector3.scale Vector3.dot Vector3.cross
       Vector3.len Vector3.normalized Vector3.x Vector3.y Vector3.z
       fadd fsub fmul fdiv fopp fsqrt of_int Exact.scalar] in *.

(** Splits a well-formed matrix into its 16 entries. *)
Ltac matrix_entries M H :=
  destruct M as [l]; unfold well_formed in H; cbn [Matrix4.data] in H;
  do 16 (destruct l as [|? l]; [discriminate H|]);
  destruct l; [clear H|discriminate H].

(** Unfolds the transform builders at the exact instance. *)
Ltac builders_to_reals :=
  cbv [Util.translate Util.scale Util.reflectXY Util.reflectXZ Util.reflectYZ
       Util.rotateX Util.rotateY Util.rotateZ Util.degToRad Util.orthographic
       Util.perspective Util.lookAt
       Matrix4.mulv Matrix4.row_vec Matrix4.get Matrix4.mul Matrix4.set
       Matrix4.identity Matrix4.row_col Matrix4.data
       Vector4.fromHomogeneous Vector4.x Vector4.y Vector4.z Vector4.w
       Vector3.add Vector3.sub Vector3.scale Vector3.dot Vector3.cross
       Vector3.len Vector3.normalized Vector3.x Vector3.y Vector3.z point
       fadd fsub fmul fdiv fopp fsqrt of_int fcos fsin ftan fPI
       Exact.scalar Exact.trig] in *;
  simpl in *.

(** Case analysis on every comparison of exponents and mantissas. *)
Ltac compare_cases :=
  repeat match goal with
         | |- context [Z.compare ?a ?b] => destruct (Z.compare_spec a b)
         | |- context [Pos.compare_cont Eq ?a ?b] =>
             change (Pos.compare_cont Eq a b) with (Pos.compare a b);
             destruct (Pos.compare_spec a b)
         end.

(** Linear arithmetic with the bounds of [int] unfolded. *)
Ltac int_lia := unfold INT_MIN, INT_MAX in *; lia.

(** * Properties *)

(** ** Machine integers and loops *)

Section MachineIntegers.

Lemma in_int_spec (z : Z) : in_int z = true <-> INT_MIN <= z <= INT_MAX.
Proof. unfold in_int. rewrite andb_true_iff, !Z.leb_le. tauto. Qed.

Lemma wrap_in_int (z : Z) : INT_MIN <= z <= INT_MAX -> wrap z = z.
Proof.
  unfold wrap, INT_MIN, INT_MAX. intros Hz.
  rewrite Z.mod_small by lia. lia.
Qed.

Lemma wrap_range (z : Z) : INT_MIN <= wrap z <= INT_MAX.
Proof.
  unfold wrap, INT_MIN, INT_MAX.
  pose proof (Z.mod_pos_bound (z - - 2 ^ 31) (2 ^ 32)). lia.
Qed.

Lemma wrap_above (z : Z) :
  INT_MAX < z <= INT_MAX + 2 ^ 32 -> wrap z = z - 2 ^ 32.
Proof.
  unfold wrap, INT_MIN, INT_MAX. intros Hz.
  replace (z - - 2 ^ 31) with ((z - 2 ^ 32 - - 2 ^ 31) + 1 * 2 ^ 32) by lia.
  rewrite Z.mod_add by lia. rewrite Z.mod_small by lia. lia.
Qed.

Lemma wrap_below (z : Z) :
  INT_MIN - 2 ^ 32 <= z < INT_MIN -> wrap z = z + 2 ^ 32.
Proof.
  unfold wrap, INT_MIN, INT_MAX. intros Hz.
  replace (z - - 2 ^ 31) with ((z + 2 ^ 32 - - 2 ^ 31) + (-1) * 2 ^ 32) by lia.
  rewrite Z.mod_add by lia. rewrite Z.mod_small by lia. lia.
Qed.

End MachineIntegers.

Section LoopLemmas.
Context {State : Type} (cond : State -> bool) (step : State -> State).

Lemma iterate_0 (s : State) :
  iterate cond step 0 s = if cond s then step s else s.
Proof. reflexivity. Qed.

Lemma iterate_S (n : nat) (s : State) :
  iterate cond step (S n) s
  = if cond (iterate cond step n s)
    then iterate cond step n (iterate cond step n s)
    else iterate cond step n s.
Proof. reflexivity. Qed.

Lemma iterate_stop (n : nat) (s : State) :
  cond s = false -> iterate cond step n s = s.
Proof.
  intros Hs. induction n as [|n IH]; [by rewrite iterate_0, Hs|].
  by rewrite iterate_S, IH, Hs.
Qed.

Lemma iterate_step (n : nat) (s : State) :
  cond s = true -> cond (step s) = false -> iterate cond step n s = step s.
Proof.
  intros Hs Hs'. induction n as [|n IH]; [by rewrite iterate_0, Hs|].
  by rewrite iterate_S, IH, Hs'.
Qed.

(** What holds at the start and is kept by every round holds where the
    loop stops. *)
Lemma iterate_ind (P : State -> Prop) (n : nat) (s : State) :
  P s -> (forall s', P s' -> cond s' = true -> P (step s')) ->
  P (iterate cond step n s).
Proof.
  intros Hs Hstep. revert s Hs.
  induction n as [|n IH]; intros s Hs.
  - rewrite iterate_0. destruct (cond s) eqn:Hc; [by apply Hstep|done].
  - rewrite iterate_S.
    destruct (cond (iterate cond step n s)); by repeat apply IH.
Qed.

(** A loop whose rounds decrease a measure that starts below [2 ^ n] and
    is not negative while the test holds exits within [2 ^ n] rounds: its
    test fails where [iterate] stops. *)
Lemma iterate_exits (Inv : State -> Prop) (m : State -> Z) (n : nat)
    (s : State) :
  (forall s', Inv s' -> cond s' = true ->
              Inv (step s') /\ m (step s') < m s' /\ 0 <= m s') ->
  Inv s -> m s < 2 ^ Z.of_nat n ->
  cond (iterate cond step n s) = false.
Proof.
  intros Hstep Hs Hm.
  assert (Hgen : forall n s, Inv s ->
             cond (iterate cond step n s) = false
             \/ (Inv (iterate cond step n s)
                 /\ m (iterate cond step n s) + 2 ^ Z.of_nat n <= m s)).
  { clear n s Hs Hm. induction n as [|n IH]; intros s Hs.
    - rewrite iterate_0. destruct (cond s) eqn:Hc; [|by left].
      destruct (Hstep s Hs Hc) as (Hinv & Hlt & _). right.
      change (2 ^ Z.of_nat 0) with 1. split; [done|lia].
    - rewrite iterate_S, Nat2Z.inj_succ, Z.pow_succ_r by lia.
      destruct (IH s Hs) as [Hexit|[Hinv Hle]]; [by rewrite Hexit; left|].
      destruct (cond (iterate cond step n s)) eqn:Hc; [|by left].
      destruct (IH _ Hinv) as [Hexit|[Hinv' Hle']]; [by left|].
      right. split; [done|lia]. }
  destruct (Hgen n s Hs) as [Hexit|[Hinv Hle]]; [done|].
  destruct (cond (iterate cond step n s)) eqn:Hc; [|done].
  destruct (Hstep _ Hinv Hc) as (_ & _ & Hpos). lia.
Qed.

End LoopLemmas.

(** ** The depth test of [drawPoint] *)

Section Surface.

Lemma paint_lookup (br : Color) (ps : list (Z * Z)) (g : Graphics.t) (q : Z * Z) :
  foldr (fun p acc => <[p := br]> acc) g ps !! q
  = if decide (q ∈ ps) then Some br else g !! q.
Proof.
  induction ps as [|p ps IH]; cbn [foldr].
  - destruct (decide (q ∈ [])) as [Hin|_]; [|done].
    by apply elem_of_nil in Hin.
  - destruct (decide (q ∈ p :: ps)) as [Hin|Hout].
    + destruct (decide (p = q)) as [->|Hne]; [by rewrite lookup_insert_eq|].
      rewrite lookup_insert_ne by done. rewrite IH.
      apply elem_of_cons in Hin as [->|Hin]; [done|].
      by rewrite decide_True.
    + apply not_elem_of_cons in Hout as [Hne Hout].
      rewrite lookup_insert_ne by done. rewrite IH. by rewrite decide_False.
Qed.

(** [FillRectangle] gives the brush colour to the pixels of the rectangle
    and leaves every other pixel as it was. *)
Lemma FillRectangle_lookup (br : Color) (x y width height i j : Z) (g : Graphics.t) :
  Graphics.FillRectangle br x y width height g !! (i, j)
  = if decide ((x <= i < x + width)%Z /\ (y <= j < y + height)%Z)
    then Some br else g !! (i, j).
Proof.
  unfold Graphics.FillRectangle. rewrite paint_lookup.
  assert (Hin : (i, j) ∈ (i' ← seqZ x width; j' ← seqZ y height; [(i', j')])
                <-> (x <= i < x + width)%Z /\ (y <= j < y + height)%Z).
  { rewrite list_elem_of_bind. split.
    - intros (i' & Hj & Hi). apply list_elem_of_bind in Hj as (j' & Hp & Hj).
      apply list_elem_of_singleton in Hp as [= -> ->].
      apply elem_of_seqZ in Hi, Hj. lia.
    - intros [Hi Hj]. exists i. split; [|apply elem_of_seqZ; lia].
      apply list_elem_of_bind. exists j. split; [|apply elem_of_seqZ; lia].
      by apply list_elem_of_singleton. }
  destruct (decide ((i, j) ∈ _)) as [H1|H1], (decide (_ /\ _)) as [H2|H2];
    try done; exfalso; tauto.
Qed.

End Surface.

Section DrawPoint.
Context {F : Type} `{Scalar F}.
Local Open Scope float_scope.

Lemma bounds_test_true (r : Renderer.t F) (x y : Z) :
  (0 <? x)%Z && (x <? Renderer.viewportX r)%Z
    && (0 <? y)%Z && (y <? Renderer.viewportY r)%Z = true
  <-> (0 < x < Renderer.viewportX r)%Z /\ (0 < y < Renderer.viewportY r)%Z.
Proof.
  rewrite !andb_true_iff, !Z.ltb_lt. tauto.
Qed.

Lemma bounds_test_false (r : Renderer.t F) (x y : Z) :
  ~ ((0 < x < Renderer.viewportX r)%Z /\ (0 < y < Renderer.viewportY r)%Z) ->
  (0 <? x)%Z && (x <? Renderer.viewportX r)%Z
    && (0 <? y)%Z && (y <? Renderer.viewportY r)%Z = false.
Proof.
  intros Hout. apply not_true_is_false. intros Hin.
  apply Hout. by apply bounds_test_true.
Qed.

Lemma drawPoint_outside (r : Renderer.t F) x y z br :
  ~ ((0 < x < Renderer.viewportX r)%Z /\ (0 < y < Renderer.viewportY r)%Z) ->
  Renderer.drawPoint x y z br r = Some r.
Proof.
  intros Hout. unfold Renderer.drawPoint.
  by rewrite (bounds_test_false r x y Hout).
Qed.

Lemma drawPoint_inside (r : Renderer.t F) x y z br stored :
  (0 < x < Renderer.viewportX r)%Z -> (0 < y < Renderer.viewportY r)%Z ->
  Renderer.zbuffer r !! (x, y) = Some stored ->
  Renderer.drawPoint x y z br r =
    if #1 / z >? stored
    then Some (Renderer.mk (Graphics.FillRectangle br x y 2 2 (Renderer.graphics r))
                 (Renderer.wfBrush r) (<[(x, y) := #1 / z]> (Renderer.zbuffer r))
                 (Renderer.viewportX r) (Renderer.viewportY r))
    else Some r.
Proof.
  intros Hx Hy Hs. unfold Renderer.drawPoint.
  destruct (bounds_test_true r x y) as [_ Hb]. rewrite Hb by done.
  by rewrite Hs.
Qed.

(** C2: [drawPoint] computes the candidate [1/z].  Inside the exclusive
    bounds [0 < x < width], [0 < y < height], a candidate greater than the
    stored value replaces it (no other cell changes) and the point is
    painted; a candidate that is not greater changes nothing.  Outside the
    bounds nothing changes, and a point with [x = 0] or [y = 0] is always
    outside. *)
Theorem drawPoint_test_and_set (r : Renderer.t F) (x y : Z) (z : F) (br : Color) :
  let candidate := #1 / z in
  let inside := (0 < x < Renderer.viewportX r)%Z /\ (0 < y < Renderer.viewportY r)%Z in
  (forall stored, inside -> Renderer.zbuffer r !! (x, y) = Some stored ->
     (candidate >? stored) = true ->
     exists r', Renderer.drawPoint x y z br r = Some r'
       /\ Renderer.zbuffer r' !! (x, y) = Some candidate
       /\ (forall p, p <> (x, y) -> Renderer.zbuffer r' !! p = Renderer.zbuffer r !! p)
       /\ Renderer.graphics r' = Graphics.FillRectangle br x y 2 2 (Renderer.graphics r)
       /\ Renderer.graphics r' !! (x, y) = Some br
       /\ Renderer.viewportX r' = Renderer.viewportX r
       /\ Renderer.viewportY r' = Renderer.viewportY r)
  /\ (forall stored, inside -> Renderer.zbuffer r !! (x, y) = Some stored ->
        (candidate >? stored) = false ->
        Renderer.drawPoint x y z br r = Some r)
  /\ (~ inside -> Renderer.drawPoint x y z br r = Some r)
  /\ (x = 0%Z \/ y = 0%Z -> Renderer.drawPoint x y z br r = Some r).
Proof.
  intros candidate inside. repeat split.
  - intros stored [Hx Hy] Hs Hgt.
    rewrite (drawPoint_inside r x y z br stored Hx Hy Hs).
    fold candidate. rewrite Hgt. eexists. split; [reflexivity|]. simpl.
    repeat split.
    + apply lookup_insert_eq.
    + intros p Hp. by apply lookup_insert_ne.
    + rewrite FillRectangle_lookup. apply decide_True. lia.
  - intros stored [Hx Hy] Hs Hle.
    rewrite (drawPoint_inside r x y z br stored Hx Hy Hs).
    fold candidate. by rewrite Hle.
  - apply drawPoint_outside.
  - intros Hzero. apply drawPoint_outside. intros [Hx Hy]. lia.
Qed.

End DrawPoint.

(** ** The z-buffer covers the viewport *)

Section Covers.
Context {F : Type} `{Scalar F}.
Local Open Scope float_scope.

Lemma new_array_lookup (width height x y : Z) :
  (0 <= x < width)%Z -> (0 <= y < height)%Z ->
  Renderer.new_array (F := F) width height !! (x, y) = Some #0.
Proof.
  intros Hx Hy. unfold Renderer.new_array.
  apply elem_of_list_to_map_1'.
  - intros v Hin. apply list_elem_of_bind in Hin as (x' & Hin & _).
    apply list_elem_of_bind in Hin as (y' & Hin & _).
    apply list_elem_of_singleton in Hin. congruence.
  - apply list_elem_of_bind. exists x. split; [|apply elem_of_seqZ; lia].
    apply list_elem_of_bind. exists y. split; [|apply elem_of_seqZ; lia].
    by apply list_elem_of_singleton.
Qed.

(** The constructor allocates a z-buffer that covers its viewport. *)
Lemma covers_Renderer (im : Graphics.t) (width height : Z) :
  covers (Renderer.Renderer (F := F) im width height).
Proof.
  intros x y Hx Hy. simpl in *. rewrite new_array_lookup by lia. by eexists.
Qed.

Lemma covers_clearZBuffer `{HasInfinity F} (r : Renderer.t F) :
  covers r -> covers (Renderer.clearZBuffer r).
Proof.
  intros Hc x y Hx Hy. simpl in *. rewrite lookup_fmap.
  destruct (Hc x y Hx Hy) as [v ->]. by eexists.
Qed.

Lemma covers_drawPoint (r r' : Renderer.t F) x y z br :
  covers r -> Renderer.drawPoint x y z br r = Some r' -> covers r'.
Proof.
  intros Hc. unfold Renderer.drawPoint.
  destruct (_ && _); [|by intros [= <-]].
  destruct (Renderer.zbuffer r !! (x, y)) as [stored|]; simpl; [|done].
  destruct (_ >? _); intros [= <-]; [|done].
  intros x' y' Hx' Hy'. simpl in *.
  destruct (decide ((x, y) = (x', y'))) as [->|Hne].
  - rewrite lookup_insert_eq. by eexists.
  - rewrite lookup_insert_ne by done. by apply Hc.
Qed.

(** With a covering z-buffer [drawPoint] raises no exception. *)
Lemma drawPoint_no_exception (r : Renderer.t F) x y z br :
  covers r -> is_Some (Renderer.drawPoint x y z br r).
Proof.
  intros Hc. unfold Renderer.drawPoint.
  destruct (_ && _) eqn:Hb; [|by eexists].
  apply bounds_test_true in Hb as [Hx Hy].
  destruct (Hc x y Hx Hy) as [stored ->]. simpl.
  destruct (_ >? _); by eexists.
Qed.

End Covers.

(** ** NaN and infinite depths in [drawPoint] (binary32) *)

Section Degenerate.
Import Binary32.
Local Open Scope float_scope.

Lemma reciprocal_nan : #1 / NaN = NaN.
Proof. reflexivity. Qed.

Lemma reciprocal_infinity (s : bool) : #1 / S754_infinity s = S754_zero s.
Proof. by destruct s. Qed.

(** No comparison with a NaN holds. *)
Lemma nan_not_greater (stored : float) : (NaN >? stored) = false.
Proof. by destruct stored. Qed.

(** A signed zero is greater than exactly the negative stored values. *)
Lemma zero_greater (s : bool) (stored : float) :
  (S754_zero s >? stored) = (stored <? #0).
Proof. by destruct stored as [[]|[]| |[] m e]. Qed.

(** C8, as the code has it: a NaN depth never passes the depth test, so
    the pixel is suppressed and no exception is raised; an infinite depth
    has a signed zero as candidate, which passes against every negative
    stored value, the cleared [-INFINITY] included, and is then drawn. *)
Theorem drawPoint_degenerate_depth (r : Renderer.t float) (x y : Z) (br : Color) :
  covers r ->
  Renderer.drawPoint x y NaN br r = Some r
  /\ forall (s : bool) (stored : float),
       (0 < x < Renderer.viewportX r)%Z -> (0 < y < Renderer.viewportY r)%Z ->
       Renderer.zbuffer r !! (x, y) = Some stored ->
       Renderer.drawPoint x y (S754_infinity s) br r =
         if stored <? #0
         then Some (Renderer.mk
                      (Graphics.FillRectangle br x y 2 2 (Renderer.graphics r))
                      (Renderer.wfBrush r)
                      (<[(x, y) := S754_zero s]> (Renderer.zbuffer r))
                      (Renderer.viewportX r) (Renderer.viewportY r))
         else Some r.
Proof.
  intros Hc. split.
  - destruct (decide ((0 < x < Renderer.viewportX r)%Z
                      /\ (0 < y < Renderer.viewportY r)%Z)) as [[Hx Hy]|Hout];
      [|by apply drawPoint_outside].
    destruct (Hc x y Hx Hy) as [stored Hs].
    rewrite (drawPoint_inside r x y _ br stored Hx Hy Hs).
    by rewrite reciprocal_nan, nan_not_greater.
  - intros s stored Hx Hy Hs.
    rewrite (drawPoint_inside r x y _ br stored Hx Hy Hs).
    by rewrite reciprocal_infinity, zero_greater.
Qed.

Lemma covers_fresh : covers Samples.fresh.
Proof. apply covers_clearZBuffer, covers_Renderer. Qed.

Lemma drawPoint_degenerate_depth_witness :
  covers Samples.fresh
  /\ Renderer.drawPoint 1 1 NaN Blue Samples.fresh = Some Samples.fresh
  /\ forall (s : bool) (stored : float),
       (0 < 1 < Renderer.viewportX Samples.fresh)%Z ->
       (0 < 1 < Renderer.viewportY Samples.fresh)%Z ->
       Renderer.zbuffer Samples.fresh !! (1%Z, 1%Z) = Some stored ->
       Renderer.drawPoint 1 1 (S754_infinity s) Blue Samples.fresh =
         if stored <? #0
         then Some (Renderer.mk
                      (Graphics.FillRectangle Blue 1 1 2 2
                         (Renderer.graphics Samples.fresh))
                      (Renderer.wfBrush Samples.fresh)
                      (<[(1%Z, 1%Z) := S754_zero s]> (Renderer.zbuffer Samples.fresh))
                      (Renderer.viewportX Samples.fresh)
                      (Renderer.viewportY Samples.fresh))
         else Some Samples.fresh.
Proof.
  split; [exact covers_fresh|].
  apply (drawPoint_degenerate_depth Samples.fresh 1 1 Blue covers_fresh).
Defined.

(** C8 as stated fails for an infinite depth: on a freshly cleared 6x6
    buffer, [drawPoint(1, 1, +INFINITY)] stores the candidate [+0] and
    paints the point. *)
Lemma infinite_depth_is_drawn :
  exists r',
    Renderer.drawPoint 1 1 INFINITY Blue Samples.fresh = Some r'
    /\ Renderer.zbuffer Samples.fresh !! (1%Z, 1%Z) = Some (- INFINITY)
    /\ Renderer.zbuffer r' !! (1%Z, 1%Z) = Some (S754_zero false)
    /\ Renderer.graphics Samples.fresh !! (1%Z, 1%Z) = None
    /\ Renderer.graphics r' !! (1%Z, 1%Z) = Some Blue.
Proof.
  eexists. split; [reflexivity|]. by vm_compute.
Qed.

End Degenerate.

(** ** [drawLine] *)

Section DrawLine.
Context {F : Type} `{Scalar F}.

Lemma turn_stops (isSwap : bool) (sx sy dx x y e : Z) :
  e < 0 -> Renderer.turn isSwap sx sy dx x y e = (x, y, e).
Proof.
  intros He. unfold Renderer.turn. apply iterate_stop. simpl. lia.
Qed.

(** With [0 <= e < 2 * dx] and [2 * dx] in the range of [int], the inner
    loop runs once and nothing overflows. *)
Lemma turn_once (isSwap : bool) (sx sy dx x y e : Z) :
  0 < dx -> 2 * dx <= INT_MAX -> 0 <= e < 2 * dx ->
  Renderer.turn isSwap sx sy dx x y e
  = ((if isSwap then wrap (x + sx) else x),
     (if isSwap then y else wrap (y + sy)), e - 2 * dx).
Proof.
  intros Hdx Hmax He. unfold Renderer.turn.
  assert (Hw : wrap (e - wrap (2 * dx)) = e - 2 * dx).
  { rewrite (wrap_in_int (2 * dx)) by int_lia.
    apply wrap_in_int. unfold INT_MIN, INT_MAX in *. lia. }
  rewrite iterate_step; cbn [fst snd]; rewrite ?Hw; [done|lia|lia].
Qed.

(** The inner loop exits by its own test, whatever overflows: with
    [0 < dx] the error term ends negative. *)
Lemma turn_exits (isSwap : bool) (sx sy dx x y e : Z) :
  0 < dx <= INT_MAX -> INT_MIN <= e <= INT_MAX ->
  (Renderer.turn isSwap sx sy dx x y e).2 < 0.
Proof.
  intros Hdx He. unfold Renderer.turn.
  set (cond := fun s : Z * Z * Z => 0 <=? s.2).
  set (step := fun s : Z * Z * Z => _).
  enough (Hexit : cond (iterate cond step 32 (x, y, e)) = false)
    by (unfold cond in Hexit; by apply Z.leb_gt in Hexit).
  pose proof (wrap_range (2 * dx)) as Hwr.
  set (w := wrap (2 * dx)) in *.
  assert (Hw : (0 < w /\ w = 2 * dx) \/ (w < 0 /\ w = 2 * dx - 2 ^ 32)).
  { unfold w. destruct (Z_le_gt_dec (2 * dx) INT_MAX) as [Hle|Hgt].
    - left. rewrite wrap_in_int by int_lia. lia.
    - right. rewrite wrap_above by int_lia.
      int_lia. }
  apply (iterate_exits cond step (fun s => INT_MIN <= s.2 <= INT_MAX)
           (fun s => if s.2 <? 0 then 0
                     else if 0 <? w then s.2 + 1 else 2 ^ 31 - s.2)).
  - intros [[x' y'] e'] Hinv Hc. unfold cond in Hc. unfold step.
    cbn [fst snd] in *. apply Z.leb_le in Hc. split; [apply wrap_range|].
    fold w. destruct (e' <? 0) eqn:Hneg; [lia|]. clear Hneg.
    destruct Hw as [[Hpos Hweq]|[Hneg Hweq]].
    + rewrite (proj2 (Z.ltb_lt 0 w)) by done.
      rewrite (wrap_in_int (e' - w)) by int_lia.
      destruct (e' - w <? 0) eqn:Hlt; lia.
    + rewrite (proj2 (Z.ltb_ge 0 w)) by lia.
      destruct (Z_le_gt_dec (e' - w) INT_MAX) as [Hle|Hgt].
      * rewrite (wrap_in_int (e' - w)) by int_lia.
        destruct (e' - w <? 0) eqn:Hlt; [lia|].
        int_lia.
      * rewrite (wrap_above (e' - w)) by int_lia.
        rewrite (proj2 (Z.ltb_lt (e' - w - 2 ^ 32) 0))
          by int_lia.
        int_lia.
  - done.
  - cbn [fst snd]. change (Z.of_nat 32) with 32.
    destruct (e <? 0) eqn:Hneg; [lia|]. destruct (0 <? w); int_lia.
Qed.

Lemma line_loop_length (from to : Vector3.t F) isSwap sx sy dx dy n x y e :
  length (Renderer.line_loop from to isSwap sx sy dx dy n x y e) = n.
Proof.
  revert x y e. induction n as [|n IH]; intros x y e; [done|].
  cbn [Renderer.line_loop].
  destruct (Renderer.turn _ _ _ _ _ _ _) as [[x1 y1] e1].
  cbn [length]. by rewrite IH.
Qed.

(** [drawLine] makes one [drawPoint] call per step along the dominant
    axis: the larger of the two deltas, and none when both are zero. *)
Lemma drawLine_calls_length (from to : Vector3.t F) :
  let x := to_int (Vector3.x from) in
  let y := to_int (Vector3.y from) in
  let dx := to_int (fabs (fsub (Vector3.x to) (of_int x))) in
  let dy := to_int (fabs (fsub (Vector3.y to) (of_int y))) in
  length (Renderer.drawLine_calls from to) = Z.to_nat (Z.max dx dy).
Proof.
  intros x y dx dy. unfold Renderer.drawLine_calls.
  fold x y. fold dx dy.
  destruct (dx <? dy)%Z eqn:Hlt; rewrite line_loop_length; f_equal.
  - apply Z.ltb_lt in Hlt. lia.
  - apply Z.ltb_ge in Hlt. lia.
Qed.

End DrawLine.

Section DrawLineBinary32.
Import Binary32 Samples.
Local Open Scope float_scope.

(** C4, as the code has it: [drawLine((0,0,1), (4,0,1))] submits the four
    pixels (0,0), (1,0), (2,0), (3,0) to the depth test, each with depth
    exactly 1.0 (the end point (4,0) is not submitted); the zero-length
    [drawLine((0,0,1), (0,0,1))] submits nothing and returns normally with
    the renderer unchanged. *)
Theorem drawLine_horizontal :
  Renderer.drawLine_calls (v3 0 0 1) (v3 4 0 1)
    = [(0%Z, 0%Z, #1); (1%Z, 0%Z, #1); (2%Z, 0%Z, #1); (3%Z, 0%Z, #1)]
  /\ Renderer.drawLine_calls (v3 0 0 1) (v3 0 0 1) = []
  /\ forall r : Renderer.t float,
       Renderer.drawLine (v3 0 0 1) (v3 0 0 1) r = Some r.
Proof.
  split; [by vm_compute|]. split; [by vm_compute|].
  intros r. unfold Renderer.drawLine.
  by replace (Renderer.drawLine_calls (v3 0 0 1) (v3 0 0 1))
    with (@nil (Renderer.call float)) by (by vm_compute).
Qed.

(** C4 as stated fails: the pixel (4,0) is never submitted. *)
Lemma drawLine_misses_end_point :
  Renderer.drawLine_calls (v3 0 0 1) (v3 4 0 1)
    <> [(0%Z, 0%Z, #1); (1%Z, 0%Z, #1); (2%Z, 0%Z, #1); (3%Z, 0%Z, #1);
        (4%Z, 0%Z, #1)]
  /\ (4%Z, 0%Z) ∉ (fst <$> Renderer.drawLine_calls (v3 0 0 1) (v3 4 0 1)).
Proof.
  split.
  - intros Heq. apply (f_equal length) in Heq. by vm_compute in Heq.
  - replace (fst <$> Renderer.drawLine_calls (v3 0 0 1) (v3 4 0 1))
      with [(0%Z, 0%Z); (1%Z, 0%Z); (2%Z, 0%Z); (3%Z, 0%Z)] by (by vm_compute).
    rewrite !elem_of_cons, elem_of_nil. intros [?|[?|[?|[?|[]]]]]; congruence.
Qed.

End DrawLineBinary32.

(** ** The scanlines of [fillPolygon] *)

Section Scanlines.
Context {F : Type} `{Scalar F}.

(** C3, as the code has it: for a triangle that is not rejected as
    deformed, [fillPolygon] visits the scanlines
    [i = 0, 1, ..., totalHeight - 1], in this order: [totalHeight]
    scanlines, the bound [totalHeight] itself (the row of the highest-y
    vertex) excluded. *)
Theorem fillPolygon_scanlines (_first _second _third : Vector3.t F) :
  Renderer.deformed _first _second _third = false ->
  fst <$> Renderer.fillPolygon_rows _first _second _third
    = seqZ 0 (Renderer.totalHeight _first _second _third)
  /\ length (Renderer.fillPolygon_rows _first _second _third)
     = Z.to_nat (Renderer.totalHeight _first _second _third)
  /\ Renderer.totalHeight _first _second _third
     ∉ (fst <$> Renderer.fillPolygon_rows _first _second _third).
Proof.
  intros Hdef.
  assert (Hrows : fst <$> Renderer.fillPolygon_rows _first _second _third
                  = seqZ 0 (Renderer.totalHeight _first _second _third)).
  { unfold Renderer.fillPolygon_rows, Renderer.totalHeight. rewrite Hdef.
    destruct (Renderer.sort_vertices _ _ _) as [[first second] third].
    generalize (seqZ 0 (to_int (fsub (Vector3.y third) (Vector3.y first)))).
    intros l. induction l as [|i l IH]; [done|]. simpl. by f_equal. }
  split; [done|]. split.
  - rewrite <- (length_fmap fst), Hrows. apply length_seqZ.
  - rewrite Hrows, elem_of_seqZ. lia.
Qed.

(** A deformed triangle (all three y equal) has no scanline at all. *)
Lemma fillPolygon_deformed (_first _second _third : Vector3.t F) :
  Renderer.deformed _first _second _third = true ->
  Renderer.fillPolygon_rows _first _second _third = [].
Proof. intros Hdef. unfold Renderer.fillPolygon_rows. by rewrite Hdef. Qed.

End Scanlines.

Section ScanlinesBinary32.
Import Binary32 Samples.
Local Open Scope float_scope.

Lemma fillPolygon_scanlines_witness :
  Renderer.deformed (v3 0 0 1) (v3 4 0 2) (v3 0 4 3) = false
  /\ fst <$> Renderer.fillPolygon_rows (v3 0 0 1) (v3 4 0 2) (v3 0 4 3)
     = seqZ 0 (Renderer.totalHeight (v3 0 0 1) (v3 4 0 2) (v3 0 4 3))
  /\ length (Renderer.fillPolygon_rows (v3 0 0 1) (v3 4 0 2) (v3 0 4 3))
     = Z.to_nat (Renderer.totalHeight (v3 0 0 1) (v3 4 0 2) (v3 0 4 3))
  /\ Renderer.totalHeight (v3 0 0 1) (v3 4 0 2) (v3 0 4 3)
     ∉ (fst <$> Renderer.fillPolygon_rows (v3 0 0 1) (v3 4 0 2) (v3 0 4 3)).
Proof.
  assert (Hdef : Renderer.deformed (v3 0 0 1) (v3 4 0 2) (v3 0 4 3) = false)
    by (vm_compute; reflexivity).
  split; [exact Hdef|].
  exact (fillPolygon_scanlines (v3 0 0 1) (v3 4 0 2) (v3 0 4 3) Hdef).
Defined.

(** C3 as stated fails: the triangle (0,0), (4,0), (0,4) has
    [totalHeight = 4], and the scanlines visited are 0, 1, 2, 3, not
    0, ..., 4; nothing is submitted on the row [y = 4] of the highest
    vertex. *)
Lemma fillPolygon_skips_last_scanline :
  Renderer.deformed (v3 0 0 1) (v3 4 0 2) (v3 0 4 3) = false
  /\ Renderer.totalHeight (v3 0 0 1) (v3 4 0 2) (v3 0 4 3) = 4%Z
  /\ fst <$> Renderer.fillPolygon_rows (v3 0 0 1) (v3 4 0 2) (v3 0 4 3)
     = [0%Z; 1%Z; 2%Z; 3%Z]
  /\ fst <$> Renderer.fillPolygon_rows (v3 0 0 1) (v3 4 0 2) (v3 0 4 3)
     <> seqZ 0 (Renderer.totalHeight (v3 0 0 1) (v3 4 0 2) (v3 0 4 3) + 1)
  /\ (snd ∘ fst) <$> Renderer.fillPolygon_calls (v3 0 0 1) (v3 4 0 2) (v3 0 4 3)
     = [0; 0; 0; 0; 0; 1; 1; 1; 1; 2; 2; 2; 3; 3]%Z.
Proof.
  split; [by vm_compute|]. split; [by vm_compute|]. split; [by vm_compute|].
  split; [|by vm_compute].
  intros Heq. apply (f_equal length) in Heq. by vm_compute in Heq.
Qed.

End ScanlinesBinary32.

(** ** The rotation builders *)

Section Rotations.
Context {F : Type} `{Scalar F} `{Trig F}.
Local Open Scope float_scope.

Lemma rotation_block_X (c s : F) : rotation_block 1 2 c s = block_X c s.
Proof. reflexivity. Qed.

Lemma rotation_block_Y (c s : F) : rotation_block 0 2 c s = block_Y c s.
Proof. reflexivity. Qed.

Lemma rotation_block_Z (c s : F) : rotation_block 1 0 c s = block_Z c s.
Proof. reflexivity. Qed.

Lemma rotation_block_Z_as_worded (c s : F) :
  rotation_block 0 1 c s = block_Z_as_worded c s.
Proof. reflexivity. Qed.

(** C5, as the code has it: with the angle [degrees * PI / 180], each of
    [rotateX], [rotateY], [rotateZ] returns [T * M], where [T] is the
    identity with the cos/sin block placed as follows.  For [rotateX]:
    (1,1) = cos, (2,1) = -sin, (1,2) = sin, (2,2) = cos.  For [rotateY]:
    (0,0) = cos, (2,0) = -sin, (0,2) = sin, (2,2) = cos.  For [rotateZ]
    the signs sit the other way round: (0,0) = cos, (0,1) = -sin,
    (1,0) = sin, (1,1) = cos. *)
Theorem rotate_builders (mat : Matrix4.t F) (degrees : F) :
  let angle := degrees * fPI / #180 in
  Util.rotateX mat degrees
    = Matrix4.mul (rotation_block 1 2 (fcos angle) (fsin angle)) mat
  /\ Util.rotateY mat degrees
     = Matrix4.mul (rotation_block 0 2 (fcos angle) (fsin angle)) mat
  /\ Util.rotateZ mat degrees
     = Matrix4.mul (rotation_block 1 0 (fcos angle) (fsin angle)) mat
  /\ Matrix4.data (rotation_block 1 0 (fcos angle) (fsin angle))
     = [ fcos angle; - fsin angle; #0; #0;
         fsin angle; fcos angle; #0; #0;
         #0; #0; #1; #0;
         #0; #0; #0; #1 ].
Proof.
  intros angle. repeat split.
Qed.

End Rotations.

Section RotationsExact.
Local Open Scope R_scope.

Lemma quarter_turn : Util.degToRad (F := R) 90 = PI / 2.
Proof. unfold Util.degToRad. simpl. field. Qed.

(** C5 as stated fails for [rotateZ]: at 90 degrees the product with the
    identity has entry (1,0) equal to [sin = 1], while the block worded in
    the claim puts [-sin = -1] there. *)
Lemma rotateZ_not_as_worded :
  Matrix4.get (Util.rotateZ Matrix4.identity 90) 1 0 = 1
  /\ Matrix4.get
       (Matrix4.mul (rotation_block 0 1 (cos (90 * PI / 180)) (sin (90 * PI / 180)))
                    Matrix4.identity) 1 0 = -1
  /\ Util.rotateZ Matrix4.identity 90
     <> Matrix4.mul (rotation_block 0 1 (cos (90 * PI / 180)) (sin (90 * PI / 180)))
                    Matrix4.identity.
Proof.
  assert (Hs : sin (90 * PI / 180) = 1).
  { replace (90 * PI / 180) with (PI / 2) by field. apply sin_PI2. }
  assert (Hc : cos (90 * PI / 180) = 0).
  { replace (90 * PI / 180) with (PI / 2) by field. apply cos_PI2. }
  assert (H1 : Matrix4.get (Util.rotateZ Matrix4.identity 90) 1 0 = 1).
  { cbv [Util.rotateZ Util.degToRad Matrix4.get Matrix4.mul Matrix4.set
         Matrix4.identity Matrix4.row_col Matrix4.data
         fcos fsin fPI fmul fdiv fadd fopp of_int Exact.trig Exact.scalar].
    simpl. rewrite Hs, Hc. lra. }
  assert (H2 : Matrix4.get
       (Matrix4.mul (rotation_block 0 1 (cos (90 * PI / 180)) (sin (90 * PI / 180)))
                    Matrix4.identity) 1 0 = -1).
  { cbv [rotation_block Matrix4.get Matrix4.mul Matrix4.set
         Matrix4.identity Matrix4.row_col Matrix4.data
         fcos fsin fPI fmul fdiv fadd fopp of_int Exact.trig Exact.scalar].
    simpl. rewrite Hs, Hc. lra. }
  split; [done|]. split; [done|].
  intros Heq. rewrite Heq, H2 in H1. lra.
Qed.

End RotationsExact.

(** ** The perspective matrix *)

Section PerspectiveBinary32.
Import Binary32.
Context (libm : Trig float).
Local Open Scope float_scope.

(** C1, evaluated on the code: whatever [tan] returns,
    [perspective(90, 1, 1, 100)] maps the point (0, 0, -1, 1) of the near
    plane to clip coordinates with [w = 1] and [z = -0.99999988]
    (= -16777214 * 2^-24), so after the homogeneous divide z is negative,
    outside [0, 1]. *)
Theorem perspective_near_plane :
  let clip :=
    Matrix4.mulv (Util.perspective #90 #1 #1 #100)
                 (Vector4.mk #0 #0 #(-1) #1) in
  let ndc := Vector4.fromHomogeneous clip in
  Vector4.w clip = #1
  /\ Vector3.z ndc = S754_finite true 16777214 (-24)
  /\ (Vector3.z ndc <? #0) = true
  /\ (#0 <=? Vector3.z ndc) = false.
Proof. by vm_compute. Qed.

End PerspectiveBinary32.

Section PerspectiveExact.
Local Open Scope R_scope.

Lemma perspective_clip (fov aspect near far x y z : R) :
  let clip :=
    Matrix4.mulv (Util.perspective fov aspect near far) (Vector4.mk x y z 1) in
  Vector4.w clip = - z
  /\ Vector4.z clip
     = - (far + near) / (far - near) * z + -2 * far * near / (far - near).
Proof.
  cbv [Util.perspective Util.degToRad Matrix4.mulv Matrix4.row_vec Matrix4.get
       Matrix4.set Matrix4.identity Matrix4.data Vector4.x Vector4.y Vector4.z
       Vector4.w fmul fdiv fadd fsub fopp of_int ftan fPI Exact.trig Exact.scalar].
  simpl. split; ring.
Qed.

(** In exact arithmetic the remap terms (2,2) and (2,3) send the eye-space
    depths between the near and the far plane to post-divide z in
    [[-1, 1]], with the near plane at [-1] and the far plane at [1]; entry
    (3,2) gives [w_clip = -z_eye]. *)
Lemma perspective_depth_range (fov aspect near far x y z : R) :
  0 < near < far -> - far <= z <= - near ->
  let clip :=
    Matrix4.mulv (Util.perspective fov aspect near far) (Vector4.mk x y z 1) in
  let ndc := Vector4.fromHomogeneous clip in
  Vector4.w clip = - z
  /\ -1 <= Vector3.z ndc <= 1
  /\ (z = - near -> Vector3.z ndc = -1)
  /\ (z = - far -> Vector3.z ndc = 1).
Proof.
  intros Hnf Hz clip ndc.
  destruct (perspective_clip fov aspect near far x y z) as [Hw Hc].
  fold clip in Hw, Hc. split; [done|].
  assert (Hndc : Vector3.z ndc
                 = ((far + near) * z + 2 * far * near) / ((far - near) * z)).
  { change (Vector3.z ndc) with (Vector4.z clip / Vector4.w clip).
    rewrite Hw, Hc. field. lra. }
  rewrite Hndc.
  assert (Hden : (far - near) * z < 0) by nra.
  repeat split.
  - apply Rmult_le_reg_r with (r := - ((far - near) * z)); [lra|].
    replace (((far + near) * z + 2 * far * near) / ((far - near) * z)
             * - ((far - near) * z))
      with (- ((far + near) * z + 2 * far * near)) by (field; lra).
    nra.
  - apply Rmult_le_reg_r with (r := - ((far - near) * z)); [lra|].
    replace (((far + near) * z + 2 * far * near) / ((far - near) * z)
             * - ((far - near) * z))
      with (- ((far + near) * z + 2 * far * near)) by (field; lra).
    nra.
  - intros ->. field. lra.
  - intros ->. field. lra.
Qed.

End PerspectiveExact.

(** ** [barycentric] in exact arithmetic *)

Section BarycentricExact.
Local Open Scope R_scope.

Lemma vector3_eq (x1 y1 z1 x2 y2 z2 : R) :
  x1 = x2 -> y1 = y2 -> z1 = z2 -> Vector3.mk x1 y1 z1 = Vector3.mk x2 y2 z2.
Proof. by intros -> -> ->. Qed.

(** The weights add up to one. *)
Lemma barycentric_sum (p a b c : Vector3.t R) :
  denom a b c <> 0 ->
  let k := Util.barycentric p a b c in
  Vector3.x k + Vector3.y k + Vector3.z k = 1.
Proof. intros _. to_reals. ring. Qed.

(** Whatever [p], the combination misses it by the normal of the triangle
    times the triple product, scaled by the denominator. *)
Lemma barycentric_residual (p a b c : Vector3.t R) :
  denom a b c <> 0 ->
  let n := Vector3.cross (Vector3.sub b a) (Vector3.sub c a) in
  let t := Vector3.dot (Vector3.sub p a) n in
  Vector3.sub p (combine (Util.barycentric p a b c) a b c)
    = Vector3.scale n (t / denom a b c).
Proof.
  destruct p as [px py pz], a as [ax ay az], b as [bx b_y bz], c as [cx cy cz].
  intros Hd. to_reals. apply vector3_eq; field; exact Hd.
Qed.

(** C6, as it holds: in exact arithmetic, for a triangle with nonzero
    denominator [d00*d11 - d01*d01] and every point [p], the weights
    [(u, v, w)] of [barycentric(p, a, b, c)] satisfy [u + v + w = 1]; if [p]
    lies in the plane of the triangle then [u*a + v*b + w*c = p]; and for
    the centroid the weights are (1/3, 1/3, 1/3). *)
Theorem barycentric_weights (p a b c : Vector3.t R) :
  denom a b c <> 0 ->
  let k := Util.barycentric p a b c in
  Vector3.x k + Vector3.y k + Vector3.z k = 1
  /\ (coplanar p a b c -> combine k a b c = p)
  /\ (p = centroid a b c -> k = Vector3.mk (1 / 3) (1 / 3) (1 / 3)).
Proof.
  intros Hd k. split; [by apply barycentric_sum|]. split.
  - intros Hp.
    pose proof (barycentric_residual p a b c Hd) as Hres. cbv zeta in Hres.
    unfold coplanar in Hp. rewrite Hp in Hres. fold k in Hres.
    destruct p as [px py pz], (combine k a b c) as [qx qy qz].
    cbv [Vector3.sub Vector3.scale Vector3.x Vector3.y Vector3.z
         fsub fmul fdiv Exact.scalar] in Hres.
    injection Hres as Hx Hy Hz.
    apply vector3_eq; lra.
  - intros ->. subst k.
    destruct a as [ax ay az], b as [bx b_y bz], c as [cx cy cz].
    to_reals. apply vector3_eq; field; exact Hd.
Qed.

Lemma barycentric_weights_witness :
  let a := Vector3.mk 0 0 0 in
  let b := Vector3.mk 1 0 0 in
  let c := Vector3.mk 0 1 0 in
  let p := Vector3.mk (1 / 4) (1 / 4) 0 in
  let k := Util.barycentric p a b c in
  denom a b c <> 0
  /\ Vector3.x k + Vector3.y k + Vector3.z k = 1
  /\ (coplanar p a b c -> combine k a b c = p)
  /\ (p = centroid a b c -> k = Vector3.mk (1 / 3) (1 / 3) (1 / 3)).
Proof.
  intros a b c p.
  assert (Hd : denom a b c <> 0) by (subst a b c; to_reals; lra).
  split; [exact Hd|].
  exact (barycentric_weights p a b c Hd).
Defined.

End BarycentricExact.

Section BarycentricBinary32.
Import Binary32 Samples.
Local Open Scope float_scope.

(** C6 as stated fails on the code's binary32 arithmetic: for the triangle
    (0,0,0), (5,0,0), (0,7,0), whose denominator is 1225, the weights of
    the point (2,1,0) of its plane sum to 1 + 2^-23, and the weights of
    its centroid do not rebuild the centroid; the weights at the centroid
    (1,1,0) of the triangle (0,0,0), (3,0,0), (0,3,0) are not
    (1/3, 1/3, 1/3). *)
Lemma barycentric_rounds :
  let a := v3 0 0 0 in
  let b := v3 5 0 0 in
  let c := v3 0 7 0 in
  let p := v3 2 1 0 in
  let k := Util.barycentric p a b c in
  let a' := v3 0 0 0 in
  let b' := v3 3 0 0 in
  let c' := v3 0 3 0 in
  denom a b c = #1225
  /\ Vector3.z p = Vector3.z a /\ Vector3.z p = Vector3.z b
  /\ Vector3.z p = Vector3.z c
  /\ Vector3.x k + Vector3.y k + Vector3.z k = S754_finite false 8388609 (-23)
  /\ Vector3.x k + Vector3.y k + Vector3.z k <> #1
  /\ combine (Util.barycentric (centroid a b c) a b c) a b c <> centroid a b c
  /\ centroid a' b' c' = v3 1 1 0
  /\ Util.barycentric (centroid a' b' c') a' b' c'
     <> Vector3.mk (#1 / #3) (#1 / #3) (#1 / #3).
Proof. repeat split; by vm_compute. Qed.

End BarycentricBinary32.

(** ** [lookAt] in exact arithmetic *)

Section LookAtExact.
Local Open Scope R_scope.

Lemma distinct_points_apart (ex ey ez tx ty tz : R) :
  Vector3.mk ex ey ez <> Vector3.mk tx ty tz ->
  0 < (ex - tx) * (ex - tx) + (ey - ty) * (ey - ty) + (ez - tz) * (ez - tz).
Proof.
  intros Hne.
  pose proof (Rle_0_sqr (ex - tx)) as Hx0.
  pose proof (Rle_0_sqr (ey - ty)) as Hy0.
  pose proof (Rle_0_sqr (ez - tz)) as Hz0.
  unfold Rsqr in *.
  destruct (Req_dec ex tx) as [Hx|Hx];
    [|assert (0 < Rsqr (ex - tx)) by (apply Rsqr_pos_lt; lra); unfold Rsqr in *; lra].
  destruct (Req_dec ey ty) as [Hy|Hy];
    [|assert (0 < Rsqr (ey - ty)) by (apply Rsqr_pos_lt; lra); unfold Rsqr in *; lra].
  destruct (Req_dec ez tz) as [Hz|Hz];
    [|assert (0 < Rsqr (ez - tz)) by (apply Rsqr_pos_lt; lra); unfold Rsqr in *; lra].
  exfalso. apply Hne. by subst.
Qed.

(** C7, as it holds: in exact arithmetic, for [eye <> target] and every
    [up], the matrix [lookAt(eye, target, up)] sends the homogeneous point
    [(target, 1)] to a point whose z component is [-|eye - target|]. *)
Theorem lookAt_target_depth (eye target up : Vector3.t R) :
  eye <> target ->
  Vector4.z (Matrix4.mulv (Util.lookAt eye target up) (point target))
  = - Vector3.len (Vector3.sub eye target).
Proof.
  destruct eye as [ex ey ez], target as [tx ty tz], up as [ux uy uz].
  intros Hne. apply distinct_points_apart in Hne.
  to_reals. simpl.
  set (S := (ex - tx) * (ex - tx) + (ey - ty) * (ey - ty) + (ez - tz) * (ez - tz))
    in *.
  assert (Hpos : 0 < sqrt S) by (by apply sqrt_lt_R0).
  assert (Hsq : sqrt S * sqrt S = S) by (apply sqrt_sqrt; lra).
  apply Rmult_eq_reg_r with (r := sqrt S); [|lra].
  replace (- sqrt S * sqrt S) with (- (sqrt S * sqrt S)) by ring.
  rewrite Hsq. set (q := sqrt S) in *. unfold S. field. lra.
Qed.

Lemma lookAt_target_depth_witness :
  Vector3.mk 0 0 5 <> Vector3.mk 0 0 0
  /\ Vector4.z (Matrix4.mulv
                  (Util.lookAt (Vector3.mk 0 0 5) (Vector3.mk 0 0 0) (Vector3.mk 0 1 0))
                  (point (Vector3.mk 0 0 0)))
     = - Vector3.len (Vector3.sub (Vector3.mk 0 0 5) (Vector3.mk 0 0 0)).
Proof.
  assert (Hne : Vector3.mk 0 0 5 <> Vector3.mk 0 0 0)
    by (intros Heq; injection Heq as Hz; lra).
  split; [exact Hne|].
  exact (lookAt_target_depth (Vector3.mk 0 0 5) (Vector3.mk 0 0 0)
           (Vector3.mk 0 1 0) Hne).
Defined.

End LookAtExact.

Section LookAtBinary32.
Import Binary32 Samples.
Local Open Scope float_scope.

(** C7 as stated fails on the code's binary32 arithmetic: with the eye at
    (2^24, 2^24, 2^24), the target at (2^24 - 1, 2^24 - 2, 2^24 - 2), at
    distance exactly 3, and [up = (0, 1, 0)], not parallel to
    [eye - target], the z component of the image of the target is -4, not
    -3: the product [rotational * positional] adds terms of size 2^24 that
    cancel only up to rounding. *)
Lemma lookAt_depth_rounds :
  let eye := v3 16777216 16777216 16777216 in
  let target := v3 16777215 16777214 16777214 in
  let up := v3 0 1 0 in
  let z := Vector4.z (Matrix4.mulv (Util.lookAt eye target up) (point target)) in
  eye <> target
  /\ Vector3.cross up (Vector3.sub eye target) = v3 2 0 (-1)
  /\ Vector3.len (Vector3.sub eye target) = #3
  /\ z = #(-4)
  /\ z <> - Vector3.len (Vector3.sub eye target).
Proof. repeat split; by vm_compute. Qed.

End LookAtBinary32.

(** ** The depth that [fillPolygon] interpolates *)

Section FillDepth.
Context {F : Type} `{Scalar F}.
Local Open Scope float_scope.

Lemma scan_calls (j0 : Z) (Bx : F) (body : Z -> Renderer.call F)
    (cl : Renderer.call F) :
  cl ∈ Renderer.scan j0 Bx body -> exists j', cl = body j'.
Proof.
  unfold Renderer.scan. intros (j' & -> & _)%list_elem_of_fmap. by exists j'.
Qed.

(** Every depth that [fillPolygon] submits is the dot product of the
    sorted vertices' depths with the weights that [barycentric] computes
    for the query point [(j, first.y + i, 0)] against the three arguments
    with their z components in place. *)
Lemma fillPolygon_calls_depth (_first _second _third : Vector3.t F)
    (cl : Renderer.call F) :
  cl ∈ Renderer.fillPolygon_calls _first _second _third ->
  exists i j : Z,
    let '(first, second, third) :=
      Renderer.sort_vertices _first _second _third in
    let zs := Vector3.mk (Vector3.z first) (Vector3.z second) (Vector3.z third) in
    let query := Vector3.mk #j (Vector3.y first + #i) #0 in
    cl = (j, to_int (Vector3.y first + #i),
          Vector3.dot (Util.barycentric query _first _second _third) zs).
Proof.
  unfold Renderer.fillPolygon_calls, Renderer.fillPolygon_rows.
  destruct (Renderer.deformed _ _ _); [by intros ?%elem_of_nil|].
  destruct (Renderer.sort_vertices _ _ _) as [[first second] third].
  intros Hin. apply list_elem_of_join in Hin as (row & Hcl & Hrow).
  apply list_elem_of_fmap in Hrow as ([i' calls] & -> & Hrow).
  apply list_elem_of_fmap in Hrow as (i & [= -> ->] & _).
  cbn [snd] in Hcl. unfold Renderer.scanline in Hcl.
  destruct (Renderer.span _ _ _ _ _) as [j0 Bx].
  apply scan_calls in Hcl as (j & ->). by exists i, j.
Qed.

End FillDepth.

Section FillDepthBinary32.
Import Binary32 Samples.
Local Open Scope float_scope.

(** C10: [fillPolygon] takes its weights from [barycentric] on full
    3-component vectors, the vertices with their depths and the query
    point with z = 0.  On the triangle (0,0,1), (4,0,2), (0,4,3), whose
    depths are distinct and nonzero, the pixel (1,1) is submitted with
    weights (0.75, ~1/6, ~1/12) where the 2D weights are
    (0.5, 0.25, 0.25), and its depth differs from the 2D interpolation. *)
Theorem fillPolygon_depth_not_2D :
  (forall (a b c : Vector3.t float) (cl : Renderer.call float),
     cl ∈ Renderer.fillPolygon_calls a b c ->
     exists i j : Z,
       let '(first, second, third) := Renderer.sort_vertices a b c in
       let zs := Vector3.mk (Vector3.z first) (Vector3.z second) (Vector3.z third) in
       let query := Vector3.mk #j (Vector3.y first + #i) #0 in
       cl = (j, to_int (Vector3.y first + #i),
             Vector3.dot (Util.barycentric query a b c) zs))
  /\ let a := v3 0 0 1 in
     let b := v3 4 0 2 in
     let c := v3 0 4 3 in
     let zs := v3 1 2 3 in
     let query := v3 1 1 0 in
     let weights := Util.barycentric query a b c in
     Renderer.fillPolygon_calls a b c !! 6%nat
       = Some (1%Z, 1%Z, Vector3.dot weights zs)
     /\ weights <> barycentric2D query a b c
     /\ Vector3.x weights = S754_finite false 12582912 (-24)
     /\ Vector3.x (barycentric2D query a b c) = S754_finite false 8388608 (-24)
     /\ Vector3.dot weights zs <> Vector3.dot (barycentric2D query a b c) zs
     /\ (Vector3.dot weights zs <? Vector3.dot (barycentric2D query a b c) zs) = true.
Proof.
  split; [apply fillPolygon_calls_depth|].
  repeat split; by vm_compute.
Qed.

End FillDepthBinary32.

Section FillDepthExact.
Local Open Scope R_scope.

(** The same triangle in exact arithmetic: the weights of the query point
    (1,1,0) are (3/4, 1/6, 1/12) and give the depth 4/3; the 2D weights
    are (1/2, 1/4, 1/4) and give the depth 7/4. *)
Lemma barycentric_3D_vs_2D :
  let a := Vector3.mk 0 0 1 in
  let b := Vector3.mk 4 0 2 in
  let c := Vector3.mk 0 4 3 in
  let zs := Vector3.mk 1 2 3 in
  let query := Vector3.mk 1 1 0 in
  Util.barycentric query a b c = Vector3.mk (3 / 4) (1 / 6) (1 / 12)
  /\ barycentric2D query a b c = Vector3.mk (1 / 2) (1 / 4) (1 / 4)
  /\ Vector3.dot (Util.barycentric query a b c) zs = 4 / 3
  /\ Vector3.dot (barycentric2D query a b c) zs = 7 / 4.
Proof.
  to_reals. repeat split; try apply vector3_eq; field.
Qed.

End FillDepthExact.

(** ** Draw order and the depth buffer *)

Section DepthSteps.
Context {F : Type} `{Scalar F}.
Local Open Scope float_scope.

(** [drawPoint] acts on the z-buffer as [depth_step], whatever the brush
    and the surface, and keeps the viewport. *)
Lemma drawPoint_depth_step (r : Renderer.t F) x y z br :
  Renderer.zbuffer <$> Renderer.drawPoint x y z br r
  = depth_step (Renderer.viewportX r) (Renderer.viewportY r) (x, y, z)
               (Renderer.zbuffer r).
Proof.
  unfold Renderer.drawPoint, depth_step, depth_update.
  destruct (_ && _); [|done].
  destruct (Renderer.zbuffer r !! (x, y)) as [stored|]; [|done]. simpl.
  by destruct (_ >? _).
Qed.

Lemma drawPoint_viewport (r r' : Renderer.t F) x y z br :
  Renderer.drawPoint x y z br r = Some r' ->
  Renderer.viewportX r' = Renderer.viewportX r
  /\ Renderer.viewportY r' = Renderer.viewportY r.
Proof.
  unfold Renderer.drawPoint.
  destruct (_ && _); [|by intros [= <-]].
  destruct (Renderer.zbuffer r !! (x, y)) as [stored|]; [|done]. simpl.
  by destruct (_ >? _); intros [= <-].
Qed.

Lemma drawPoints_viewport (br : Color) (cs : list (Renderer.call F))
    (r r' : Renderer.t F) :
  Renderer.drawPoints br cs r = Some r' ->
  Renderer.viewportX r' = Renderer.viewportX r
  /\ Renderer.viewportY r' = Renderer.viewportY r.
Proof.
  revert r. induction cs as [|[[x y] z] cs IH]; intros r; simpl.
  - by intros [= <-].
  - destruct (Renderer.drawPoint x y z br r) as [r1|] eqn:Hstep; [|done].
    simpl. intros Hrest.
    destruct (drawPoint_viewport _ _ _ _ _ _ Hstep) as [<- <-]. by apply IH.
Qed.

Lemma drawPoints_depth_steps (br : Color) (cs : list (Renderer.call F))
    (r : Renderer.t F) :
  Renderer.zbuffer <$> Renderer.drawPoints br cs r
  = depth_steps (Renderer.viewportX r) (Renderer.viewportY r) cs
                (Renderer.zbuffer r).
Proof.
  revert r. induction cs as [|[[x y] z] cs IH]; intros r; [done|].
  change (Renderer.drawPoints br ((x, y, z) :: cs) r)
    with (Renderer.drawPoint x y z br r ≫= Renderer.drawPoints br cs).
  change (depth_steps (Renderer.viewportX r) (Renderer.viewportY r)
            ((x, y, z) :: cs) (Renderer.zbuffer r))
    with (depth_step (Renderer.viewportX r) (Renderer.viewportY r) (x, y, z)
            (Renderer.zbuffer r)
          ≫= depth_steps (Renderer.viewportX r) (Renderer.viewportY r) cs).
  rewrite <- (drawPoint_depth_step r x y z br).
  destruct (Renderer.drawPoint x y z br r) as [r1|] eqn:Hstep; [|done].
  destruct (drawPoint_viewport _ _ _ _ _ _ Hstep) as [<- <-].
  apply IH.
Qed.

Lemma depth_steps_app (width height : Z) (cs1 cs2 : list (Renderer.call F))
    (zb : gmap (Z * Z) F) :
  depth_steps width height (cs1 ++ cs2) zb
  = depth_steps width height cs1 zb ≫= depth_steps width height cs2.
Proof.
  revert zb. induction cs1 as [|c cs1 IH]; intros zb; [done|].
  change (depth_steps width height ((c :: cs1) ++ cs2) zb)
    with (depth_step width height c zb ≫= depth_steps width height (cs1 ++ cs2)).
  change (depth_steps width height (c :: cs1) zb)
    with (depth_step width height c zb ≫= depth_steps width height cs1).
  destruct (depth_step width height c zb) as [zb1|]; [|done]. apply IH.
Qed.

(** Two fills in a row, when the loops of both exit, act on the z-buffer
    as the calls of the first followed by the calls of the second. *)
Lemma fills_depth_steps (r : Renderer.t F) (a1 a2 a3 na b1 b2 b3 nb : Vector3.t F)
    (bra brb : Color) :
  Renderer.zbuffer <$>
    (Renderer.fillPolygon a1 a2 a3 na bra r ≫= Renderer.fillPolygon b1 b2 b3 nb brb)
  = if Renderer.fillPolygon_returns a1 a2 a3 && Renderer.fillPolygon_returns b1 b2 b3
    then depth_steps (Renderer.viewportX r) (Renderer.viewportY r)
           (Renderer.fillPolygon_calls a1 a2 a3 ++ Renderer.fillPolygon_calls b1 b2 b3)
           (Renderer.zbuffer r)
    else None.
Proof.
  unfold Renderer.fillPolygon.
  destruct (Renderer.fillPolygon_returns a1 a2 a3); [|done].
  destruct (Renderer.fillPolygon_returns b1 b2 b3); cbn [andb].
  - rewrite depth_steps_app.
    rewrite <- (drawPoints_depth_steps bra).
    destruct (Renderer.drawPoints bra _ r) as [r1|] eqn:Hfirst; [|done].
    cbn [mbind option_bind fmap option_fmap option_map].
    rewrite drawPoints_depth_steps.
    by destruct (drawPoints_viewport _ _ _ _ Hfirst) as [-> ->].
  - by destruct (Renderer.drawPoints bra _ r).
Qed.

End DepthSteps.

Section DrawOrder.
Context {F : Type} `{StrictOrderScalar F}.
Local Open Scope float_scope.

(** On one cell, two candidates of which one is strictly greater commute. *)
Lemma depth_update_comm_cell (p : Z * Z) (k1 k2 : F) (zb : gmap (Z * Z) F) :
  (k1 >? k2) = true ->
  depth_update p k1 zb ≫= depth_update p k2
  = depth_update p k2 zb ≫= depth_update p k1.
Proof.
  intros H12. pose proof (greater_asym _ _ H12) as H21.
  unfold depth_update.
  destruct (zb !! p) as [s|] eqn:Hs; [|done]. cbn [mbind option_bind].
  destruct (k1 >? s) eqn:H1, (k2 >? s) eqn:H2;
    rewrite ?lookup_insert_eq, ?Hs; cbn [mbind option_bind];
    rewrite ?H1, ?H2, ?H12, ?H21, ?insert_insert_eq; try done.
  by rewrite (greater_trans _ _ _ H12 H2) in H1.
Qed.

(** On two cells the depth tests do not interact. *)
Lemma depth_update_comm_cells (p1 p2 : Z * Z) (k1 k2 : F) (zb : gmap (Z * Z) F) :
  p1 <> p2 ->
  depth_update p1 k1 zb ≫= depth_update p2 k2
  = depth_update p2 k2 zb ≫= depth_update p1 k1.
Proof.
  intros Hne. unfold depth_update.
  destruct (zb !! p1) as [s1|] eqn:Hs1, (zb !! p2) as [s2|] eqn:Hs2;
    cbn [mbind option_bind].
  - destruct (k1 >? s1) eqn:H1, (k2 >? s2) eqn:H2;
      rewrite ?lookup_insert_ne by done; rewrite ?Hs1, ?Hs2;
      cbn [mbind option_bind]; rewrite ?H1, ?H2; try done.
    by rewrite insert_insert_ne.
  - destruct (k1 >? s1); rewrite ?lookup_insert_ne by done; by rewrite Hs2.
  - destruct (k2 >? s2); rewrite ?lookup_insert_ne by done; by rewrite Hs1.
  - done.
Qed.

Lemma depth_step_comm_apart (width height : Z) (c1 c2 : Renderer.call F)
    (zb : gmap (Z * Z) F) :
  apart c1 c2 = true ->
  depth_step width height c1 zb ≫= depth_step width height c2
  = depth_step width height c2 zb ≫= depth_step width height c1.
Proof.
  destruct c1 as [[x1 y1] z1], c2 as [[x2 y2] z2]. unfold apart, depth_step.
  set (k1 := #1 / z1). set (k2 := #1 / z2). intros Hap.
  destruct ((0 <? x1)%Z && (x1 <? width)%Z && (0 <? y1)%Z && (y1 <? height)%Z),
           ((0 <? x2)%Z && (x2 <? width)%Z && (0 <? y2)%Z && (y2 <? height)%Z);
    cbn [mbind option_bind];
    [|by destruct (depth_update _ _ zb)|by destruct (depth_update _ _ zb)|done].
  destruct ((x1 =? x2)%Z && (y1 =? y2)%Z) eqn:Hsame.
  - apply andb_true_iff in Hsame as [->%Z.eqb_eq ->%Z.eqb_eq].
    apply orb_true_iff in Hap as [Hgt|Hgt].
    + by apply depth_update_comm_cell.
    + symmetry. by apply depth_update_comm_cell.
  - apply depth_update_comm_cells. intros [= -> ->].
    by rewrite !Z.eqb_refl in Hsame.
Qed.

(** A call moves behind a sequence of calls it is apart from. *)
Lemma depth_steps_move (width height : Z) (c : Renderer.call F)
    (cs : list (Renderer.call F)) (zb : gmap (Z * Z) F) :
  forallb (apart c) cs = true ->
  depth_steps width height (c :: cs) zb = depth_steps width height (cs ++ [c]) zb.
Proof.
  revert zb. induction cs as [|c' cs IH]; intros zb Hap; [done|].
  apply andb_true_iff in Hap as [Hc Hcs].
  pose proof (depth_step_comm_apart width height c c' zb Hc) as Hcomm.
  cbn [depth_steps app].
  destruct (depth_step width height c' zb) as [zb'|] eqn:Hstep'.
  - cbn [mbind option_bind] in *. rewrite <- (IH zb' Hcs). cbn [depth_steps].
    destruct (depth_step width height c zb) as [zb1|];
      cbn [mbind option_bind] in *; [by rewrite Hcomm|by rewrite <- Hcomm].
  - cbn [mbind option_bind] in *.
    destruct (depth_step width height c zb) as [zb1|];
      cbn [mbind option_bind] in *; [by rewrite Hcomm|done].
Qed.

Lemma depth_steps_app_comm (width height : Z) (csa csb : list (Renderer.call F))
    (zb : gmap (Z * Z) F) :
  distinct_depths csa csb = true ->
  depth_steps width height (csa ++ csb) zb = depth_steps width height (csb ++ csa) zb.
Proof.
  revert zb. induction csa as [|c csa IH]; intros zb Hd.
  - by rewrite app_nil_r.
  - apply andb_true_iff in Hd as [Hc Hd].
    transitivity (depth_steps width height ((c :: csb) ++ csa) zb).
    + cbn [depth_steps app].
      destruct (depth_step width height c zb) as [zb1|]; [|done].
      cbn [mbind option_bind]. by apply IH.
    + rewrite depth_steps_app, (depth_steps_move _ _ _ _ _ Hc).
      rewrite <- depth_steps_app. by rewrite <- app_assoc.
Qed.

Lemma greater_irrefl (a : F) : (a >? a) = false.
Proof.
  destruct (a >? a) eqn:Ha; [|done]. by rewrite (greater_asym _ _ Ha) in Ha.
Qed.

(** What a cell holds after one depth test: the candidate when it is
    strictly greater than the stored value, the stored value otherwise. *)
Lemma depth_update_lookup (p q : Z * Z) (k v0 : F) (zb zb' : gmap (Z * Z) F) :
  depth_update p k zb = Some zb' -> zb !! q = Some v0 ->
  zb' !! q = Some (if bool_decide (p = q) && (k >? v0) then k else v0).
Proof.
  unfold depth_update. intros Hup Hq.
  destruct (zb !! p) as [s|] eqn:Hs; [|done]. cbn [mbind option_bind] in Hup.
  injection Hup as <-. destruct (decide (p = q)) as [->|Hne].
  - rewrite bool_decide_eq_true_2 by done. rewrite Hq in Hs. injection Hs as <-.
    cbn [andb]. destruct (k >? v0); [by rewrite lookup_insert_eq|done].
  - rewrite bool_decide_eq_false_2 by done. cbn [andb].
    destruct (k >? s); [by rewrite lookup_insert_ne|done].
Qed.

(** After a sequence of calls, a cell holds the greatest of its stored
    value and the candidates submitted to it: one of them, and none of
    them is strictly greater. *)
Lemma depth_steps_greatest (width height : Z) (cs : list (Renderer.call F))
    (p : Z * Z) :
  forall (zb zb' : gmap (Z * Z) F) (v0 : F),
    depth_steps width height cs zb = Some zb' -> zb !! p = Some v0 ->
    exists v', zb' !! p = Some v'
      /\ (v' = v0 \/ (v' >? v0) = true)
      /\ v' ∈ v0 :: candidates width height p cs
      /\ forall k, k ∈ v0 :: candidates width height p cs -> (k >? v') = false.
Proof.
  induction cs as [|[[x y] z] cs IH]; intros zb zb' v0 Hrun Hv0.
  - injection Hrun as <-. exists v0. split; [done|]. split; [by left|].
    split; [apply list_elem_of_here|].
    intros k ->%list_elem_of_singleton. apply greater_irrefl.
  - cbn [depth_steps] in Hrun.
    destruct (depth_step width height (x, y, z) zb) as [zb1|] eqn:Hstep; [|done].
    cbn [mbind option_bind] in Hrun. cbn [candidates omap list_omap].
    fold (candidates width height p cs).
    unfold depth_step in Hstep.
    destruct ((0 <? x)%Z && (x <? width)%Z && (0 <? y)%Z && (y <? height)%Z)
      eqn:Hb.
    + pose proof (depth_update_lookup _ p _ _ _ _ Hstep Hv0) as Hv1.
      destruct (bool_decide ((x, y) = p)) eqn:Hp; cbn [andb] in *.
      * destruct (IH zb1 zb' _ Hrun Hv1) as (v' & Hv' & Hmono & Hin & Hmax).
        exists v'. split; [done|].
        destruct (#1 / z >? v0) eqn:Hgt.
        -- assert (Hup : (v' >? v0) = true).
           { destruct Hmono as [->|Hgt']; [done|].
             by apply (greater_trans _ _ _ Hgt' Hgt). }
           split; [by right|]. split.
           ++ apply elem_of_cons in Hin as [->|Hin];
                [apply list_elem_of_further, list_elem_of_here|].
              by do 2 apply list_elem_of_further.
           ++ intros k [->|Hk]%elem_of_cons.
              ** by apply greater_asym.
              ** by apply Hmax.
        -- split; [done|]. split.
           ++ apply elem_of_cons in Hin as [->|Hin]; [apply list_elem_of_here|].
              by do 2 apply list_elem_of_further.
           ++ intros k [->|[->|Hk]%elem_of_cons]%elem_of_cons.
              ** apply Hmax, list_elem_of_here.
              ** destruct Hmono as [->|Hgt']; [done|].
                 destruct (#1 / z >? v') eqn:Hk; [|done].
                 by rewrite (greater_trans _ _ _ Hk Hgt') in Hgt.
              ** by apply Hmax, list_elem_of_further.
      * by apply (IH zb1 zb').
    + injection Hstep as <-. rewrite andb_false_r. by apply (IH zb zb').
Qed.

(** After two fills every cell holds the greatest of its stored value and
    the candidates the two triangles submit to it. *)
Lemma fills_keep_greatest (r rAB : Renderer.t F)
    (a1 a2 a3 na b1 b2 b3 nb : Vector3.t F) (bra brb : Color)
    (p : Z * Z) (v0 : F) :
  Renderer.fillPolygon a1 a2 a3 na bra r ≫= Renderer.fillPolygon b1 b2 b3 nb brb
    = Some rAB ->
  Renderer.zbuffer r !! p = Some v0 ->
  let submitted :=
    candidates (Renderer.viewportX r) (Renderer.viewportY r) p
      (Renderer.fillPolygon_calls a1 a2 a3 ++ Renderer.fillPolygon_calls b1 b2 b3) in
  exists v', Renderer.zbuffer rAB !! p = Some v'
    /\ v' ∈ v0 :: submitted
    /\ forall k, k ∈ v0 :: submitted -> (k >? v') = false.
Proof.
  intros Hrun Hv0 submitted.
  pose proof (fills_depth_steps r a1 a2 a3 na b1 b2 b3 nb bra brb) as Hsteps.
  rewrite Hrun in Hsteps. cbn [fmap option_fmap option_map] in Hsteps.
  destruct (_ && _); [|done].
  destruct (depth_steps_greatest _ _ _ p _ _ v0 (eq_sym Hsteps) Hv0)
    as (v' & Hv' & _ & Hin & Hmax).
  by exists v'.
Qed.

(** Two fills whose depths are distinct at every shared pixel leave the
    same depth buffer in either order. *)
Lemma fills_commute_on_depth (r : Renderer.t F)
    (a1 a2 a3 na b1 b2 b3 nb : Vector3.t F) (bra brb : Color) :
  distinct_depths (Renderer.fillPolygon_calls a1 a2 a3)
                  (Renderer.fillPolygon_calls b1 b2 b3) = true ->
  Renderer.zbuffer <$>
    (Renderer.fillPolygon a1 a2 a3 na bra r ≫= Renderer.fillPolygon b1 b2 b3 nb brb)
  = Renderer.zbuffer <$>
      (Renderer.fillPolygon b1 b2 b3 nb brb r ≫= Renderer.fillPolygon a1 a2 a3 na bra).
Proof.
  intros Hd. rewrite !fills_depth_steps, (andb_comm (Renderer.fillPolygon_returns b1 b2 b3)).
  destruct (_ && _); [|done]. by apply depth_steps_app_comm.
Qed.

End DrawOrder.

Section DrawOrderExact.
Local Open Scope R_scope.

Lemma greater_exact (k s : R) : fgtb k s = true <-> s < k.
Proof.
  unfold fgtb. cbn [fltb Exact.scalar].
  destruct (Rlt_dec s k); split; intros; done.
Qed.

Lemma greater_exact_false (k s : R) : fgtb k s = false <-> k <= s.
Proof.
  unfold fgtb. cbn [fltb Exact.scalar].
  destruct (Rlt_dec s k); split; intros; try done; lra.
Qed.

(** Reciprocal depth: of two positive depths the smaller one, closer to
    the camera, has the greater candidate. *)
Lemma closer_is_greater (z1 z2 : R) :
  0 < z1 < z2 -> fgtb (fdiv (of_int 1) z1) (fdiv (of_int 1) z2) = true.
Proof.
  intros [H1 H2]. apply greater_exact. cbn [fdiv of_int Exact.scalar].
  unfold Rdiv. rewrite !Rmult_1_l. apply Rinv_lt_contravar; [nra|done].
Qed.

(** Two depth tests commute: on one cell both orders keep the larger
    candidate, on two cells they do not interact. *)
Lemma depth_update_comm (p1 p2 : Z * Z) (k1 k2 : R) (zb : gmap (Z * Z) R) :
  depth_update p1 k1 zb ≫= depth_update p2 k2
  = depth_update p2 k2 zb ≫= depth_update p1 k1.
Proof.
  unfold depth_update.
  destruct (decide (p1 = p2)) as [->|Hne].
  - destruct (zb !! p2) as [s|] eqn:Hs; [|done]. cbn [mbind option_bind].
    destruct (fgtb k1 s) eqn:H1, (fgtb k2 s) eqn:H2;
      rewrite ?lookup_insert_eq, ?Hs; cbn [mbind option_bind];
      rewrite ?H1, ?H2.
    all: try apply greater_exact in H1; try apply greater_exact_false in H1;
         try apply greater_exact in H2; try apply greater_exact_false in H2.
    + destruct (fgtb k2 k1) eqn:H3, (fgtb k1 k2) eqn:H4;
        rewrite ?insert_insert_eq;
        try apply greater_exact in H3; try apply greater_exact_false in H3;
        try apply greater_exact in H4; try apply greater_exact_false in H4;
        try done; try lra.
      assert (k1 = k2) as -> by lra. done.
    + destruct (fgtb k2 k1) eqn:H3; [apply greater_exact in H3; lra|done].
    + destruct (fgtb k1 k2) eqn:H3; [apply greater_exact in H3; lra|done].
    + done.
  - destruct (zb !! p1) as [s1|] eqn:Hs1, (zb !! p2) as [s2|] eqn:Hs2;
      cbn [mbind option_bind].
    + destruct (fgtb k1 s1) eqn:H1, (fgtb k2 s2) eqn:H2;
        rewrite ?lookup_insert_ne by done; rewrite ?Hs1, ?Hs2;
        cbn [mbind option_bind]; rewrite ?H1, ?H2; try done.
      by rewrite insert_insert_ne.
    + destruct (fgtb k1 s1); rewrite ?lookup_insert_ne by done; by rewrite Hs2.
    + destruct (fgtb k2 s2); rewrite ?lookup_insert_ne by done; by rewrite Hs1.
    + done.
Qed.

Lemma depth_step_comm (width height : Z) (c1 c2 : Renderer.call R)
    (zb : gmap (Z * Z) R) :
  depth_step width height c1 zb ≫= depth_step width height c2
  = depth_step width height c2 zb ≫= depth_step width height c1.
Proof.
  destruct c1 as [[x1 y1] z1], c2 as [[x2 y2] z2]. unfold depth_step.
  destruct (_ && _), (_ && _); cbn [mbind option_bind].
  - apply depth_update_comm.
  - by destruct (depth_update _ _ zb).
  - by destruct (depth_update _ _ zb).
  - done.
Qed.

(** The z-buffer after a sequence of calls depends on the calls, not on
    their order. *)
Lemma depth_steps_permutation (width height : Z) (cs cs' : list (Renderer.call R)) :
  Permutation cs cs' ->
  forall zb, depth_steps width height cs zb = depth_steps width height cs' zb.
Proof.
  induction 1 as [|c cs cs' _ IH|c1 c2 cs|cs cs' cs'' _ IH1 _ IH2]; intros zb.
  - done.
  - simpl. destruct (depth_step width height c zb) as [zb1|]; [|done]. apply IH.
  - pose proof (depth_step_comm width height c1 c2 zb) as Hcomm.
    cbn [depth_steps].
    destruct (depth_step width height c1 zb) as [zb1|],
             (depth_step width height c2 zb) as [zb2|];
      cbn [mbind option_bind] in *;
      first [done | by rewrite Hcomm | by rewrite <- Hcomm].
  - by rewrite IH1.
Qed.

(** In exact arithmetic, whatever real the reciprocal of a zero depth is,
    filling triangle A then B leaves the same depth
    buffer as filling B then A, whatever the two triangles (a fill that does
    not return in one order does not return in the other). *)
Lemma depth_buffer_order_independent_exact (r : Renderer.t R)
    (a1 a2 a3 na b1 b2 b3 nb : Vector3.t R) (bra brb : Color) :
  Renderer.zbuffer <$>
    (Renderer.fillPolygon a1 a2 a3 na bra r ≫= Renderer.fillPolygon b1 b2 b3 nb brb)
  = Renderer.zbuffer <$>
      (Renderer.fillPolygon b1 b2 b3 nb brb r ≫= Renderer.fillPolygon a1 a2 a3 na bra).
Proof.
  rewrite !fills_depth_steps, (andb_comm (Renderer.fillPolygon_returns b1 b2 b3)).
  destruct (_ && _); [|done].
  apply depth_steps_permutation, Permutation_app_comm.
Qed.

End DrawOrderExact.

Section DrawOrderBinary32.
Import Binary32 Samples.
Local Open Scope float_scope.

Lemma SFltb_asym (a b : float) : SFltb a b = true -> SFltb b a = false.
Proof.
  unfold SFltb, SFcompare.
  destruct a as [[]|[]| |[] ma ea], b as [[]|[]| |[] mb eb]; try done;
    compare_cases; simpl; try done; lia.
Qed.

Lemma SFltb_trans (a b c : float) :
  SFltb a b = true -> SFltb b c = true -> SFltb a c = true.
Proof.
  unfold SFltb, SFcompare.
  destruct a as [[]|[]| |[] ma ea], b as [[]|[]| |[] mb eb],
           c as [[]|[]| |[] mc ec]; try done;
    compare_cases; simpl; try done; lia.
Qed.

(** The binary32 comparison is a strict order, NaN and signed zeros
    included. *)
Lemma binary32_strict_order : StrictOrderScalar float.
Proof.
  split; unfold fgtb; cbn [fltb scalar].
  - intros a b. apply SFltb_asym.
  - intros a b c Hab Hbc. by apply (SFltb_trans c b a).
Qed.

(** C9, as the code has it (binary32): when the reciprocal depths of
    triangles A and B are strictly ordered, one way or the other, at every
    pixel both submit, filling A then B leaves the same depth buffer as
    filling B then A (a fill that does not return in one order does not
    return in the other), and every cell ends with the greatest of the
    value it held and the reciprocal depths the two triangles submit to
    it: the cell holds one of them, and none of them is strictly greater. *)
Theorem fill_order_depth_buffer (r : Renderer.t float)
    (a1 a2 a3 na b1 b2 b3 nb : Vector3.t float) (bra brb : Color) :
  distinct_depths (Renderer.fillPolygon_calls a1 a2 a3)
                  (Renderer.fillPolygon_calls b1 b2 b3) = true ->
  Renderer.zbuffer <$>
    (Renderer.fillPolygon a1 a2 a3 na bra r ≫= Renderer.fillPolygon b1 b2 b3 nb brb)
  = Renderer.zbuffer <$>
      (Renderer.fillPolygon b1 b2 b3 nb brb r ≫= Renderer.fillPolygon a1 a2 a3 na bra)
  /\ forall (rAB : Renderer.t float) (p : Z * Z) (v0 : float),
       Renderer.fillPolygon a1 a2 a3 na bra r
         ≫= Renderer.fillPolygon b1 b2 b3 nb brb = Some rAB ->
       Renderer.zbuffer r !! p = Some v0 ->
       let submitted :=
         candidates (Renderer.viewportX r) (Renderer.viewportY r) p
           (Renderer.fillPolygon_calls a1 a2 a3
            ++ Renderer.fillPolygon_calls b1 b2 b3) in
       exists v', Renderer.zbuffer rAB !! p = Some v'
         /\ v' ∈ v0 :: submitted
         /\ forall k, k ∈ v0 :: submitted -> (k >? v') = false.
Proof.
  intros Hd. split.
  - by apply (fills_commute_on_depth (H0 := binary32_strict_order)).
  - intros rAB p v0.
    apply (fills_keep_greatest (H0 := binary32_strict_order)).
Qed.

Lemma fill_order_depth_buffer_witness :
  distinct_depths (Renderer.fillPolygon_calls (v3 1 1 1) (v3 3 1 1) (v3 1 3 1))
                  (Renderer.fillPolygon_calls (v3 1 1 2) (v3 5 1 2) (v3 1 5 2)) = true
  /\ Renderer.zbuffer <$>
       (Renderer.fillPolygon (v3 1 1 1) (v3 3 1 1) (v3 1 3 1) (v3 0 0 1) Yellow fresh
        ≫= Renderer.fillPolygon (v3 1 1 2) (v3 5 1 2) (v3 1 5 2) (v3 0 0 1) Blue)
     = Renderer.zbuffer <$>
         (Renderer.fillPolygon (v3 1 1 2) (v3 5 1 2) (v3 1 5 2) (v3 0 0 1) Blue fresh
          ≫= Renderer.fillPolygon (v3 1 1 1) (v3 3 1 1) (v3 1 3 1) (v3 0 0 1) Yellow)
  /\ exists rAB : Renderer.t float,
       Renderer.fillPolygon (v3 1 1 1) (v3 3 1 1) (v3 1 3 1) (v3 0 0 1) Yellow fresh
         ≫= Renderer.fillPolygon (v3 1 1 2) (v3 5 1 2) (v3 1 5 2) (v3 0 0 1) Blue
       = Some rAB
       /\ candidates 6 6 (2%Z, 1%Z)
            (Renderer.fillPolygon_calls (v3 1 1 1) (v3 3 1 1) (v3 1 3 1)
             ++ Renderer.fillPolygon_calls (v3 1 1 2) (v3 5 1 2) (v3 1 5 2))
          = [ #1; #1 / #2 ]
       /\ Renderer.zbuffer rAB !! (2%Z, 1%Z) = Some #1.
Proof.
  assert (Hd : distinct_depths
                 (Renderer.fillPolygon_calls (v3 1 1 1) (v3 3 1 1) (v3 1 3 1))
                 (Renderer.fillPolygon_calls (v3 1 1 2) (v3 5 1 2) (v3 1 5 2)) = true)
    by (vm_compute; reflexivity).
  destruct (fill_order_depth_buffer fresh (v3 1 1 1) (v3 3 1 1) (v3 1 3 1) (v3 0 0 1)
              (v3 1 1 2) (v3 5 1 2) (v3 1 5 2) (v3 0 0 1) Yellow Blue Hd)
    as [Hsame _].
  split; [exact Hd|]. split; [exact Hsame|].
  eexists. split; [vm_compute; reflexivity|].
  split; vm_compute; reflexivity.
Defined.

(** C9 as stated fails: the near triangle A (depth 1, yellow) and the far
    triangle B (depth 2, blue) overlap with distinct depths at every
    shared pixel, and the pixel (4,1) ends blue after A then B and yellow
    after B then A, because an accepted point paints a 2x2 rectangle.  The
    two depth buffers are equal. *)
Lemma fill_order_changes_colours :
  distinct_depths (calls_of nearA) (calls_of farB) = true
  /\ exists rAB rBA : Renderer.t float,
       fill nearA Yellow fresh ≫= fill farB Blue = Some rAB
       /\ fill farB Blue fresh ≫= fill nearA Yellow = Some rBA
       /\ Renderer.graphics rAB !! (4%Z, 1%Z) = Some Blue
       /\ Renderer.graphics rBA !! (4%Z, 1%Z) = Some Yellow
       /\ Renderer.zbuffer rAB = Renderer.zbuffer rBA.
Proof.
  split; [by vm_compute|].
  eexists _, _. split; [by vm_compute|]. split; [by vm_compute|].
  by vm_compute.
Qed.

End DrawOrderBinary32.

(** ** Loop bounds in exact arithmetic *)

Section LoopsExact.
Local Open Scope R_scope.

Lemma Rtrunc_upper (r : R) : r < IZR (Exact.Rtrunc r) + 1.
Proof.
  unfold Exact.Rtrunc. destruct (Rle_dec 0 r) as [Hr|Hr].
  - destruct (base_Int_part r) as [_ Hlow]. lra.
  - destruct (base_Int_part (- r)) as [Hup _]. rewrite opp_IZR. lra.
Qed.

Lemma Rtrunc_fraction (r : R) : 0 <= r < 1 -> Exact.Rtrunc r = 0%Z.
Proof.
  intros [H0 H1]. unfold Exact.Rtrunc. destruct (Rle_dec 0 r) as [_|Hr]; [|lra].
  destruct (base_Int_part r) as [Hup Hlow].
  assert (-1 < Int_part r < 1)%Z; [|lia].
  split; apply lt_IZR; lra.
Qed.

Lemma Rtrunc_near (r : R) : Rabs (r - IZR (Exact.Rtrunc r)) < 1.
Proof.
  unfold Exact.Rtrunc. destruct (Rle_dec 0 r) as [Hr|Hr].
  - destruct (base_Int_part r) as [Hup Hlow].
    apply Rabs_def1; lra.
  - destruct (base_Int_part (- r)) as [Hup Hlow]. rewrite opp_IZR.
    apply Rabs_def1; lra.
Qed.

Lemma to_Z_in_range (r : R) :
  (INT_MIN <= Exact.Rtrunc r <= INT_MAX)%Z -> Exact.to_Z r = Exact.Rtrunc r.
Proof.
  intros Hr. unfold Exact.to_Z. by rewrite (proj2 (in_int_spec _) Hr).
Qed.

Lemma to_Z_range (r : R) : (INT_MIN <= Exact.to_Z r <= INT_MAX)%Z.
Proof.
  unfold Exact.to_Z. destruct (in_int _) eqn:Hr; [by apply in_int_spec|].
  int_lia.
Qed.

Lemma to_Z_fraction (r : R) : 0 <= r < 1 -> Exact.to_Z r = 0%Z.
Proof.
  intros Hr. rewrite to_Z_in_range; rewrite Rtrunc_fraction by done;
    [done|int_lia].
Qed.

(** In exact arithmetic the loop over [j] of [fillPolygon] exits by its
    own test whenever its bound [B.x] lies below [INT_MAX]. *)
Lemma scan_returns_exact (j0 : Z) (Bx : R) :
  (INT_MIN <= j0 <= INT_MAX)%Z -> Bx < IZR INT_MAX ->
  Renderer.scan_returns j0 Bx = true.
Proof.
  intros Hj HB. unfold Renderer.scan_returns, Renderer.scan_exit.
  set (cond := fun j : Z => (#j <=? Bx)%flt && (j <=? INT_MAX)%Z).
  assert (Hexit : cond (iterate cond Z.succ 32 j0) = false).
  { apply (iterate_exits cond Z.succ (fun j => (INT_MIN <= j)%Z)
             (fun j => (INT_MAX - j)%Z)); [|lia|int_lia].
    intros j Hinv Hc. unfold cond in Hc.
    apply andb_true_iff in Hc as [_ Hle%Z.leb_le]. lia. }
  assert (Hinv : (iterate cond Z.succ 32 j0 <= INT_MAX)%Z).
  { apply (iterate_ind cond Z.succ (fun j => (j <= INT_MAX)%Z)); [lia|].
    intros j _ Hc. unfold cond in Hc.
    apply andb_true_iff in Hc as [Htest _].
    cbn [fleb of_int Exact.scalar] in Htest.
    destruct (Rle_dec (IZR j) Bx) as [Hle|]; [|done].
    assert (Hlt : (j < INT_MAX)%Z) by (apply lt_IZR; lra). lia. }
  unfold cond in Hexit at 1.
  rewrite (proj2 (Z.leb_le _ _) Hinv), andb_true_r in Hexit.
  by rewrite (proj2 (Z.leb_le _ _) Hinv), Hexit.
Qed.

(** A zero-length line, from a point with coordinates in the range of
    [int] to itself, makes no [drawPoint] call and returns the renderer
    unchanged. *)
Lemma drawLine_zero_length (from : Vector3.t R) (r : Renderer.t R) :
  (INT_MIN <= Exact.Rtrunc (Vector3.x from) <= INT_MAX)%Z ->
  (INT_MIN <= Exact.Rtrunc (Vector3.y from) <= INT_MAX)%Z ->
  Renderer.drawLine_calls from from = []
  /\ Renderer.drawLine from from r = Some r.
Proof.
  intros Hx Hy.
  assert (Hdx : to_int (fabs (Vector3.x from - #(to_int (Vector3.x from))))%flt
                = 0%Z).
  { cbn [fabs fsub of_int to_int Exact.scalar]. rewrite (to_Z_in_range _ Hx).
    apply to_Z_fraction. split; [apply Rabs_pos|apply Rtrunc_near]. }
  assert (Hdy : to_int (fabs (Vector3.y from - #(to_int (Vector3.y from))))%flt
                = 0%Z).
  { cbn [fabs fsub of_int to_int Exact.scalar]. rewrite (to_Z_in_range _ Hy).
    apply to_Z_fraction. split; [apply Rabs_pos|apply Rtrunc_near]. }
  assert (Hcalls : Renderer.drawLine_calls from from = []).
  { apply length_zero_iff_nil. rewrite drawLine_calls_length.
    cbv zeta. by rewrite Hdx, Hdy. }
  split; [done|]. unfold Renderer.drawLine, Renderer.drawLine_returns,
    Renderer.drawLine_rounds. cbv zeta. rewrite Hdx, Hdy, Hcalls. done.
Qed.

End LoopsExact.

(** ** The exact laws on binary32 inputs without rounding *)

Section SanityBinary32.
Import Binary32 Samples.
Local Open Scope float_scope.

(** On a triangle and a point whose weights are dyadic, binary32 computes
    them exactly: they sum to one and rebuild the point. *)
Example barycentric_binary32 :
  let a := v3 0 0 0 in
  let b := v3 4 0 0 in
  let c := v3 0 4 0 in
  let k := Util.barycentric (v3 1 1 0) a b c in
  k = Vector3.mk (#1 / #2) (#1 / #4) (#1 / #4)
  /\ Vector3.x k + Vector3.y k + Vector3.z k = #1
  /\ combine k a b c = v3 1 1 0.
Proof. by vm_compute. Qed.

(** The depth of the target does not depend on [up]: with [up] parallel
    to [eye - target], where the right and up rows of the matrix are NaN,
    the camera at (0, 0, 5) still sees the origin at z = -5. *)
Example lookAt_binary32_parallel_up :
  Vector4.z (Matrix4.mulv (Util.lookAt (v3 0 0 5) (v3 0 0 0) (v3 0 0 1))
                          (point (v3 0 0 0)))
  = #(-5)
  /\ Vector4.x (Matrix4.mulv (Util.lookAt (v3 0 0 5) (v3 0 0 0) (v3 0 0 1))
                             (point (v3 0 0 0)))
     = NaN.
Proof. by vm_compute. Qed.

(** The camera at (0, 0, 5) looking at the origin sees it at z = -5. *)
Example lookAt_binary32 :
  Vector4.z (Matrix4.mulv (Util.lookAt (v3 0 0 5) (v3 0 0 0) (v3 0 1 0))
                          (point (v3 0 0 0)))
  = #(-5).
Proof. by vm_compute. Qed.

End SanityBinary32.

(** * Further properties *)

(** ** The transform builders in exact arithmetic *)

Section TransformsExact.
Local Open Scope R_scope.

Lemma matrix_eq (l1 l2 : list R) : l1 = l2 -> Matrix4.mk l1 = Matrix4.mk l2.
Proof. by intros ->. Qed.

(** Applying a product is applying its factors, right factor first. *)
Lemma mulv_mul (A B : Matrix4.t R) (q : Vector4.t R) :
  Matrix4.mulv (Matrix4.mul A B) q = Matrix4.mulv A (Matrix4.mulv B q).
Proof.
  destruct q as [qx qy qz qw].
  cbv [Matrix4.mulv Matrix4.row_vec Matrix4.mul Matrix4.row_col
       Vector4.x Vector4.y Vector4.z Vector4.w fadd fmul Exact.scalar].
  simpl. f_equal; unfold Matrix4.get; simpl; ring.
Qed.

(** X1: [translate(M, v)] moves every transformed point by [v] (scaled by the
    point's w), and two translations add up. *)
Theorem translate_moves_points (M : Matrix4.t R) (u v : Vector3.t R)
    (q : Vector4.t R) :
  let p := Matrix4.mulv M q in
  Matrix4.mulv (Util.translate M v) q
  = Vector4.mk (Vector4.x p + Vector3.x v * Vector4.w p)
               (Vector4.y p + Vector3.y v * Vector4.w p)
               (Vector4.z p + Vector3.z v * Vector4.w p)
               (Vector4.w p)
  /\ Util.translate (Util.translate M u) v = Util.translate M (Vector3.add u v).
Proof.
  destruct u as [ux uy uz], v as [vx vy vz], q as [qx qy qz qw].
  builders_to_reals. split.
  - f_equal; ring.
  - apply matrix_eq. repeat (f_equal; try ring).
Qed.

(** X2: [scale(M, a)] multiplies the x, y, z of every transformed point by the
    components of [a], and two scalings multiply component by component. *)
Theorem scale_stretches_points (M : Matrix4.t R) (a b : Vector3.t R)
    (q : Vector4.t R) :
  let p := Matrix4.mulv M q in
  Matrix4.mulv (Util.scale M a) q
  = Vector4.mk (Vector3.x a * Vector4.x p) (Vector3.y a * Vector4.y p)
               (Vector3.z a * Vector4.z p) (Vector4.w p)
  /\ Util.scale (Util.scale M a) b
     = Util.scale M (Vector3.mk (Vector3.x a * Vector3.x b)
                                (Vector3.y a * Vector3.y b)
                                (Vector3.z a * Vector3.z b)).
Proof.
  destruct a as [ax ay az], b as [bx b_y bz], q as [qx qy qz qw].
  builders_to_reals. split.
  - f_equal; ring.
  - apply matrix_eq. repeat (f_equal; try ring).
Qed.

(** X3: Each reflection negates one coordinate of every transformed point;
    applied twice to a matrix of 16 entries it gives the matrix back, and
    two reflections commute. *)
Theorem reflections_are_involutions (M : Matrix4.t R) :
  well_formed M ->
  Util.reflectXY (Util.reflectXY M) = M
  /\ Util.reflectXZ (Util.reflectXZ M) = M
  /\ Util.reflectYZ (Util.reflectYZ M) = M
  /\ Util.reflectXY (Util.reflectXZ M) = Util.reflectXZ (Util.reflectXY M)
  /\ forall q : Vector4.t R,
       let p := Matrix4.mulv M q in
       Matrix4.mulv (Util.reflectXY M) q
         = Vector4.mk (Vector4.x p) (Vector4.y p) (- Vector4.z p) (Vector4.w p)
       /\ Matrix4.mulv (Util.reflectXZ M) q
         = Vector4.mk (Vector4.x p) (- Vector4.y p) (Vector4.z p) (Vector4.w p)
       /\ Matrix4.mulv (Util.reflectYZ M) q
         = Vector4.mk (- Vector4.x p) (Vector4.y p) (Vector4.z p) (Vector4.w p).
Proof.
  intros Hwf. matrix_entries M Hwf. builders_to_reals.
  repeat split; try (apply matrix_eq; repeat (f_equal; try ring)).
  all: destruct q as [qx qy qz qw]; simpl; f_equal; ring.
Qed.

Lemma reflections_are_involutions_witness :
  well_formed (Matrix4.identity (F := R))
  /\ Util.reflectXY (Util.reflectXY (Matrix4.identity (F := R)))
     = Matrix4.identity.
Proof.
  assert (Hwf : well_formed (Matrix4.identity (F := R))) by reflexivity.
  split; [exact Hwf|].
  exact (proj1 (reflections_are_involutions Matrix4.identity Hwf)).
Defined.

Lemma degToRad_plus (a b : R) :
  Util.degToRad (a + b) = Util.degToRad a + Util.degToRad b.
Proof. unfold Util.degToRad. simpl. field. Qed.

(** X4: Two rotations about one axis add their angles. *)
Theorem rotations_compose (M : Matrix4.t R) (a b : R) :
  Util.rotateX (Util.rotateX M a) b = Util.rotateX M (a + b)
  /\ Util.rotateY (Util.rotateY M a) b = Util.rotateY M (a + b)
  /\ Util.rotateZ (Util.rotateZ M a) b = Util.rotateZ M (a + b).
Proof.
  pose proof (degToRad_plus a b) as Hplus.
  assert (Hc : cos (Util.degToRad (a + b))
               = cos (Util.degToRad a) * cos (Util.degToRad b)
                 - sin (Util.degToRad a) * sin (Util.degToRad b))
    by (rewrite Hplus; apply cos_plus).
  assert (Hs : sin (Util.degToRad (a + b))
               = sin (Util.degToRad a) * cos (Util.degToRad b)
                 + cos (Util.degToRad a) * sin (Util.degToRad b))
    by (rewrite Hplus; apply sin_plus).
  unfold Util.rotateX, Util.rotateY, Util.rotateZ.
  cbn [fcos fsin Exact.trig].
  rewrite Hc, Hs.
  set (ca := cos (Util.degToRad a)). set (cb := cos (Util.degToRad b)).
  set (sa := sin (Util.degToRad a)). set (sb := sin (Util.degToRad b)).
  cbv [Matrix4.mulv Matrix4.row_vec Matrix4.get Matrix4.mul Matrix4.set
       Matrix4.identity Matrix4.row_col Matrix4.data
       fadd fsub fmul fdiv fopp of_int Exact.scalar]. simpl.
  repeat split; apply matrix_eq; repeat (f_equal; try ring).
Qed.

(** X5: A rotation keeps the length of every transformed point, its
    coordinate along the axis and its w. *)
Theorem rotations_keep_lengths (M : Matrix4.t R) (d : R) (q : Vector4.t R) :
  let p := Matrix4.mulv M q in
  (norm2 (Matrix4.mulv (Util.rotateX M d) q) = norm2 p
   /\ Vector4.x (Matrix4.mulv (Util.rotateX M d) q) = Vector4.x p
   /\ Vector4.w (Matrix4.mulv (Util.rotateX M d) q) = Vector4.w p)
  /\ (norm2 (Matrix4.mulv (Util.rotateY M d) q) = norm2 p
      /\ Vector4.y (Matrix4.mulv (Util.rotateY M d) q) = Vector4.y p
      /\ Vector4.w (Matrix4.mulv (Util.rotateY M d) q) = Vector4.w p)
  /\ (norm2 (Matrix4.mulv (Util.rotateZ M d) q) = norm2 p
      /\ Vector4.z (Matrix4.mulv (Util.rotateZ M d) q) = Vector4.z p
      /\ Vector4.w (Matrix4.mulv (Util.rotateZ M d) q) = Vector4.w p).
Proof.
  intros p.
  pose proof (sin2_cos2 (Util.degToRad d)) as Hunit. unfold Rsqr in Hunit.
  unfold Util.rotateX, Util.rotateY, Util.rotateZ.
  rewrite !mulv_mul. fold p. destruct p as [px py pz pw].
  cbn [fcos fsin Exact.trig].
  set (c := cos (Util.degToRad d)) in *. set (s := sin (Util.degToRad d)) in *.
  cbv [norm2 Matrix4.mulv Matrix4.row_vec Matrix4.get Matrix4.set
       Matrix4.identity Matrix4.data Vector4.x Vector4.y Vector4.z Vector4.w
       fadd fsub fmul fdiv fopp of_int Exact.scalar]. simpl.
  repeat split; try ring.
  - apply Rminus_diag_uniq.
    transitivity ((s * s + c * c - 1) * (py * py + pz * pz)); [ring|].
    rewrite Hunit. ring.
  - apply Rminus_diag_uniq.
    transitivity ((s * s + c * c - 1) * (px * px + pz * pz)); [ring|].
    rewrite Hunit. ring.
  - apply Rminus_diag_uniq.
    transitivity ((s * s + c * c - 1) * (px * px + py * py)); [ring|].
    rewrite Hunit. ring.
Qed.

End TransformsExact.

(** ** Projections, camera and helpers in exact arithmetic *)

Section ProjectionsExact.
Local Open Scope R_scope.

(** X6: [orthographic(top, right, near, far)] maps the box
    [[-right, right] x [-top, top] x [-far, -near]] onto the cube
    [[-1, 1]^3] and keeps w: x and y are divided by [right] and [top], the
    near plane goes to z = -1 and the far plane to z = 1. *)
Theorem orthographic_maps_box (top right near far x y z : R) :
  0 < right -> 0 < top -> near < far ->
  let p := Matrix4.mulv (Util.orthographic top right near far)
                        (Vector4.mk x y z 1) in
  p = Vector4.mk (x / right) (y / top)
                 (- (2 * z + far + near) / (far - near)) 1
  /\ (- right <= x <= right -> -1 <= Vector4.x p <= 1)
  /\ (- top <= y <= top -> -1 <= Vector4.y p <= 1)
  /\ (- far <= z <= - near -> -1 <= Vector4.z p <= 1)
  /\ (z = - near -> Vector4.z p = -1)
  /\ (z = - far -> Vector4.z p = 1).
Proof.
  intros Hr Ht Hnf p.
  assert (Hp : p = Vector4.mk (x / right) (y / top)
                     (- (2 * z + far + near) / (far - near)) 1).
  { subst p. builders_to_reals. f_equal; field; lra. }
  split; [exact Hp|]. rewrite Hp. cbn [Vector4.x Vector4.y Vector4.z].
  assert (Hrange : forall a b : R, 0 < b -> - b <= a <= b -> -1 <= a / b <= 1).
  { intros a b Hb [Ha1 Ha2]. split.
    - apply Rmult_le_reg_r with (r := b); [done|].
      replace (a / b * b) with a by (field; lra). lra.
    - apply Rmult_le_reg_r with (r := b); [done|].
      replace (a / b * b) with a by (field; lra). lra. }
  repeat split; try (by apply Hrange); try (apply Hrange; lra).
  - intros ->. field. lra.
  - intros ->. field. lra.
Qed.

Lemma orthographic_maps_box_witness :
  let p := Matrix4.mulv (Util.orthographic 2 4 1 3) (Vector4.mk 4 2 (-1) 1) in
  0 < 4 /\ 0 < 2 /\ 1 < 3 /\ p = Vector4.mk (4 / 4) (2 / 2)
                                  (- (2 * -1 + 3 + 1) / (3 - 1)) 1.
Proof.
  assert (H4 : 0 < 4) by lra. assert (H2 : 0 < 2) by lra.
  assert (H13 : 1 < 3) by lra.
  repeat split; [exact H4|exact H2|exact H13|].
  exact (proj1 (orthographic_maps_box 2 4 1 3 4 2 (-1) H4 H2 H13)).
Defined.

(** X7: [perspective] sends the top right corner of the near rectangle of its
    frustum to the corner (1, 1, -1) of the cube after the homogeneous
    divide. *)
Theorem perspective_maps_near_corner (fov aspect near far : R) :
  let t := tan (Util.degToRad fov / 2) in
  t <> 0 -> aspect <> 0 -> near <> 0 -> far <> near ->
  Vector4.fromHomogeneous
    (Matrix4.mulv (Util.perspective fov aspect near far)
                  (Vector4.mk (near * t * aspect) (near * t) (- near) 1))
  = Vector3.mk 1 1 (-1).
Proof.
  intros t Ht Ha Hn Hfn. unfold t in *. clear t.
  builders_to_reals.
  set (t := tan (fov * PI / 180 / 2)) in *.
  assert (H1 : near * t <> 0)
    by (apply Rmult_integral_contrapositive_currified; assumption).
  assert (H2 : near * t * aspect <> 0)
    by (apply Rmult_integral_contrapositive_currified; assumption).
  apply vector3_eq; field; repeat split;
    first [assumption
          | intros Heq; apply H2; lra
          | intros Heq; apply H1; lra
          | intros Heq; apply Hfn; lra].
Qed.

Lemma quarter_turn_half : tan (Util.degToRad (F := R) 90 / 2) = 1.
Proof.
  rewrite quarter_turn. replace (PI / 2 / 2) with (PI / 4) by field.
  apply tan_PI4.
Qed.

Lemma perspective_maps_near_corner_witness :
  Vector4.fromHomogeneous
    (Matrix4.mulv (Util.perspective 90 1 1 100)
       (Vector4.mk (1 * tan (Util.degToRad 90 / 2) * 1)
                   (1 * tan (Util.degToRad 90 / 2)) (- 1) 1))
  = Vector3.mk 1 1 (-1).
Proof.
  apply (perspective_maps_near_corner 90 1 1 100).
  - rewrite quarter_turn_half. lra.
  - lra.
  - lra.
  - lra.
Defined.

(** X8: When no normalization in [lookAt] divides by zero ([eye] differs
    from [target], [up] is not the zero vector and is not parallel to
    [eye - target]), [lookAt] puts the camera at the origin: the eye
    position maps to (0, 0, 0, 1), and every point keeps w = 1. *)
Theorem lookAt_eye_at_origin (eye target up p : Vector3.t R) :
  let direction := Vector3.normalized (Vector3.sub eye target) in
  Vector3.len (Vector3.sub eye target) <> 0 ->
  Vector3.len up <> 0 ->
  Vector3.len (Vector3.cross (Vector3.normalized up) direction) <> 0 ->
  Matrix4.mulv (Util.lookAt eye target up) (point eye) = Vector4.mk 0 0 0 1
  /\ Vector4.w (Matrix4.mulv (Util.lookAt eye target up) (point p)) = 1.
Proof.
  intros direction _ _ _. clear direction.
  destruct eye as [ex ey ez], target as [tx ty tz], up as [ux uy uz],
           p as [px py pz].
  to_reals. simpl. split; [f_equal|]; ring.
Qed.

Lemma lookAt_eye_at_origin_witness :
  let eye := Vector3.mk 0 0 1 in
  let target := Vector3.mk 0 0 0 in
  let up := Vector3.mk 0 1 0 in
  Vector3.len (Vector3.sub eye target) <> 0
  /\ Vector3.len up <> 0
  /\ Vector3.len (Vector3.cross (Vector3.normalized up)
                    (Vector3.normalized (Vector3.sub eye target))) <> 0
  /\ Matrix4.mulv (Util.lookAt eye target up) (point eye) = Vector4.mk 0 0 0 1.
Proof.
  intros eye target up.
  assert (Hd : Vector3.len (Vector3.sub eye target) = 1).
  { subst eye target. to_reals.
    replace ((0 - 0) * (0 - 0) + (0 - 0) * (0 - 0) + (1 - 0) * (1 - 0)) with 1
      by ring. apply sqrt_1. }
  assert (Hu : Vector3.len up = 1).
  { subst up. to_reals. replace (0 * 0 + 1 * 1 + 0 * 0) with 1 by ring.
    apply sqrt_1. }
  assert (Hc : Vector3.len (Vector3.cross (Vector3.normalized up)
                              (Vector3.normalized (Vector3.sub eye target))) = 1).
  { unfold Vector3.normalized at 1 2. rewrite Hd, Hu. subst eye target up.
    to_reals. simpl.
    match goal with |- sqrt ?e = 1 => replace e with 1 by field end.
    apply sqrt_1. }
  assert (H1 : Vector3.len (Vector3.sub eye target) <> 0) by (rewrite Hd; lra).
  assert (H2 : Vector3.len up <> 0) by (rewrite Hu; lra).
  assert (H3 : Vector3.len (Vector3.cross (Vector3.normalized up)
                              (Vector3.normalized (Vector3.sub eye target))) <> 0)
    by (rewrite Hc; lra).
  split; [exact H1|]. split; [exact H2|]. split; [exact H3|].
  exact (proj1 (lookAt_eye_at_origin eye target up eye H1 H2 H3)).
Defined.

(** X9: The weights of [barycentric] at the three vertices are the unit
    vectors. *)
Theorem barycentric_at_vertices (a b c : Vector3.t R) :
  denom a b c <> 0 ->
  Util.barycentric a a b c = Vector3.mk 1 0 0
  /\ Util.barycentric b a b c = Vector3.mk 0 1 0
  /\ Util.barycentric c a b c = Vector3.mk 0 0 1.
Proof.
  destruct a as [ax ay az], b as [bx b_y bz], c as [cx cy cz].
  intros Hd. to_reals. repeat split; apply vector3_eq; field; exact Hd.
Qed.

Lemma barycentric_at_vertices_witness :
  let a := Vector3.mk 0 0 0 in
  let b := Vector3.mk 1 0 0 in
  let c := Vector3.mk 0 1 0 in
  denom a b c <> 0
  /\ Util.barycentric a a b c = Vector3.mk 1 0 0
  /\ Util.barycentric b a b c = Vector3.mk 0 1 0
  /\ Util.barycentric c a b c = Vector3.mk 0 0 1.
Proof.
  intros a b c.
  assert (Hd : denom a b c <> 0) by (subst a b c; to_reals; lra).
  split; [exact Hd|]. exact (barycentric_at_vertices a b c Hd).
Defined.

(** X10: [getZ(x, y, p, normal)] is the depth at [(x, y)] of the plane through
    [p] with the given normal: the point it gives lies in that plane, and
    at [p] itself it gives [p.z]. *)
Theorem getZ_on_plane (x y : R) (p normal : Vector3.t R) :
  Vector3.z normal <> 0 ->
  Vector3.dot normal
    (Vector3.sub (Vector3.mk x y (Renderer.getZ x y p normal)) p) = 0
  /\ Renderer.getZ (Vector3.x p) (Vector3.y p) p normal = Vector3.z p.
Proof.
  destruct p as [px py pz], normal as [nx ny nz]. intros Hn.
  cbv [Renderer.getZ Vector3.dot Vector3.sub Vector3.x Vector3.y Vector3.z
       fadd fsub fmul fdiv Exact.scalar] in *.
  split; field; exact Hn.
Qed.

Lemma getZ_on_plane_witness :
  Vector3.z (Vector3.mk 0 0 1) <> 0
  /\ Vector3.dot (Vector3.mk 0 0 1)
       (Vector3.sub
          (Vector3.mk 2 3 (Renderer.getZ 2 3 (Vector3.mk 0 0 5) (Vector3.mk 0 0 1)))
          (Vector3.mk 0 0 5)) = 0.
Proof.
  assert (Hn : Vector3.z (Vector3.mk 0 0 1) <> 0) by (simpl; lra).
  split; [exact Hn|].
  exact (proj1 (getZ_on_plane 2 3 (Vector3.mk 0 0 5) (Vector3.mk 0 0 1) Hn)).
Defined.

(** X11: [NDCtoViewport] maps the square [[-1, 1]^2] into the viewport
    rectangle with y flipped, and keeps z: the corner (-1, 1) goes to the
    pixel origin (0, 0) and the corner (1, -1) to (width, height). *)
Theorem NDCtoViewport_range (r : Renderer.t R) (v : Vector3.t R) :
  (0 <= Renderer.viewportX r)%Z -> (0 <= Renderer.viewportY r)%Z ->
  -1 <= Vector3.x v <= 1 -> -1 <= Vector3.y v <= 1 ->
  let q := Renderer.NDCtoViewport r v in
  0 <= Vector3.x q <= IZR (Renderer.viewportX r)
  /\ 0 <= Vector3.y q <= IZR (Renderer.viewportY r)
  /\ Vector3.z q = Vector3.z v
  /\ (Vector3.x v = -1 -> Vector3.x q = 0)
  /\ (Vector3.x v = 1 -> Vector3.x q = IZR (Renderer.viewportX r))
  /\ (Vector3.y v = 1 -> Vector3.y q = 0)
  /\ (Vector3.y v = -1 -> Vector3.y q = IZR (Renderer.viewportY r)).
Proof.
  destruct v as [vx vy vz]. intros Hw Hh Hx Hy.
  apply IZR_le in Hw, Hh.
  cbv [Renderer.NDCtoViewport Vector3.x Vector3.y Vector3.z
       fadd fsub fmul fdiv of_int Exact.scalar] in *.
  set (w := IZR (Renderer.viewportX r)) in *.
  set (h := IZR (Renderer.viewportY r)) in *.
  repeat split; try (intros ->; field); try nra.
Qed.

Lemma NDCtoViewport_range_witness :
  let r := Renderer.Renderer (F := R) ∅ 6 6 in
  let v := Vector3.mk 0 0 0 in
  (0 <= Renderer.viewportX r)%Z /\ (0 <= Renderer.viewportY r)%Z
  /\ -1 <= Vector3.x v <= 1 /\ -1 <= Vector3.y v <= 1
  /\ 0 <= Vector3.x (Renderer.NDCtoViewport r v) <= IZR (Renderer.viewportX r).
Proof.
  intros r v.
  assert (Hw : (0 <= Renderer.viewportX r)%Z) by (simpl; lia).
  assert (Hh : (0 <= Renderer.viewportY r)%Z) by (simpl; lia).
  assert (Hx : -1 <= Vector3.x v <= 1) by (simpl; lra).
  assert (Hy : -1 <= Vector3.y v <= 1) by (simpl; lra).
  repeat split; try tauto; try apply Hx; try apply Hy.
  - exact (proj1 (proj1 (NDCtoViewport_range r v Hw Hh Hx Hy))).
  - exact (proj2 (proj1 (NDCtoViewport_range r v Hw Hh Hx Hy))).
Defined.

End ProjectionsExact.

(** ** What drawing keeps *)

Section Frame.
Context {F : Type} `{Scalar F}.
Local Open Scope float_scope.

Lemma allocated_covers (r : Renderer.t F) : allocated r -> covers r.
Proof. intros Ha x y Hx Hy. apply Ha; lia. Qed.

Lemma allocated_Renderer (im : Graphics.t) (width height : Z) :
  allocated (Renderer.Renderer (F := F) im width height).
Proof.
  intros x y Hx Hy. simpl in *. rewrite new_array_lookup by lia. by eexists.
Qed.

(** One [drawPoint] keeps the viewport, the wireframe brush and the set of
    cells of the z-buffer. *)
Lemma drawPoint_frame (r r' : Renderer.t F) x y z br :
  Renderer.drawPoint x y z br r = Some r' ->
  Renderer.viewportX r' = Renderer.viewportX r
  /\ Renderer.viewportY r' = Renderer.viewportY r
  /\ Renderer.wfBrush r' = Renderer.wfBrush r
  /\ dom (Renderer.zbuffer r') = dom (Renderer.zbuffer r).
Proof.
  unfold Renderer.drawPoint.
  destruct (_ && _); [|by intros [= <-]].
  destruct (Renderer.zbuffer r !! (x, y)) as [stored|] eqn:Hs; [|done]. simpl.
  destruct (_ >? _); intros [= <-]; [|done]. simpl.
  repeat split. by apply dom_insert_lookup_L.
Qed.

Lemma drawPoints_frame (br : Color) (cs : list (Renderer.call F))
    (r r' : Renderer.t F) :
  Renderer.drawPoints br cs r = Some r' ->
  Renderer.viewportX r' = Renderer.viewportX r
  /\ Renderer.viewportY r' = Renderer.viewportY r
  /\ Renderer.wfBrush r' = Renderer.wfBrush r
  /\ dom (Renderer.zbuffer r') = dom (Renderer.zbuffer r).
Proof.
  revert r. induction cs as [|[[x y] z] cs IH]; intros r; simpl.
  - by intros [= <-].
  - destruct (Renderer.drawPoint x y z br r) as [r1|] eqn:Hstep; [|done].
    simpl. intros Hrest.
    destruct (drawPoint_frame _ _ _ _ _ _ Hstep) as (<- & <- & <- & <-).
    by apply IH.
Qed.

Lemma covers_frame (r r' : Renderer.t F) :
  Renderer.viewportX r' = Renderer.viewportX r ->
  Renderer.viewportY r' = Renderer.viewportY r ->
  dom (Renderer.zbuffer r') = dom (Renderer.zbuffer r) ->
  (covers r -> covers r') /\ (allocated r -> allocated r').
Proof.
  intros Hx Hy Hdom. split; intros Hc x y Hx' Hy';
    apply elem_of_dom; rewrite Hdom; apply elem_of_dom;
    apply Hc; congruence.
Qed.

(** A sequence of [drawPoint] calls on a covering z-buffer raises no
    exception and leaves a covering z-buffer. *)
Lemma drawPoints_safe (br : Color) (cs : list (Renderer.call F))
    (r : Renderer.t F) :
  covers r ->
  exists r', Renderer.drawPoints br cs r = Some r' /\ covers r'.
Proof.
  revert r. induction cs as [|[[x y] z] cs IH]; intros r Hc; simpl.
  - by exists r.
  - destruct (drawPoint_no_exception r x y z br Hc) as [r1 Hstep].
    rewrite Hstep. simpl. apply IH. by apply (covers_drawPoint r r1 x y z br).
Qed.

(** [drawLine] keeps the wireframe brush it draws with. *)
Lemma drawLine_frame (from to : Vector3.t F) (r r' : Renderer.t F) :
  Renderer.drawLine from to r = Some r' ->
  Renderer.viewportX r' = Renderer.viewportX r
  /\ Renderer.viewportY r' = Renderer.viewportY r
  /\ Renderer.wfBrush r' = Renderer.wfBrush r
  /\ dom (Renderer.zbuffer r') = dom (Renderer.zbuffer r).
Proof.
  unfold Renderer.drawLine. destruct (Renderer.drawLine_returns from to); [|done].
  apply drawPoints_frame.
Qed.

Lemma drawLine_safe (from to : Vector3.t F) (r : Renderer.t F) :
  Renderer.drawLine_returns from to = true -> covers r ->
  exists r', Renderer.drawLine from to r = Some r' /\ covers r'.
Proof.
  intros Hret. unfold Renderer.drawLine. rewrite Hret. apply drawPoints_safe.
Qed.

Lemma drawPolygon_safe (first second third : Vector3.t F) (r : Renderer.t F) :
  drawPolygon_returns first second third = true -> covers r ->
  exists r', Renderer.drawPolygon first second third r = Some r' /\ covers r'.
Proof.
  intros [[H1 H2]%andb_true_iff H3]%andb_true_iff Hc.
  unfold Renderer.drawPolygon.
  destruct (drawLine_safe first second r H1 Hc) as (r1 & -> & Hc1).
  cbn [mbind option_bind].
  destruct (drawLine_safe second third r1 H2 Hc1) as (r2 & -> & Hc2).
  cbn [mbind option_bind]. by apply drawLine_safe.
Qed.

Lemma fillPolygon_safe (a b c n : Vector3.t F) (br : Color) (r : Renderer.t F) :
  Renderer.fillPolygon_returns a b c = true -> covers r ->
  exists r', Renderer.fillPolygon a b c n br r = Some r' /\ covers r'.
Proof.
  intros Hret. unfold Renderer.fillPolygon. rewrite Hret. apply drawPoints_safe.
Qed.

(** X13: On a renderer whose z-buffer covers its viewport, as every renderer
    is after its constructor, no drawing operation raises the index
    exception, whatever the geometry: whenever the loops of [drawLine],
    [drawPolygon], [fillPolygon] or [drawAxes] exit, the operation returns,
    and the z-buffer still covers the viewport. *)
Theorem drawing_never_raises (r : Renderer.t F)
    (a b c n : Vector3.t F) (br : Color) (m : Matrix4.t F) (grid : bool) :
  covers r ->
  (Renderer.drawLine_returns a b = true ->
   exists r', Renderer.drawLine a b r = Some r' /\ covers r')
  /\ (drawPolygon_returns a b c = true ->
      exists r', Renderer.drawPolygon a b c r = Some r' /\ covers r')
  /\ (Renderer.fillPolygon_returns a b c = true ->
      exists r', Renderer.fillPolygon a b c n br r = Some r' /\ covers r')
  /\ (drawAxes_returns r m = true ->
      exists r', Renderer.drawAxes m grid r = Some r' /\ covers r').
Proof.
  intros Hc. split; [intros Hret; by apply drawLine_safe|].
  split; [intros Hret; by apply drawPolygon_safe|].
  split; [intros Hret; by apply fillPolygon_safe|].
  intros [[H1 H2]%andb_true_iff H3]%andb_true_iff.
  unfold Renderer.drawAxes. fold (axis_point r m 0 0 0).
  fold (axis_point r m 50 0 0). fold (axis_point r m 0 50 0).
  fold (axis_point r m 0 0 50). cbv zeta.
  destruct (drawLine_safe _ _ r H1 Hc) as (r1 & -> & Hc1).
  cbn [mbind option_bind].
  destruct (drawLine_safe _ _ r1 H2 Hc1) as (r2 & -> & Hc2).
  cbn [mbind option_bind]. by apply drawLine_safe.
Qed.

Lemma new_array_outside (width height x y : Z) :
  ~ ((0 <= x < width)%Z /\ (0 <= y < height)%Z) ->
  Renderer.new_array (F := F) width height !! (x, y) = None.
Proof.
  intros Hout. unfold Renderer.new_array. apply not_elem_of_list_to_map_1.
  intros Hin. apply list_elem_of_fmap in Hin as ([p v] & Hp & Hin).
  simpl in Hp. subst p.
  apply list_elem_of_bind in Hin as (x' & Hin & Hx').
  apply list_elem_of_bind in Hin as (y' & Hin & Hy').
  apply list_elem_of_singleton in Hin as [= -> -> _].
  apply elem_of_seqZ in Hx', Hy'. lia.
Qed.

(** X12: The constructor, given sizes that are not negative, allocates exactly
    the cells [0 .. width - 1] x [0 .. height - 1] of the z-buffer and
    leaves each at zero: it does not clear the buffer to [-INFINITY]. *)
Theorem Renderer_zero_depths (im : Graphics.t) (width height x y : Z) :
  (0 <= width)%Z -> (0 <= height)%Z ->
  Renderer.zbuffer (Renderer.Renderer (F := F) im width height) !! (x, y)
  = if decide ((0 <= x < width)%Z /\ (0 <= y < height)%Z)
    then Some #0 else None.
Proof.
  intros _ _.
  cbn [Renderer.Renderer Renderer.setViewport Renderer.zbuffer].
  destruct (decide _) as [[Hx Hy]|Hout].
  - by apply new_array_lookup.
  - by apply new_array_outside.
Qed.

(** X14: When [setViewport] enlarges the viewport, the z-buffer keeps the size
    the constructor gave it: a point inside the new bounds but outside the
    array makes [drawPoint] raise the index exception. *)
Theorem drawPoint_beyond_array (im : Graphics.t) (width height width' height' : Z)
    (x y : Z) (z : F) (br : Color) :
  (0 <= width)%Z -> (0 <= height)%Z ->
  (0 < x < width')%Z -> (0 < y < height')%Z ->
  (width <= x \/ height <= y)%Z ->
  Renderer.drawPoint x y z br
    (Renderer.setViewport width' height' (Renderer.Renderer im width height))
  = None.
Proof.
  intros _ _ Hx Hy Hout. unfold Renderer.drawPoint.
  destruct (bounds_test_true
              (Renderer.setViewport width' height'
                 (Renderer.Renderer (F := F) im width height)) x y) as [_ Hb].
  rewrite Hb by done. clear Hb. simpl.
  by rewrite new_array_outside by lia.
Qed.

End Frame.

(** ** [max] and [min] *)

Section ExtremaExact.
Local Open Scope R_scope.

(** X27: In exact arithmetic [max] and [min] are the greater and the lesser of
    their arguments. *)
Theorem max_min_exact (a b : R) :
  Renderer.max a b = Rmax a b /\ Renderer.min a b = Rmin a b.
Proof.
  unfold Renderer.max, Renderer.min, fgtb. cbn [fltb Exact.scalar].
  split.
  - destruct (Rlt_dec b a) as [Hlt|Hge]; simpl.
    + rewrite Rmax_left; lra.
    + rewrite Rmax_right; lra.
  - destruct (Rlt_dec a b) as [Hlt|Hge]; simpl.
    + rewrite Rmin_left; lra.
    + rewrite Rmin_right; lra.
Qed.

End ExtremaExact.

Section ExtremaBinary32.
Import Binary32.
Local Open Scope float_scope.

(** X28: On binary32, [max] and [min] return their second argument as soon as
    one argument is NaN: a NaN in first place is dropped, a NaN in second
    place is returned. *)
Theorem max_min_nan (a b : float) :
  a = NaN \/ b = NaN ->
  Renderer.max a b = b /\ Renderer.min a b = b.
Proof.
  unfold Renderer.max, Renderer.min, fgtb. cbn [fltb scalar].
  intros [->| ->]; [by destruct b|by destruct a].
Qed.

Lemma max_min_nan_witness :
  (NaN = NaN \/ #3 = NaN)
  /\ Renderer.max NaN #3 = #3 /\ Renderer.min NaN #3 = #3.
Proof.
  assert (Hnan : NaN = NaN \/ #3 = NaN) by (left; reflexivity).
  split; [exact Hnan|]. exact (max_min_nan NaN #3 Hnan).
Defined.

End ExtremaBinary32.

Section Invariants.
Context {F : Type} `{Scalar F}.
Local Open Scope float_scope.

(** X15: Clearing forgets every depth: after any drawing, [clearZBuffer] gives
    the depth buffer it gives before the drawing, with [-INFINITY] in
    every cell, and does not touch the painted surface. *)
Theorem clearZBuffer_resets `{HasInfinity F} (br : Color)
    (cs : list (Renderer.call F)) (r r' : Renderer.t F) :
  Renderer.drawPoints br cs r = Some r' ->
  Renderer.zbuffer (Renderer.clearZBuffer r')
    = Renderer.zbuffer (Renderer.clearZBuffer r)
  /\ (forall p v, Renderer.zbuffer (Renderer.clearZBuffer r') !! p = Some v ->
        v = - INFINITY)
  /\ Renderer.graphics (Renderer.clearZBuffer r') = Renderer.graphics r'
  /\ Renderer.clearZBuffer (Renderer.clearZBuffer r') = Renderer.clearZBuffer r'.
Proof.
  intros Hdraw.
  destruct (drawPoints_frame _ _ _ _ Hdraw) as (_ & _ & _ & Hdom).
  repeat split.
  - apply map_eq. intros p. simpl. rewrite !lookup_fmap.
    destruct (Renderer.zbuffer r' !! p) as [v'|] eqn:H1,
             (Renderer.zbuffer r !! p) as [v|] eqn:H2; try done.
    + apply elem_of_dom_2 in H1. rewrite Hdom in H1.
      apply elem_of_dom in H1 as [? ?]. congruence.
    + apply elem_of_dom_2 in H2. rewrite <- Hdom in H2.
      apply elem_of_dom in H2 as [? ?]. congruence.
  - intros p v. simpl. rewrite lookup_fmap.
    destruct (Renderer.zbuffer r' !! p); simpl; congruence.
  - unfold Renderer.clearZBuffer. simpl. f_equal.
    rewrite <- map_fmap_compose. done.
Qed.

(** X16: Drawing paints inside the rectangle [1 .. width] x [1 .. height] only:
    the first row and column of the surface, and everything past the
    viewport's width and height, are never painted. *)
Theorem drawing_stays_in_viewport (br : Color) (cs : list (Renderer.call F))
    (r r' : Renderer.t F) (i j : Z) :
  Renderer.drawPoints br cs r = Some r' ->
  (i <= 0 \/ j <= 0 \/ Renderer.viewportX r < i \/ Renderer.viewportY r < j)%Z ->
  Renderer.graphics r' !! (i, j) = Renderer.graphics r !! (i, j).
Proof.
  revert r. induction cs as [|[[x y] z] cs IH]; intros r; simpl.
  - by intros [= <-].
  - destruct (Renderer.drawPoint x y z br r) as [r1|] eqn:Hstep; [|done].
    simpl. intros Hrest Hout.
    destruct (drawPoint_frame _ _ _ _ _ _ Hstep) as (Hvx & Hvy & _ & _).
    rewrite (IH r1 Hrest) by (rewrite Hvx, Hvy; exact Hout).
    revert Hstep. unfold Renderer.drawPoint.
    destruct (_ && _) eqn:Hb; [|by intros [= <-]].
    apply bounds_test_true in Hb as [Hx Hy].
    destruct (Renderer.zbuffer r !! (x, y)) as [stored|]; [|done]. simpl.
    destruct (_ >? _); intros [= <-]; [|done]. simpl.
    rewrite FillRectangle_lookup. apply decide_False. lia.
Qed.

(** X17: A triangle with all three y equal, or whose height truncates to zero
    rows or less, is dropped: [fillPolygon] submits nothing and returns
    the renderer unchanged. *)
Theorem fillPolygon_drops_flat (_first _second _third normal : Vector3.t F)
    (br : Color) (r : Renderer.t F) :
  Renderer.deformed _first _second _third = true
  \/ (Renderer.totalHeight _first _second _third <= 0)%Z ->
  Renderer.fillPolygon_calls _first _second _third = []
  /\ Renderer.fillPolygon _first _second _third normal br r = Some r.
Proof.
  intros Hflat.
  assert (Hcalls : Renderer.fillPolygon_calls _first _second _third = []).
  { unfold Renderer.fillPolygon_calls, Renderer.fillPolygon_rows.
    destruct (Renderer.deformed _ _ _) eqn:Hdef; [done|].
    destruct Hflat as [|Hflat]; [done|].
    unfold Renderer.totalHeight in Hflat.
    destruct (Renderer.sort_vertices _ _ _) as [[first second] third].
    by rewrite seqZ_nil. }
  assert (Hret : Renderer.fillPolygon_returns _first _second _third = true).
  { unfold Renderer.fillPolygon_returns.
    destruct (Renderer.deformed _ _ _) eqn:Hdef; [done|].
    destruct Hflat as [|Hflat]; [done|].
    unfold Renderer.totalHeight in Hflat.
    destruct (Renderer.sort_vertices _ _ _) as [[first second] third].
    by rewrite seqZ_nil. }
  split; [done|]. unfold Renderer.fillPolygon. by rewrite Hret, Hcalls.
Qed.

(** X18: The depths [fillPolygon] interpolates are taken from the sorted
    copies, the weights from the arguments as given: when the first
    argument lies below the second (and neither lies above the third),
    every submitted depth pairs the weight of the first argument with the
    depth of the second and the weight of the second with the depth of
    the first. *)
Theorem fillPolygon_depths_follow_sorted (_first _second _third : Vector3.t F)
    (cl : Renderer.call F) :
  (Vector3.y _first >? Vector3.y _second) = true ->
  (Vector3.y _second >? Vector3.y _third) = false ->
  (Vector3.y _first >? Vector3.y _third) = false ->
  cl ∈ Renderer.fillPolygon_calls _first _second _third ->
  exists i j : Z,
    let query := Vector3.mk #j (Vector3.y _second + #i) #0 in
    let weights := Util.barycentric query _first _second _third in
    cl = (j, to_int (Vector3.y _second + #i),
          Vector3.x weights * Vector3.z _second
          + Vector3.y weights * Vector3.z _first
          + Vector3.z weights * Vector3.z _third).
Proof.
  intros H12 H23 H13 Hin.
  apply fillPolygon_calls_depth in Hin as (i & j & Hcl).
  unfold Renderer.sort_vertices in Hcl. rewrite H12 in Hcl.
  rewrite H23 in Hcl. rewrite H13 in Hcl.
  by exists i, j.
Qed.

End Invariants.

Section DepthRises.
Context {F : Type} `{StrictOrderScalar F}.
Local Open Scope float_scope.

Lemma drawPoint_rises (r r' : Renderer.t F) x y z br (p : Z * Z) (v : F) :
  Renderer.drawPoint x y z br r = Some r' ->
  Renderer.zbuffer r !! p = Some v ->
  exists v', Renderer.zbuffer r' !! p = Some v' /\ (v' = v \/ (v' >? v) = true).
Proof.
  unfold Renderer.drawPoint.
  destruct (_ && _); [|intros [= <-] Hv; eauto].
  destruct (Renderer.zbuffer r !! (x, y)) as [stored|] eqn:Hs; [|done]. simpl.
  destruct (_ >? _) eqn:Hgt; intros [= <-] Hv; [|eauto]. simpl.
  destruct (decide ((x, y) = p)) as [<-|Hne].
  - rewrite lookup_insert_eq. eexists. split; [done|]. right. congruence.
  - rewrite lookup_insert_ne by done. eauto.
Qed.

Lemma drawPoints_rise (br : Color) (cs : list (Renderer.call F))
    (r r' : Renderer.t F) (p : Z * Z) (v : F) :
  Renderer.drawPoints br cs r = Some r' ->
  Renderer.zbuffer r !! p = Some v ->
  exists v', Renderer.zbuffer r' !! p = Some v' /\ (v' = v \/ (v' >? v) = true).
Proof.
  revert r v. induction cs as [|[[x y] z] cs IH]; intros r v; simpl.
  - intros [= <-] Hv. eauto.
  - destruct (Renderer.drawPoint x y z br r) as [r1|] eqn:Hstep; [|done].
    simpl. intros Hrest Hv.
    destruct (drawPoint_rises _ _ _ _ _ _ _ _ Hstep Hv) as (v1 & Hv1 & Hor1).
    destruct (IH r1 v1 Hrest Hv1) as (v' & Hv' & Hor').
    exists v'. split; [done|].
    destruct Hor1 as [->|Hgt1]; [done|].
    destruct Hor' as [->|Hgt']; [by right|].
    right. by apply (greater_trans v' v1 v).
Qed.

End DepthRises.

Section DepthRisesBinary32.
Import Binary32 Samples.
Local Open Scope float_scope.

(** X19: The depth buffer only moves toward the camera: after any sequence of
    [drawPoint] calls every cell holds its old value or a strictly
    greater one (binary32). *)
Theorem depth_buffer_only_rises (br : Color) (cs : list (Renderer.call float))
    (r r' : Renderer.t float) (p : Z * Z) (v : float) :
  Renderer.drawPoints br cs r = Some r' ->
  Renderer.zbuffer r !! p = Some v ->
  exists v', Renderer.zbuffer r' !! p = Some v' /\ (v' = v \/ (v' >? v) = true).
Proof. apply (drawPoints_rise (H0 := binary32_strict_order)). Qed.

End DepthRisesBinary32.

(** ** The steps of the line rasterizer *)

Section Bresenham.
Context {F : Type} `{Scalar F}.
Local Open Scope Z_scope.

Lemma sign_range (x : Z) : -1 <= Renderer.sign x <= 1.
Proof. unfold Renderer.sign. destruct (0 <? x), (x <? 0); simpl; lia. Qed.

(** One round of the inner loop at most, without overflow: when [2 * dx]
    fits an [int], [e < 2 * dx] and the pixel has room to move. *)
Lemma turn_in_range (isSwap : bool) (sx sy dx x y e : Z) :
  0 < dx -> 2 * dx <= INT_MAX -> INT_MIN <= e < 2 * dx ->
  -1 <= sx <= 1 -> -1 <= sy <= 1 ->
  INT_MIN < x < INT_MAX -> INT_MIN < y < INT_MAX ->
  Renderer.turn isSwap sx sy dx x y e
  = if 0 <=? e
    then ((if isSwap then x + sx else x), (if isSwap then y else y + sy), e - 2 * dx)
    else (x, y, e).
Proof.
  intros Hdx Hmax He Hsx Hsy Hx Hy. destruct (0 <=? e) eqn:Hge.
  - apply Z.leb_le in Hge. rewrite turn_once by lia.
    by rewrite !wrap_in_int by lia.
  - apply turn_stops. by apply Z.leb_gt.
Qed.

Lemma line_loop_head (from to : Vector3.t F) isSwap sx sy dx dy n x y e
    (c : Renderer.call F) :
  Renderer.line_loop from to isSwap sx sy dx dy n x y e !! 0%nat = Some c ->
  pixel c = (x, y).
Proof.
  destruct n as [|n]; [done|]. cbn [Renderer.line_loop].
  destruct (Renderer.turn _ _ _ _ _ _ _) as [[x1 y1] e1].
  by intros [= <-].
Qed.

(** One round of the loop of [drawLine] without overflow: the next pixel
    and the next error term. *)
Lemma line_loop_round (from to : Vector3.t F) isSwap sx sy dx dy n x y e :
  0 < dx -> 2 * dx <= INT_MAX -> 0 <= dy <= dx -> - 2 * dx <= e < 2 * dx ->
  -1 <= sx <= 1 -> -1 <= sy <= 1 ->
  INT_MIN < x < INT_MAX -> INT_MIN < y < INT_MAX ->
  exists (z : F) (x' y' e' : Z),
    Renderer.line_loop from to isSwap sx sy dx dy (S n) x y e
    = (x, y, z) :: Renderer.line_loop from to isSwap sx sy dx dy n x' y' e'
    /\ - 2 * dx <= e' < 2 * dx
    /\ bresenham_step isSwap sx sy (x, y) (x', y').
Proof.
  intros Hdx Hmax Hdy He Hsx Hsy Hx Hy.
  cbn [Renderer.line_loop]. rewrite turn_in_range by int_lia.
  rewrite (wrap_in_int (2 * dy)) by int_lia.
  destruct (0 <=? e) eqn:Hge; cbn zeta beta iota.
  - apply Z.leb_le in Hge. eexists _, _, _, _. split; [reflexivity|].
    rewrite (wrap_in_int (e - 2 * dx + 2 * dy)) by int_lia.
    split; [lia|]. unfold bresenham_step. cbn [fst snd].
    destruct isSwap; rewrite wrap_in_int by lia; auto.
  - apply Z.leb_gt in Hge. eexists _, _, _, _. split; [reflexivity|].
    rewrite (wrap_in_int (e + 2 * dy)) by int_lia.
    split; [lia|]. unfold bresenham_step. cbn [fst snd].
    destruct isSwap; rewrite wrap_in_int by lia; auto.
Qed.

Lemma bresenham_step_near (isSwap : bool) (sx sy : Z) (p p' : Z * Z) :
  -1 <= sx <= 1 -> -1 <= sy <= 1 ->
  bresenham_step isSwap sx sy p p' ->
  Z.abs (p'.1 - p.1) <= 1 /\ Z.abs (p'.2 - p.2) <= 1.
Proof.
  unfold bresenham_step. intros Hsx Hsy.
  destruct isSwap; intros [H1 [H2|H2]]; lia.
Qed.

(** Consecutive pixels of the loop are one step apart, as long as the
    pixel has room for the rounds to go. *)
Lemma line_loop_steps (from to : Vector3.t F) isSwap sx sy dx dy :
  0 < dx -> 2 * dx <= INT_MAX -> 0 <= dy <= dx ->
  -1 <= sx <= 1 -> -1 <= sy <= 1 ->
  forall (n : nat) (x y e : Z) (i : nat) (c c' : Renderer.call F),
    - 2 * dx <= e < 2 * dx ->
    INT_MIN + Z.of_nat n <= x <= INT_MAX - Z.of_nat n ->
    INT_MIN + Z.of_nat n <= y <= INT_MAX - Z.of_nat n ->
    Renderer.line_loop from to isSwap sx sy dx dy n x y e !! i = Some c ->
    Renderer.line_loop from to isSwap sx sy dx dy n x y e !! S i = Some c' ->
    bresenham_step isSwap sx sy (pixel c) (pixel c').
Proof.
  intros Hdx Hmax Hdy Hsx Hsy.
  induction n as [|n IH]; intros x y e i c c' He Hx Hy; [done|].
  destruct (line_loop_round from to isSwap sx sy dx dy n x y e)
    as (z & x' & y' & e' & -> & He' & Hstep); try done; try lia.
  destruct i as [|i].
  - intros [= <-] Hnext. apply line_loop_head in Hnext.
    unfold pixel in *. cbn [fst snd] in *. by rewrite Hnext.
  - cbn [lookup list_lookup]. apply IH; [done| |].
    + apply (bresenham_step_near _ _ _ _ _ Hsx Hsy) in Hstep.
      cbn [fst snd] in Hstep. lia.
    + apply (bresenham_step_near _ _ _ _ _ Hsx Hsy) in Hstep.
      cbn [fst snd] in Hstep. lia.
Qed.

(** X20: The pixels of [drawLine] form a connected run, as long as nothing
    overflows (both deltas below [2 ^ 30] and the start pixel within
    [2 ^ 30] of the origin): the first one is the truncated start point,
    and from each pixel to the next the line moves one unit along its
    dominant axis and at most one unit along the other axis, so
    consecutive pixels are neighbours. *)
Theorem drawLine_pixels_connected (from to : Vector3.t F) :
  let x := to_int (Vector3.x from) in
  let y := to_int (Vector3.y from) in
  let dx := to_int (fabs (fsub (Vector3.x to) (of_int x))) in
  let dy := to_int (fabs (fsub (Vector3.y to) (of_int y))) in
  let sx := Renderer.sign (to_int (fsub (Vector3.x to) (of_int x))) in
  let sy := Renderer.sign (to_int (fsub (Vector3.y to) (of_int y))) in
  0 <= dx < 2 ^ 30 -> 0 <= dy < 2 ^ 30 ->
  - 2 ^ 30 <= x <= 2 ^ 30 -> - 2 ^ 30 <= y <= 2 ^ 30 ->
  (forall c, Renderer.drawLine_calls from to !! 0%nat = Some c -> pixel c = (x, y))
  /\ forall (i : nat) (c c' : Renderer.call F),
       Renderer.drawLine_calls from to !! i = Some c ->
       Renderer.drawLine_calls from to !! S i = Some c' ->
       bresenham_step (dx <? dy) sx sy (pixel c) (pixel c')
       /\ Z.abs ((pixel c').1 - (pixel c).1) <= 1
       /\ Z.abs ((pixel c').2 - (pixel c).2) <= 1.
Proof.
  intros x y dx dy sx sy Hdx Hdy Hx Hy. unfold Renderer.drawLine_calls.
  fold x y. fold dx dy. fold sx sy.
  pose proof (sign_range (to_int (fsub (Vector3.x to) (of_int x)))) as Hsx.
  pose proof (sign_range (to_int (fsub (Vector3.y to) (of_int y)))) as Hsy.
  fold sx in Hsx. fold sy in Hsy.
  split.
  - intros c. destruct (dx <? dy); apply line_loop_head.
  - intros i c c' Hc Hc'.
    assert (Hstep : bresenham_step (dx <? dy) sx sy (pixel c) (pixel c')).
    { destruct (dx <? dy) eqn:Hswap.
      - apply Z.ltb_lt in Hswap.
        rewrite (wrap_in_int (2 * dx)), (wrap_in_int (2 * dx - dy)) in Hc, Hc'
          by int_lia.
        refine (line_loop_steps from to true sx sy dy dx _ _ _ _ _ _ _ _ _ _ _ _
                  _ _ _ Hc Hc'); int_lia.
      - apply Z.ltb_ge in Hswap.
        rewrite (wrap_in_int (2 * dy)), (wrap_in_int (2 * dy - dx)) in Hc, Hc'
          by int_lia.
        destruct (Z.to_nat dx) as [|n] eqn:Hn; [done|].
        rewrite <- Hn in Hc, Hc'.
        refine (line_loop_steps from to false sx sy dx dy _ _ _ _ _ _ _ _ _ _ _ _
                  _ _ _ Hc Hc'); int_lia. }
    split; [exact Hstep|].
    by apply (bresenham_step_near (dx <? dy) sx sy).
Qed.

End Bresenham.

Section LinePositions.
Context {F : Type} `{Scalar F}.
Local Open Scope Z_scope.

(** Without overflow the coordinate along the dominant axis advances by
    one unit per call. *)
Lemma line_loop_primary (from to : Vector3.t F) isSwap sx sy dx dy :
  0 < dx -> 2 * dx <= INT_MAX -> 0 <= dy <= dx ->
  -1 <= sx <= 1 -> -1 <= sy <= 1 ->
  forall (n : nat) (x y e : Z) (i : nat) (c : Renderer.call F),
    - 2 * dx <= e < 2 * dx ->
    INT_MIN + Z.of_nat n <= x <= INT_MAX - Z.of_nat n ->
    INT_MIN + Z.of_nat n <= y <= INT_MAX - Z.of_nat n ->
    Renderer.line_loop from to isSwap sx sy dx dy n x y e !! i = Some c ->
    (isSwap = false -> (pixel c).1 = x + Z.of_nat i * sx)
    /\ (isSwap = true -> (pixel c).2 = y + Z.of_nat i * sy).
Proof.
  intros Hdx Hmax Hdy Hsx Hsy.
  induction n as [|n IH]; intros x y e i c He Hx Hy; [done|].
  destruct (line_loop_round from to isSwap sx sy dx dy n x y e)
    as (z & x' & y' & e' & -> & He' & Hstep); try done; try lia.
  destruct i as [|i].
  - intros [= <-]. unfold pixel. cbn [fst snd]. split; intros _; lia.
  - cbn [lookup list_lookup]. intros Hc.
    pose proof (bresenham_step_near _ _ _ _ _ Hsx Hsy Hstep) as Hnear.
    cbn [fst snd] in Hnear.
    apply IH in Hc as [Hcx Hcy]; [|done|lia|lia].
    unfold bresenham_step in Hstep. cbn [fst snd] in Hstep.
    split; intros Hs; subst isSwap.
    + rewrite (Hcx eq_refl). destruct Hstep as [-> _]. lia.
    + rewrite (Hcy eq_refl). destruct Hstep as [-> _]. lia.
Qed.

Lemma drawPoints_app (br : Color) (cs1 cs2 : list (Renderer.call F))
    (r : Renderer.t F) :
  Renderer.drawPoints br (cs1 ++ cs2) r
  = Renderer.drawPoints br cs1 r ≫= Renderer.drawPoints br cs2.
Proof.
  revert r. induction cs1 as [|[[x y] z] cs1 IH]; intros r; [done|].
  cbn [app Renderer.drawPoints].
  destruct (Renderer.drawPoint x y z br r) as [r1|]; [|done]. apply IH.
Qed.

(** When the loops of its three edges exit, [drawPolygon] runs the calls
    of the edges in order with the wireframe brush. *)
Lemma drawPolygon_runs_calls (first second third : Vector3.t F)
    (r : Renderer.t F) :
  drawPolygon_returns first second third = true ->
  Renderer.drawPolygon first second third r
  = Renderer.drawPoints (Renderer.wfBrush r)
      (Renderer.drawPolygon_calls first second third) r.
Proof.
  intros [[Hr1 Hr2]%andb_true_iff Hr3]%andb_true_iff.
  unfold Renderer.drawPolygon, Renderer.drawPolygon_calls, Renderer.drawLine.
  rewrite Hr1, Hr2, Hr3. rewrite drawPoints_app.
  destruct (Renderer.drawPoints _ (Renderer.drawLine_calls first second) r)
    as [r1|] eqn:H1; [|done]. cbn [mbind option_bind].
  rewrite drawPoints_app.
  destruct (drawPoints_frame _ _ _ _ H1) as (_ & _ & Hb1 & _). rewrite Hb1.
  destruct (Renderer.drawPoints _ (Renderer.drawLine_calls second third) r1)
    as [r2|] eqn:H2; [|done]. cbn [mbind option_bind].
  rewrite <- Hb1 in H2.
  destruct (drawPoints_frame _ _ _ _ H2) as (_ & _ & Hb2 & _).
  by rewrite Hb2, Hb1.
Qed.

End LinePositions.

Section LinesExact.
Local Open Scope R_scope.

Lemma Rtrunc_IZR (n : Z) : Exact.Rtrunc (IZR n) = n.
Proof.
  unfold Exact.Rtrunc. destruct (Rle_dec 0 (IZR n)) as [Hn|Hn].
  - destruct (base_Int_part (IZR n)) as [Hup Hlow].
    assert (n - 1 < Int_part (IZR n) < n + 1)%Z; [|lia].
    split; apply lt_IZR; rewrite ?minus_IZR, ?plus_IZR; lra.
  - rewrite <- opp_IZR.
    destruct (base_Int_part (IZR (- n))) as [Hup Hlow].
    assert (- n - 1 < Int_part (IZR (- n)) < - n + 1)%Z; [|lia].
    split; apply lt_IZR; rewrite ?minus_IZR, ?plus_IZR; lra.
Qed.

Lemma to_Z_IZR (n : Z) : (INT_MIN <= n <= INT_MAX)%Z -> Exact.to_Z (IZR n) = n.
Proof. intros Hn. rewrite to_Z_in_range; by rewrite Rtrunc_IZR. Qed.

Lemma to_Z_difference (a c : Z) :
  (- 2 ^ 30 < c - a < 2 ^ 30)%Z ->
  Exact.to_Z (IZR c - IZR a) = (c - a)%Z
  /\ Exact.to_Z (Rabs (IZR c - IZR a)) = Z.abs (c - a).
Proof.
  intros Hr. rewrite <- minus_IZR, <- abs_IZR. split; apply to_Z_IZR; int_lia.
Qed.

Lemma drawLine_between_pixels (a b c d : Z) (z0 z1 : R) :
  (- 2 ^ 29 < a < 2 ^ 29)%Z -> (- 2 ^ 29 < b < 2 ^ 29)%Z ->
  (- 2 ^ 29 < c < 2 ^ 29)%Z -> (- 2 ^ 29 < d < 2 ^ 29)%Z ->
  (a, b) <> (c, d) ->
  let from := Vector3.mk (IZR a) (IZR b) z0 in
  let to := Vector3.mk (IZR c) (IZR d) z1 in
  Renderer.drawLine_returns from to = true
  /\ length (Renderer.drawLine_calls from to)
     = Z.to_nat (Z.max (Z.abs (c - a)) (Z.abs (d - b)))
  /\ Renderer.drawLine_calls from to !! 0%nat = Some (a, b, z0)
  /\ (c, d) ∉ (pixel <$> Renderer.drawLine_calls from to).
Proof.
  intros Ha Hb Hc Hd Hne from to.
  destruct (to_Z_difference a c) as [Hdx Hax]; [lia|].
  destruct (to_Z_difference b d) as [Hdy Hay]; [lia|].
  assert (Hxa : Exact.to_Z (IZR a) = a) by (apply to_Z_IZR; int_lia).
  assert (Hyb : Exact.to_Z (IZR b) = b) by (apply to_Z_IZR; int_lia).
  assert (Hlen : length (Renderer.drawLine_calls from to)
                 = Z.to_nat (Z.max (Z.abs (c - a)) (Z.abs (d - b)))).
  { rewrite drawLine_calls_length.
    cbn [fabs fsub of_int to_int Exact.scalar from to Vector3.x Vector3.y].
    by rewrite Hxa, Hyb, Hax, Hay. }
  assert (Hpos : (0 < Z.max (Z.abs (c - a)) (Z.abs (d - b)))%Z).
  { destruct (decide (a = c)) as [->|]; [|lia].
    destruct (decide (b = d)) as [->|]; [done|lia]. }
  split.
  { unfold Renderer.drawLine_returns, Renderer.drawLine_rounds.
    cbn [fabs fsub of_int to_int Exact.scalar from to Vector3.x Vector3.y].
    rewrite Hxa, Hyb, Hax, Hay. apply Z.ltb_lt.
    destruct (Z.abs (c - a) <? Z.abs (d - b))%Z; int_lia. }
  split; [exact Hlen|].
  pose proof (sign_range (c - a)) as Hsx. pose proof (sign_range (d - b)) as Hsy.
  split.
  - unfold Renderer.drawLine_calls.
    cbn [fabs fsub of_int to_int Exact.scalar from to Vector3.x Vector3.y].
    rewrite Hxa, Hyb, Hax, Hay, Hdx, Hdy.
    assert (Hstart : forall isSwap sx sy dx dy n e,
              Renderer.line_loop from to isSwap sx sy dx dy (S n) a b e !! 0%nat
              = Some (a, b, z0)).
    { intros. cbn [Renderer.line_loop].
      destruct (Renderer.turn _ _ _ _ _ _ _) as [[x1 y1] e1].
      cbn zeta beta iota. cbn [lookup list_lookup]. do 2 f_equal.
      cbv [Vector3.len Vector3.dot Vector3.sub Vector3.x Vector3.y Vector3.z
           fadd fsub fmul fdiv fsqrt of_int Exact.scalar from to].
      replace ((IZR a - IZR a) * (IZR a - IZR a)
               + (IZR b - IZR b) * (IZR b - IZR b) + (0 - 0) * (0 - 0))
        with 0 by ring.
      rewrite sqrt_0. unfold Rdiv. ring. }
    destruct (Z.abs (c - a) <? Z.abs (d - b))%Z eqn:Hswap.
    + destruct (Z.to_nat (Z.abs (d - b))) as [|n] eqn:Hn; [lia|]. apply Hstart.
    + destruct (Z.to_nat (Z.abs (c - a))) as [|n] eqn:Hn; [lia|]. apply Hstart.
  - intros Hin. apply list_elem_of_fmap in Hin as (cl & Hpix & Hin).
    apply list_elem_of_lookup in Hin as [i Hi].
    pose proof (lookup_lt_Some _ _ _ Hi) as Hlt. rewrite Hlen in Hlt.
    revert Hi. unfold Renderer.drawLine_calls.
    cbn [fabs fsub of_int to_int Exact.scalar from to Vector3.x Vector3.y].
    rewrite Hxa, Hyb, Hax, Hay, Hdx, Hdy.
    destruct (Z.abs (c - a) <? Z.abs (d - b))%Z eqn:Hswap; intros Hi.
    + apply Z.ltb_lt in Hswap.
      rewrite (wrap_in_int (2 * Z.abs (c - a))),
        (wrap_in_int (2 * Z.abs (c - a) - Z.abs (d - b))) in Hi by int_lia.
      apply line_loop_primary in Hi as [_ Hy]; try int_lia.
      specialize (Hy eq_refl). rewrite <- Hpix in Hy. cbn [snd] in Hy.
      unfold Renderer.sign in Hy.
      destruct (0 <? d - b)%Z eqn:H1, (d - b <? 0)%Z eqn:H2; simpl in Hy; lia.
    + apply Z.ltb_ge in Hswap.
      rewrite (wrap_in_int (2 * Z.abs (d - b))),
        (wrap_in_int (2 * Z.abs (d - b) - Z.abs (c - a))) in Hi by int_lia.
      apply line_loop_primary in Hi as [Hx _]; try int_lia.
      specialize (Hx eq_refl). rewrite <- Hpix in Hx. cbn [fst] in Hx.
      unfold Renderer.sign in Hx.
      destruct (0 <? c - a)%Z eqn:H1, (c - a <? 0)%Z eqn:H2; simpl in Hx; lia.
Qed.

(** X21: In exact arithmetic, a line between two distinct pixels with integer
    coordinates of absolute value below [2 ^ 29] submits [max(|dx|, |dy|)]
    pixels and never submits its end pixel. *)
Theorem drawLine_omits_end_pixel (a b c d : Z) (z0 z1 : R) :
  near_origin (a, b) -> near_origin (c, d) -> (a, b) <> (c, d) ->
  let from := Vector3.mk (IZR a) (IZR b) z0 in
  let to := Vector3.mk (IZR c) (IZR d) z1 in
  length (Renderer.drawLine_calls from to)
    = Z.to_nat (Z.max (Z.abs (c - a)) (Z.abs (d - b)))
  /\ (c, d) ∉ (pixel <$> Renderer.drawLine_calls from to).
Proof.
  intros [Ha Hb] [Hc Hd] Hne from to.
  destruct (drawLine_between_pixels a b c d z0 z1 Ha Hb Hc Hd Hne)
    as (_ & Hlen & _ & Hend).
  by split.
Qed.

Lemma drawLine_omits_end_pixel_witness :
  near_origin (0%Z, 0%Z) /\ near_origin (4%Z, 0%Z)
  /\ (0%Z, 0%Z) <> (4%Z, 0%Z)
  /\ (4%Z, 0%Z)
     ∉ (pixel <$> Renderer.drawLine_calls (Vector3.mk (IZR 0) (IZR 0) 1)
                    (Vector3.mk (IZR 4) (IZR 0) 1)).
Proof.
  assert (H0 : near_origin (0%Z, 0%Z)) by (split; cbn [fst snd]; lia).
  assert (H4 : near_origin (4%Z, 0%Z)) by (split; cbn [fst snd]; lia).
  assert (Hne : (0%Z, 0%Z) <> (4%Z, 0%Z)) by discriminate.
  split; [exact H0|]. split; [exact H4|]. split; [exact Hne|].
  exact (proj2 (drawLine_omits_end_pixel 0 0 4 0 1 1 H0 H4 Hne)).
Defined.

End LinesExact.

Section OutlineExact.
Local Open Scope R_scope.

(** X22: In exact arithmetic, the outline of a triangle whose vertices are
    three distinct pixels with integer coordinates of absolute value below
    [2 ^ 29] submits every vertex with its own depth: the three lines run
    in order with the wireframe brush, each edge leaves out its end pixel,
    and the next edge starts there. *)
Theorem drawPolygon_visits_vertices (a1 b1 a2 b2 a3 b3 : Z) (z1 z2 z3 : R)
    (r : Renderer.t R) :
  near_origin (a1, b1) -> near_origin (a2, b2) -> near_origin (a3, b3) ->
  (a1, b1) <> (a2, b2) -> (a2, b2) <> (a3, b3) -> (a3, b3) <> (a1, b1) ->
  let p1 := Vector3.mk (IZR a1) (IZR b1) z1 in
  let p2 := Vector3.mk (IZR a2) (IZR b2) z2 in
  let p3 := Vector3.mk (IZR a3) (IZR b3) z3 in
  Renderer.drawPolygon p1 p2 p3 r
    = Renderer.drawPoints (Renderer.wfBrush r)
        (Renderer.drawPolygon_calls p1 p2 p3) r
  /\ (a1, b1, z1) ∈ Renderer.drawPolygon_calls p1 p2 p3
  /\ (a2, b2, z2) ∈ Renderer.drawPolygon_calls p1 p2 p3
  /\ (a3, b3, z3) ∈ Renderer.drawPolygon_calls p1 p2 p3.
Proof.
  intros [Ha1 Hb1] [Ha2 Hb2] [Ha3 Hb3] H12 H23 H31 p1 p2 p3.
  cbn [fst snd] in *.
  destruct (drawLine_between_pixels a1 b1 a2 b2 z1 z2 Ha1 Hb1 Ha2 Hb2 H12)
    as (Hr1 & _ & Hs1 & _).
  destruct (drawLine_between_pixels a2 b2 a3 b3 z2 z3 Ha2 Hb2 Ha3 Hb3 H23)
    as (Hr2 & _ & Hs2 & _).
  destruct (drawLine_between_pixels a3 b3 a1 b1 z3 z1 Ha3 Hb3 Ha1 Hb1 H31)
    as (Hr3 & _ & Hs3 & _).
  split.
  { apply drawPolygon_runs_calls. unfold drawPolygon_returns.
    fold p1 p2 p3 in Hr1, Hr2, Hr3. by rewrite Hr1, Hr2, Hr3. }
  apply list_elem_of_lookup_2 in Hs1, Hs2, Hs3.
  unfold Renderer.drawPolygon_calls. rewrite !elem_of_app. tauto.
Qed.

Lemma drawPolygon_visits_vertices_witness :
  near_origin (0%Z, 0%Z) /\ near_origin (4%Z, 0%Z) /\ near_origin (0%Z, 3%Z)
  /\ (0%Z, 0%Z) <> (4%Z, 0%Z) /\ (4%Z, 0%Z) <> (0%Z, 3%Z)
  /\ (0%Z, 3%Z) <> (0%Z, 0%Z)
  /\ (4%Z, 0%Z, 2)
     ∈ Renderer.drawPolygon_calls (Vector3.mk (IZR 0) (IZR 0) 1)
         (Vector3.mk (IZR 4) (IZR 0) 2) (Vector3.mk (IZR 0) (IZR 3) 3).
Proof.
  assert (H1 : near_origin (0%Z, 0%Z)) by (split; cbn [fst snd]; lia).
  assert (H2 : near_origin (4%Z, 0%Z)) by (split; cbn [fst snd]; lia).
  assert (H3 : near_origin (0%Z, 3%Z)) by (split; cbn [fst snd]; lia).
  assert (H12 : (0%Z, 0%Z) <> (4%Z, 0%Z)) by discriminate.
  assert (H23 : (4%Z, 0%Z) <> (0%Z, 3%Z)) by discriminate.
  assert (H31 : (0%Z, 3%Z) <> (0%Z, 0%Z)) by discriminate.
  split; [exact H1|]. split; [exact H2|]. split; [exact H3|].
  split; [exact H12|]. split; [exact H23|]. split; [exact H31|].
  exact (proj1 (proj2 (proj2
    (drawPolygon_visits_vertices 0 0 4 0 0 3 1 2 3
       (Renderer.Renderer ∅ 6 6) H1 H2 H3 H12 H23 H31)))).
Defined.

End OutlineExact.

(** ** [renderObject] and [ztofile] *)

Section RenderObject.
Context {F : Type} `{Scalar F} `{HasInfinity F}.
Local Open Scope float_scope.


Lemma middle_third (n x : Z) :
  x ∈ seqZ (Z.quot n 3) (Z.quot (2 * n) 3 - Z.quot n 3) -> (0 <= x < n)%Z.
Proof.
  intros Hx%elem_of_seqZ. revert Hx.
  Z.to_euclidean_division_equations. lia.
Qed.

(** On an allocated z-buffer [ztofile] raises no exception. *)
Lemma ztofile_safe (r : Renderer.t F) :
  allocated r -> is_Some (Renderer.ztofile r).
Proof.
  intros Ha. unfold Renderer.ztofile.
  apply mapM_is_Some, Forall_forall. intros x Hx%middle_third.
  apply mapM_is_Some, Forall_forall. intros y Hy%middle_third.
  cbn [compose]. destruct (Ha x y Hx Hy) as [v ->]. by eexists.
Qed.

Lemma indexable_lookups (solid : bool) (pol : Polygon.t F) (m : Matrix4.t F) :
  indexable solid pol ->
  (exists v0 v1 v2,
      Polygon.vertices (Polygon.getTransformed pol m) !! 0%nat = Some v0
      /\ Polygon.vertices (Polygon.getTransformed pol m) !! 1%nat = Some v1
      /\ Polygon.vertices (Polygon.getTransformed pol m) !! 2%nat = Some v2)
  /\ (solid = true -> exists n, Polygon.normals pol !! 0%nat = Some n).
Proof.
  intros [Hv Hn]. split.
  - destruct pol as [[|v0 [|v1 [|v2 vs]]] ns]; simpl in *; try lia.
    by eexists _, _, _.
  - intros Hs. specialize (Hn Hs).
    destruct pol as [vs [|n ns]]; simpl in *; [lia|by eexists].
Qed.

(** X23: With neither [wireframe] nor [solid], [renderObject] draws nothing:
    the renderer and its surface brush come back unchanged, with the dump
    of [ztofile]. *)
Theorem renderObject_idle (polygons : list (Polygon.t F)) (m : Matrix4.t F)
    (r : Renderer.t F) (surfaceBrush : Color) :
  Forall (indexable false) polygons ->
  Renderer.renderObject polygons m false false (r, surfaceBrush)
  = (fun dump => (r, surfaceBrush, dump)) <$> Renderer.ztofile r.
Proof.
  intros Hall. unfold Renderer.renderObject.
  assert (Hloop : forall i,
             Renderer.renderPolygons m false false polygons (r, surfaceBrush, i)
             = Some (r, surfaceBrush, i)).
  { induction Hall as [|pol polygons Hpol _ IH]; intros i; [done|].
    cbn [Renderer.renderPolygons]. unfold Renderer.renderPolygon.
    destruct (indexable_lookups false pol m Hpol)
      as [(v0 & v1 & v2 & -> & -> & ->) _]. simpl. apply IH. }
  rewrite Hloop. simpl. by destruct (Renderer.ztofile r).
Qed.

Lemma rem2_even (i : Z) : (0 <= i)%Z -> (Z.rem i 2 =? 0)%Z = Z.even i.
Proof. intros Hi. rewrite Z.rem_mod_nonneg by lia. by rewrite Zeven_mod. Qed.

(** One round of the loop of [renderObject] on a polygon it can index:
    the outline when [wireframe] is set, then, when [solid] is set, the
    fill with the colour of the place [i]. *)
Lemma renderPolygon_rounds (m : Matrix4.t F) (wireframe solid : bool)
    (pol : Polygon.t F) (r : Renderer.t F) (br : Color) (i : Z) :
  indexable solid pol -> (0 <= i)%Z ->
  Renderer.renderPolygon m wireframe solid pol (r, br, i)
  = r1 ← (if wireframe
          then Renderer.drawPolygon (corner r m pol 0) (corner r m pol 1)
                 (corner r m pol 2) r
          else Some r);
    if solid
    then r2 ← Renderer.fillPolygon (corner r m pol 0) (corner r m pol 1)
                (corner r m pol 2) (normal_of pol) (fill_colour i) r1;
         Some (r2, fill_colour i, (i + 1)%Z)
    else Some (r1, br, i).
Proof.
  intros Hpol Hi. unfold Renderer.renderPolygon, corner, normal_of, fill_colour.
  destruct (indexable_lookups solid pol m Hpol)
    as [(v0 & v1 & v2 & -> & -> & ->) Hn].
  cbn [mbind option_bind default from_option Datatypes.id]. rewrite rem2_even by done.
  destruct (if wireframe then _ else _) as [r1|]; [|done].
  cbn [mbind option_bind]. destruct solid; [|done].
  destruct (Hn eq_refl) as [n ->]. cbn [mbind option_bind default from_option Datatypes.id].
  by destruct (Z.even i).
Qed.

Lemma corner_viewport (r r' : Renderer.t F) (m : Matrix4.t F)
    (pol : Polygon.t F) (k : nat) :
  Renderer.viewportX r' = Renderer.viewportX r ->
  Renderer.viewportY r' = Renderer.viewportY r ->
  corner r' m pol k = corner r m pol k.
Proof. intros Hx Hy. unfold corner, Renderer.NDCtoViewport. by rewrite Hx, Hy. Qed.

Lemma drawPolygon_frame (first second third : Vector3.t F)
    (r r' : Renderer.t F) :
  Renderer.drawPolygon first second third r = Some r' ->
  Renderer.viewportX r' = Renderer.viewportX r
  /\ Renderer.viewportY r' = Renderer.viewportY r
  /\ dom (Renderer.zbuffer r') = dom (Renderer.zbuffer r).
Proof.
  unfold Renderer.drawPolygon.
  destruct (Renderer.drawLine first second r) as [r1|] eqn:H1; [|done].
  cbn [mbind option_bind].
  destruct (Renderer.drawLine second third r1) as [r2|] eqn:H2; [|done].
  cbn [mbind option_bind]. intros H3.
  destruct (drawLine_frame _ _ _ _ H1) as (<- & <- & _ & <-).
  destruct (drawLine_frame _ _ _ _ H2) as (<- & <- & _ & <-).
  by destruct (drawLine_frame _ _ _ _ H3) as (<- & <- & _ & <-).
Qed.

Lemma fillPolygon_frame (a b c n : Vector3.t F) (br : Color)
    (r r' : Renderer.t F) :
  Renderer.fillPolygon a b c n br r = Some r' ->
  Renderer.viewportX r' = Renderer.viewportX r
  /\ Renderer.viewportY r' = Renderer.viewportY r
  /\ dom (Renderer.zbuffer r') = dom (Renderer.zbuffer r).
Proof.
  unfold Renderer.fillPolygon.
  destruct (Renderer.fillPolygon_returns a b c); [|done]. intros Hrun.
  by destruct (drawPoints_frame _ _ _ _ Hrun) as (<- & <- & _ & <-).
Qed.

(** X24: On an allocated z-buffer with sides below [2 ^ 30],
    [renderObject] raises no index exception on polygons it can index,
    whatever the flags: when the loops of every outline and fill exit,
    the drawing and the dump of [ztofile] go through, and the z-buffer
    stays allocated. *)
Theorem renderObject_never_raises (polygons : list (Polygon.t F))
    (m : Matrix4.t F) (wireframe solid : bool) (r : Renderer.t F)
    (surfaceBrush : Color) :
  (0 <= Renderer.viewportX r < 2 ^ 30)%Z ->
  (0 <= Renderer.viewportY r < 2 ^ 30)%Z ->
  allocated r ->
  Forall (indexable solid) polygons ->
  Forall (fun pol => loops_exit r m wireframe solid pol = true) polygons ->
  exists r' surfaceBrush' dump,
    Renderer.renderObject polygons m wireframe solid (r, surfaceBrush)
    = Some (r', surfaceBrush', dump)
    /\ allocated r'.
Proof.
  intros _ _ Ha Hall Hexit. unfold Renderer.renderObject.
  assert (Hloop : forall r1 br i, (0 <= i)%Z -> allocated r1 ->
             Renderer.viewportX r1 = Renderer.viewportX r ->
             Renderer.viewportY r1 = Renderer.viewportY r ->
             exists r' br' i',
               Renderer.renderPolygons m wireframe solid polygons (r1, br, i)
               = Some (r', br', i') /\ allocated r').
  { clear surfaceBrush Ha.
    induction Hall as [|pol polygons Hpol _ IH]; intros r1 br i Hi Ha Hvx Hvy.
    - by exists r1, br, i.
    - apply Forall_cons in Hexit as [Hpolx Hexit]. specialize (IH Hexit).
      cbn [Renderer.renderPolygons]. rewrite renderPolygon_rounds by done.
      rewrite !(corner_viewport r r1) by done.
      apply andb_true_iff in Hpolx as [Hwire Hfill].
      assert (Hw : exists r2,
                 (if wireframe
                  then Renderer.drawPolygon (corner r m pol 0) (corner r m pol 1)
                         (corner r m pol 2) r1
                  else Some r1) = Some r2
                 /\ allocated r2
                 /\ Renderer.viewportX r2 = Renderer.viewportX r
                 /\ Renderer.viewportY r2 = Renderer.viewportY r).
      { destruct wireframe; [|by exists r1]. cbn [negb orb] in Hwire.
        destruct (drawPolygon_safe _ _ _ r1 Hwire (allocated_covers r1 Ha))
          as (r2 & Hr2 & _).
        exists r2. split; [done|].
        destruct (drawPolygon_frame _ _ _ _ _ Hr2) as (Hx & Hy & Hdom).
        split; [by apply (covers_frame r1 r2 Hx Hy Hdom)|]. split; congruence. }
      destruct Hw as (r2 & -> & Ha2 & Hvx2 & Hvy2). cbn [mbind option_bind].
      destruct solid; [|by apply IH]. cbn [negb orb] in Hfill.
      destruct (fillPolygon_safe _ _ _ (normal_of pol) (fill_colour i) r2 Hfill
                  (allocated_covers r2 Ha2)) as (r3 & Hr3 & _).
      rewrite Hr3. cbn [mbind option_bind].
      destruct (fillPolygon_frame _ _ _ _ _ _ _ Hr3) as (Hx & Hy & Hdom).
      apply IH; [lia| |congruence|congruence].
      by apply (covers_frame r2 r3 Hx Hy Hdom). }
  destruct (Hloop r surfaceBrush 0%Z) as (r' & br' & i' & -> & Ha'); try done.
  cbn [mbind option_bind].
  destruct (ztofile_safe r' Ha') as [dump ->]. simpl. by exists r', br', dump.
Qed.

Lemma renderPolygons_app (m : Matrix4.t F) (wireframe solid : bool)
    (l1 l2 : list (Polygon.t F)) (st : Renderer.t F * Color * Z) :
  Renderer.renderPolygons m wireframe solid (l1 ++ l2) st
  = Renderer.renderPolygons m wireframe solid l1 st
    ≫= Renderer.renderPolygons m wireframe solid l2.
Proof.
  revert st. induction l1 as [|pol l1 IH]; intros st; [done|].
  cbn [app Renderer.renderPolygons].
  destruct (Renderer.renderPolygon m wireframe solid pol st) as [st1|]; [|done].
  apply IH.
Qed.

(** What one round of the loop does when [solid] is set, read off a run
    that returned. *)
Lemma renderPolygon_solid (m : Matrix4.t F) (wireframe : bool)
    (pol : Polygon.t F) (r : Renderer.t F) (br : Color) (i : Z)
    (st : Renderer.t F * Color * Z) :
  (0 <= i)%Z ->
  Renderer.renderPolygon m wireframe true pol (r, br, i) = Some st ->
  exists r1 r2,
    (if wireframe
     then Renderer.drawPolygon (corner r m pol 0) (corner r m pol 1)
            (corner r m pol 2) r
     else Some r) = Some r1
    /\ Renderer.fillPolygon (corner r m pol 0) (corner r m pol 1)
         (corner r m pol 2) (normal_of pol) (fill_colour i) r1 = Some r2
    /\ st = (r2, fill_colour i, (i + 1)%Z).
Proof.
  intros Hi. unfold Renderer.renderPolygon, corner, normal_of, fill_colour.
  destruct (Polygon.vertices _ !! 0%nat) as [v0|]; [|done].
  destruct (Polygon.vertices _ !! 1%nat) as [v1|]; [|done].
  destruct (Polygon.vertices _ !! 2%nat) as [v2|]; [|done].
  cbn [mbind option_bind default from_option Datatypes.id]. rewrite rem2_even by done.
  destruct (if wireframe then _ else _) as [r1|]; [|done].
  cbn [mbind option_bind].
  destruct (Polygon.normals pol !! 0%nat) as [n|]; [|done].
  cbn [mbind option_bind default from_option Datatypes.id].
  replace (if negb (Z.even i) then Yellow else Blue)
    with (if Z.even i then Blue else Yellow) by (by destruct (Z.even i)).
  destruct (Renderer.fillPolygon _ _ _ _ _ _) as [r2|] eqn:Hfill; [|done].
  cbn [mbind option_bind]. intros [= <-]. by exists r1, r2.
Qed.

Lemma renderPolygons_counter (m : Matrix4.t F) (wireframe : bool)
    (polygons : list (Polygon.t F)) :
  forall (r r' : Renderer.t F) (br br' : Color) (i i' : Z),
    (0 <= i)%Z ->
    Renderer.renderPolygons m wireframe true polygons (r, br, i)
      = Some (r', br', i') ->
    i' = (i + Z.of_nat (length polygons))%Z
    /\ (polygons <> [] ->
        br' = fill_colour (i + Z.of_nat (length polygons) - 1)).
Proof.
  induction polygons as [|pol polygons IH]; intros r r' br br' i i' Hi.
  - cbn [Renderer.renderPolygons length]. intros [= _ _ <-]. split; [lia|done].
  - cbn [Renderer.renderPolygons].
    destruct (Renderer.renderPolygon m wireframe true pol (r, br, i))
      as [st|] eqn:Hstep; [|done].
    apply renderPolygon_solid in Hstep as (r1 & r2 & _ & _ & ->); [|done].
    cbn [mbind option_bind]. intros Hrest.
    destruct polygons as [|pol' polygons].
    + cbn [Renderer.renderPolygons length] in *. injection Hrest as _ <- <-.
      split; [lia|]. intros _. f_equal. lia.
    + apply IH in Hrest as [-> Hbr]; [|lia]. split; [cbn [length]; lia|].
      intros _. rewrite Hbr by done. f_equal. cbn [length]. lia.
Qed.

(** X25: With [solid] set, the loop of [renderObject] fills the polygon at
    place [k] (counted from 0) with blue when [k] is even and with yellow
    when [k] is odd, after its outline when [wireframe] is set, and leaves
    the surface brush at that colour; after all [n > 0] polygons the
    counter is [n] and the brush has the colour of the place [n - 1]. *)
Theorem renderPolygons_brush (polygons : list (Polygon.t F)) (m : Matrix4.t F)
    (wireframe : bool) (r r' : Renderer.t F) (br br' : Color) (i' : Z) :
  polygons <> [] ->
  Renderer.renderPolygons m wireframe true polygons (r, br, 0%Z)
    = Some (r', br', i') ->
  i' = Z.of_nat (length polygons)
  /\ br' = fill_colour (Z.of_nat (length polygons) - 1)
  /\ forall (k : nat) (pol : Polygon.t F),
       polygons !! k = Some pol ->
       exists (rk : Renderer.t F) (brk : Color) (r1 rk' : Renderer.t F),
         Renderer.renderPolygons m wireframe true (take k polygons) (r, br, 0%Z)
           = Some (rk, brk, Z.of_nat k)
         /\ (if wireframe
             then Renderer.drawPolygon (corner rk m pol 0) (corner rk m pol 1)
                    (corner rk m pol 2) rk
             else Some rk) = Some r1
         /\ Renderer.fillPolygon (corner rk m pol 0) (corner rk m pol 1)
              (corner rk m pol 2) (normal_of pol) (fill_colour (Z.of_nat k)) r1
            = Some rk'
         /\ Renderer.renderPolygons m wireframe true (take (S k) polygons)
              (r, br, 0%Z)
            = Some (rk', fill_colour (Z.of_nat k), Z.of_nat (S k)).
Proof.
  intros Hne Hrun.
  destruct (renderPolygons_counter m wireframe polygons r r' br br' 0 i')
    as [Hi' Hbr']; [lia|done|].
  split; [lia|]. split; [by rewrite Hbr'|].
  intros k pol Hk.
  rewrite <- (take_drop_middle polygons k pol Hk), renderPolygons_app in Hrun.
  destruct (Renderer.renderPolygons m wireframe true (take k polygons) (r, br, 0%Z))
    as [[[rk brk] ik]|] eqn:Hprefix; [|done].
  cbn [mbind option_bind Renderer.renderPolygons] in Hrun.
  destruct (renderPolygons_counter m wireframe (take k polygons) r rk br brk 0 ik)
    as [Hik _]; [lia|done|].
  assert (Hlen : ik = Z.of_nat k).
  { rewrite Hik, length_take.
    pose proof (lookup_lt_Some _ _ _ Hk). lia. }
  clear Hik. subst ik.
  destruct (Renderer.renderPolygon m wireframe true pol (rk, brk, Z.of_nat k))
    as [st|] eqn:Hstep; [|done].
  pose proof Hstep as Hstep'.
  apply renderPolygon_solid in Hstep' as (r1 & rk' & Hwire & Hfill & ->); [|lia].
  exists rk, brk, r1, rk'. split; [done|]. split; [done|]. split; [done|].
  rewrite (take_S_r polygons k pol Hk), renderPolygons_app, Hprefix.
  cbn [mbind option_bind Renderer.renderPolygons]. rewrite Hstep.
  cbn [mbind option_bind]. do 2 f_equal. lia.
Qed.

End RenderObject.

Section DumpBinary32.
Import Binary32 Samples.
Local Open Scope float_scope.



End DumpBinary32.

(** ** Worked instances (binary32) *)

Section SamplesBinary32.
Import Binary32 Samples.
Local Open Scope float_scope.

Lemma allocated_fresh : allocated fresh.
Proof.
  intros x y Hx Hy. unfold fresh. cbn [Renderer.clearZBuffer Renderer.zbuffer].
  rewrite lookup_fmap.
  destruct (allocated_Renderer (F := float) ∅ 6 6 x y Hx Hy) as [v ->].
  by eexists.
Qed.

Lemma drawing_never_raises_witness :
  covers fresh
  /\ (exists r', Renderer.drawLine (v3 1 1 1) (v3 4 2 1) fresh = Some r'
                 /\ covers r')
  /\ (exists r', Renderer.drawPolygon (v3 1 1 1) (v3 4 2 1) (v3 2 9 1) fresh
                 = Some r' /\ covers r')
  /\ (exists r', Renderer.fillPolygon (v3 1 1 1) (v3 4 2 1) (v3 2 9 1)
                   (v3 0 0 1) Blue fresh = Some r' /\ covers r')
  /\ (exists r', Renderer.drawAxes Matrix4.identity false fresh = Some r'
                 /\ covers r').
Proof.
  destruct (drawing_never_raises fresh (v3 1 1 1) (v3 4 2 1) (v3 2 9 1) (v3 0 0 1)
              Blue Matrix4.identity false covers_fresh)
    as (Hline & Hpolygon & Hfill & Haxes).
  split; [exact covers_fresh|].
  split; [apply Hline; vm_compute; reflexivity|].
  split; [apply Hpolygon; vm_compute; reflexivity|].
  split; [apply Hfill; vm_compute; reflexivity|].
  apply Haxes. vm_compute. reflexivity.
Defined.

Lemma drawLine_pixels_connected_witness :
  (0 <= 3 < 2 ^ 30)%Z /\ (0 <= 1 < 2 ^ 30)%Z
  /\ (- 2 ^ 30 <= 1 <= 2 ^ 30)%Z
  /\ (forall c, Renderer.drawLine_calls (v3 1 1 1) (v3 4 2 1) !! 0%nat = Some c ->
                pixel c = (1%Z, 1%Z))
  /\ forall (i : nat) (c c' : Renderer.call float),
       Renderer.drawLine_calls (v3 1 1 1) (v3 4 2 1) !! i = Some c ->
       Renderer.drawLine_calls (v3 1 1 1) (v3 4 2 1) !! S i = Some c' ->
       bresenham_step false 1 1 (pixel c) (pixel c')
       /\ (Z.abs ((pixel c').1 - (pixel c).1) <= 1)%Z
       /\ (Z.abs ((pixel c').2 - (pixel c).2) <= 1)%Z.
Proof.
  assert (Hdx : (0 <= 3 < 2 ^ 30)%Z) by lia.
  assert (Hdy : (0 <= 1 < 2 ^ 30)%Z) by lia.
  assert (Hxy : (- 2 ^ 30 <= 1 <= 2 ^ 30)%Z) by lia.
  split; [exact Hdx|]. split; [exact Hdy|]. split; [exact Hxy|].
  exact (drawLine_pixels_connected (v3 1 1 1) (v3 4 2 1) Hdx Hdy Hxy Hxy).
Defined.

Lemma drawPoint_beyond_array_witness :
  (0 <= 6)%Z /\ (0 < 7 < 10)%Z /\ (0 < 2 < 10)%Z /\ (6 <= 7 \/ 6 <= 2)%Z
  /\ Renderer.drawPoint 7 2 #1 Blue
       (Renderer.setViewport 10 10 (Renderer.Renderer ∅ 6 6)) = None.
Proof.
  assert (Hw : (0 <= 6)%Z) by lia.
  assert (Hx : (0 < 7 < 10)%Z) by lia.
  assert (Hy : (0 < 2 < 10)%Z) by lia.
  assert (Hout : (6 <= 7 \/ 6 <= 2)%Z) by lia.
  split; [exact Hw|]. split; [exact Hx|]. split; [exact Hy|].
  split; [exact Hout|].
  exact (drawPoint_beyond_array ∅ 6 6 10 10 7 2 #1 Blue Hw Hw Hx Hy Hout).
Defined.

Lemma Renderer_zero_depths_witness :
  (0 <= 6)%Z
  /\ Renderer.zbuffer (Renderer.Renderer (F := float) ∅ 6 6) !! (2%Z, 3%Z)
     = Some #0
  /\ Renderer.zbuffer (Renderer.Renderer (F := float) ∅ 6 6) !! (6%Z, 3%Z)
     = None.
Proof.
  assert (Hw : (0 <= 6)%Z) by lia.
  split; [exact Hw|]. split.
  - exact (Renderer_zero_depths (F := float) ∅ 6 6 2 3 Hw Hw).
  - exact (Renderer_zero_depths (F := float) ∅ 6 6 6 3 Hw Hw).
Defined.

Lemma clearZBuffer_resets_witness :
  exists r',
    Renderer.drawPoints Blue (calls_of nearA) fresh = Some r'
    /\ Renderer.zbuffer (Renderer.clearZBuffer r') = Renderer.zbuffer fresh.
Proof.
  destruct (drawPoints_safe Blue (calls_of nearA) fresh covers_fresh)
    as (r' & Hr' & _).
  exists r'. split; [exact Hr'|].
  destruct (clearZBuffer_resets Blue (calls_of nearA) fresh r' Hr')
    as (Hzb & _).
  rewrite Hzb. unfold fresh.
  destruct (clearZBuffer_resets Blue [] (Renderer.Renderer ∅ 6 6)
              (Renderer.Renderer ∅ 6 6) eq_refl) as (_ & _ & _ & Hidem).
  by rewrite Hidem.
Defined.

Lemma drawing_stays_in_viewport_witness :
  exists r',
    Renderer.drawPoints Blue (calls_of nearA) fresh = Some r'
    /\ (0 <= 0 \/ 3 <= 0 \/ Renderer.viewportX fresh < 0
        \/ Renderer.viewportY fresh < 3)%Z
    /\ Renderer.graphics r' !! (0%Z, 3%Z) = None.
Proof.
  destruct (drawPoints_safe Blue (calls_of nearA) fresh covers_fresh)
    as (r' & Hr' & _).
  assert (Hout : (0 <= 0 \/ 3 <= 0 \/ Renderer.viewportX fresh < 0
                  \/ Renderer.viewportY fresh < 3)%Z) by (left; lia).
  exists r'. split; [exact Hr'|]. split; [exact Hout|].
  exact (drawing_stays_in_viewport Blue (calls_of nearA) fresh r' 0 3 Hr' Hout).
Defined.

Lemma fillPolygon_drops_flat_witness :
  (Renderer.deformed (v3 0 2 1) (v3 3 2 1) (v3 5 2 1) = true
   \/ (Renderer.totalHeight (v3 0 2 1) (v3 3 2 1) (v3 5 2 1) <= 0)%Z)
  /\ Renderer.fillPolygon_calls (v3 0 2 1) (v3 3 2 1) (v3 5 2 1) = []
  /\ Renderer.fillPolygon (v3 0 2 1) (v3 3 2 1) (v3 5 2 1) (v3 0 0 1) Blue fresh
     = Some fresh.
Proof.
  assert (Hflat : Renderer.deformed (v3 0 2 1) (v3 3 2 1) (v3 5 2 1) = true
                  \/ (Renderer.totalHeight (v3 0 2 1) (v3 3 2 1) (v3 5 2 1)
                      <= 0)%Z) by (left; vm_compute; reflexivity).
  split; [exact Hflat|].
  exact (fillPolygon_drops_flat (v3 0 2 1) (v3 3 2 1) (v3 5 2 1) (v3 0 0 1)
           Blue fresh Hflat).
Defined.

Lemma fillPolygon_depths_follow_sorted_witness :
  (Vector3.y (v3 1 3 1) >? Vector3.y (v3 1 1 2)) = true
  /\ (Vector3.y (v3 1 1 2) >? Vector3.y (v3 3 3 3)) = false
  /\ (Vector3.y (v3 1 3 1) >? Vector3.y (v3 3 3 3)) = false
  /\ (1%Z, 1%Z, S754_finite false 13048946 (-24))
     ∈ Renderer.fillPolygon_calls (v3 1 3 1) (v3 1 1 2) (v3 3 3 3)
  /\ exists i j : Z,
       let query := Vector3.mk #j (Vector3.y (v3 1 1 2) + #i) #0 in
       let weights := Util.barycentric query (v3 1 3 1) (v3 1 1 2) (v3 3 3 3) in
       (1%Z, 1%Z, S754_finite false 13048946 (-24))
       = (j, to_int (Vector3.y (v3 1 1 2) + #i),
          Vector3.x weights * Vector3.z (v3 1 1 2)
          + Vector3.y weights * Vector3.z (v3 1 3 1)
          + Vector3.z weights * Vector3.z (v3 3 3 3)).
Proof.
  assert (H12 : (Vector3.y (v3 1 3 1) >? Vector3.y (v3 1 1 2)) = true)
    by (vm_compute; reflexivity).
  assert (H23 : (Vector3.y (v3 1 1 2) >? Vector3.y (v3 3 3 3)) = false)
    by (vm_compute; reflexivity).
  assert (H13 : (Vector3.y (v3 1 3 1) >? Vector3.y (v3 3 3 3)) = false)
    by (vm_compute; reflexivity).
  assert (Hin : (1%Z, 1%Z, S754_finite false 13048946 (-24))
                ∈ Renderer.fillPolygon_calls (v3 1 3 1) (v3 1 1 2) (v3 3 3 3)).
  { apply (list_elem_of_lookup_2 _ 0%nat). vm_compute. reflexivity. }
  split; [exact H12|]. split; [exact H23|]. split; [exact H13|].
  split; [exact Hin|].
  exact (fillPolygon_depths_follow_sorted (v3 1 3 1) (v3 1 1 2) (v3 3 3 3)
           _ H12 H23 H13 Hin).
Defined.

Lemma depth_buffer_only_rises_witness :
  exists r',
    Renderer.drawPoints Blue (calls_of nearA) fresh = Some r'
    /\ Renderer.zbuffer fresh !! (1%Z, 1%Z) = Some (- INFINITY)
    /\ exists v', Renderer.zbuffer r' !! (1%Z, 1%Z) = Some v'
                  /\ (v' = - INFINITY \/ (v' >? - INFINITY) = true).
Proof.
  destruct (drawPoints_safe Blue (calls_of nearA) fresh covers_fresh)
    as (r' & Hr' & _).
  assert (Hv : Renderer.zbuffer fresh !! (1%Z, 1%Z) = Some (- INFINITY))
    by (vm_compute; reflexivity).
  exists r'. split; [exact Hr'|]. split; [exact Hv|].
  exact (depth_buffer_only_rises Blue (calls_of nearA) fresh r' (1, 1)
           (- INFINITY) Hr' Hv).
Defined.

Lemma sample_polygon_indexable (solid : bool) : indexable solid sample_polygon.
Proof. split; [simpl; lia|intros _; simpl; lia]. Qed.

Lemma renderObject_idle_witness :
  Forall (indexable false) [sample_polygon; sample_polygon]
  /\ Renderer.renderObject [sample_polygon; sample_polygon] Matrix4.identity
       false false (fresh, Black)
     = (fun dump => (fresh, Black, dump)) <$> Renderer.ztofile fresh.
Proof.
  assert (Hall : Forall (indexable false) [sample_polygon; sample_polygon])
    by (repeat constructor; apply sample_polygon_indexable).
  split; [exact Hall|].
  exact (renderObject_idle [sample_polygon; sample_polygon] Matrix4.identity
           fresh Black Hall).
Defined.

Lemma renderObject_never_raises_witness :
  (0 <= 6 < 2 ^ 30)%Z
  /\ allocated fresh
  /\ Forall (indexable true) [sample_polygon; sample_polygon]
  /\ Forall (fun pol => loops_exit fresh Matrix4.identity true true pol = true)
            [sample_polygon; sample_polygon]
  /\ exists r' surfaceBrush' dump,
       Renderer.renderObject [sample_polygon; sample_polygon] Matrix4.identity
         true true (fresh, Black)
       = Some (r', surfaceBrush', dump)
       /\ allocated r'.
Proof.
  pose proof allocated_fresh as Ha.
  assert (Hall : Forall (indexable true) [sample_polygon; sample_polygon])
    by (repeat constructor; apply sample_polygon_indexable).
  assert (Hexit : Forall (fun pol => loops_exit fresh Matrix4.identity true true
                                        pol = true)
                     [sample_polygon; sample_polygon])
    by (repeat constructor; vm_compute; reflexivity).
  assert (Hside : (0 <= 6 < 2 ^ 30)%Z) by lia.
  split; [exact Hside|].
  split; [exact Ha|]. split; [exact Hall|]. split; [exact Hexit|].
  exact (renderObject_never_raises [sample_polygon; sample_polygon]
           Matrix4.identity true true fresh Black Hside Hside Ha Hall Hexit).
Defined.

Lemma renderPolygons_brush_witness :
  [sample_polygon; sample_polygon] <> []
  /\ exists r',
       Renderer.renderPolygons Matrix4.identity true true
         [sample_polygon; sample_polygon] (fresh, Black, 0%Z)
       = Some (r', Yellow, 2%Z).
Proof.
  assert (Hne : [sample_polygon; sample_polygon] <> []) by discriminate.
  split; [exact Hne|].
  assert (Hrun : exists st,
             Renderer.renderPolygons Matrix4.identity true true
               [sample_polygon; sample_polygon] (fresh, Black, 0%Z) = Some st)
    by (eexists; vm_compute; reflexivity).
  destruct Hrun as [[[r' br'] i'] Hrun].
  destruct (renderPolygons_brush [sample_polygon; sample_polygon]
              Matrix4.identity true fresh r' Black br' i' Hne Hrun)
    as (Hi & Hbr & _).
  exists r'. rewrite Hrun, Hi, Hbr. reflexivity.
Defined.

End SamplesBinary32.
